(** * Goodluck Sharing: the transfer and discovery engine

    A shallow embedding of the two revisions of [goodluck_sharing.py] that
    the repository holds:

    - [V3]  : [src/goodluck_sharing.py] (APP_VERSION "v3.0");
    - [V21] : [src/Goodluck Sharing app/goodluck_sharing.py] (APP_VERSION "v2.1").

    Python values are modelled as follows.  A [str] is a Rocq [string], a
    [bytes] object a [list byte], an [int] a [Z].  A [dict] used as a map is a
    [gmap]; a value that came out of [json.loads] is a [json] tree.  Code
    that can raise runs in a small state-and-exception monad.  The Python
    library functions the code calls ([json], UTF-8 codecs, [hashlib]) are
    the fields of the class [PyLib]; wall-clock readings, the Tk widgets and
    the desktop notifier are left out. *)

From Stdlib Require Import ZArith Ascii.
From Stdlib.Strings Require Import Byte.
From stdpp Require Import base gmap strings list pretty.

#[local] Set Warnings "-register-all".
Local Open Scope Z_scope.

(** ** Python values *)

Abbreviation bytes := (list byte).

(** What [json.loads] returns.  JSON numbers with a fraction or an exponent
    (Python [float]) are outside the model. *)
Inductive json : Type :=
| JNull
| JBool (b : bool)
| JInt (z : Z)
| JStr (s : string)
| JList (l : list json)
| JDict (kvs : list (string * json)).

(** [d.get(key)] on a [dict] whose items are [kvs], in insertion order and
    without repeated keys. *)
Fixpoint dict_get (kvs : list (string * json)) (key : string) : option json :=
  match kvs with
  | [] => None
  | (k, v) :: rest => if String.eqb k key then Some v else dict_get rest key
  end.

(** [d.get(key, default)]. *)
Definition dict_get_default (kvs : list (string * json)) (key : string)
    (default : json) : json :=
  match dict_get kvs key with
  | Some v => v
  | None => default
  end.

(** [d.get(key)], which is [None] for a missing key. *)
Definition dict_get_none (kvs : list (string * json)) (key : string) : json :=
  dict_get_default kvs key JNull.

(** Python truthiness, as [if x] and [x or y] test it. *)
Definition truthy (v : json) : bool :=
  match v with
  | JNull => false
  | JBool b => b
  | JInt z => negb (z =? 0)
  | JStr s => negb (String.eqb s "")
  | JList l => match l with [] => false | _ => true end
  | JDict kvs => match kvs with [] => false | _ => true end
  end.

(** [a or b]. *)
Definition py_or (a b : json) : json := if truthy a then a else b.

(** A value used where an [int] is needed; [bool] is a subclass of [int]. *)
Definition as_int (v : json) : option Z :=
  match v with
  | JInt z => Some z
  | JBool b => Some (if b then 1 else 0)
  | _ => None
  end.

(** ** Strings *)

(** [s.lower()] on ASCII letters, which is all that matters for the
    hexadecimal digests it is applied to. *)
Definition lower_ascii (c : ascii) : ascii :=
  let n := nat_of_ascii c in
  if (65 <=? n)%nat && (n <=? 90)%nat then ascii_of_nat (n + 32) else c.

Fixpoint lower (s : string) : string :=
  match s with
  | EmptyString => EmptyString
  | String c rest => String (lower_ascii c) (lower rest)
  end.

(** [s.startswith(p)]. *)
Definition startswith (s p : string) : bool := String.prefix p s.

(** [sep in s]. *)
Fixpoint contains (sep : ascii) (s : string) : bool :=
  match s with
  | EmptyString => false
  | String c rest => Ascii.eqb c sep || contains sep rest
  end.

(** The text after the last [sep] in [s], or all of [s] when it has none:
    [s[s.rfind(sep) + 1:]]. *)
Fixpoint after_last (sep : ascii) (s : string) : string :=
  match s with
  | EmptyString => EmptyString
  | String c rest =>
      if contains sep rest then after_last sep rest
      else if Ascii.eqb c sep then rest
      else s
  end.

(** [os.path.basename(p)] as [posixpath] defines it:
    [i = p.rfind('/') + 1; return p[i:]].  Paths are modelled as on a POSIX
    system, where the slash is the only separator. *)
Definition basename (p : string) : string := after_last "/"%char p.

(** ** DuplicateManager *)

Record DuplicateRecord : Type := {
  dr_path : string;
  dr_hash : string;
  dr_peer : string;
  dr_timestamp : string
}.

(** [lst[-n:]] for a positive [n]: the last [n] items, all of them when the
    list is shorter. *)
Definition last_n {A} (n : nat) (l : list A) : list A :=
  drop (length l - n)%nat l.

Module DuplicateManager.

(** [self.file_hashes], a [defaultdict(list)]. *)
Abbreviation store := (gmap string (list DuplicateRecord)).

(** [self.file_hashes[key]], which yields the empty list for a new key. *)
Definition records (s : store) (key : string) : list DuplicateRecord :=
  default [] (s !! key).

(** [f"{file_hash}_{os.path.basename(file_path)}"]. *)
Definition key_of (file_path file_hash : string) : string :=
  file_hash +:+ "_" +:+ basename file_path.

(** [add_file_hash]; [now] is [datetime.now().isoformat()].  The store
    that [_save_duplicates] writes is the one returned. *)
Definition add_file_hash (s : store) (file_path file_hash peer_ip now : string)
    : store :=
  let key := key_of file_path file_hash in
  let entry := {| dr_path := file_path; dr_hash := file_hash;
                  dr_peer := peer_ip; dr_timestamp := now |} in
  let appended := records s key ++ [entry] in
  if (1000 <? length appended)%nat
  then <[key := last_n 1000 appended]> s
  else <[key := appended]> s.

(** The [for entry in ...] loop of [is_duplicate]. *)
Fixpoint find_match (entries : list DuplicateRecord) (file_hash peer_ip : string)
    : bool * option DuplicateRecord :=
  match entries with
  | [] => (false, None)
  | entry :: rest =>
      if String.eqb (dr_hash entry) file_hash && String.eqb (dr_peer entry) peer_ip
      then (true, Some entry)
      else find_match rest file_hash peer_ip
  end.

(** [is_duplicate]; [self.file_hashes.get(key, [])]. *)
Definition is_duplicate (s : store) (file_path file_hash peer_ip : string)
    : bool * option DuplicateRecord :=
  find_match (default [] (s !! key_of file_path file_hash)) file_hash peer_ip.

(** [get_duplicate_info]. *)
Definition get_duplicate_info (s : store) (file_path file_hash : string)
    : list DuplicateRecord :=
  default [] (s !! key_of file_path file_hash).

(** [clear_duplicates]. *)
Definition clear_duplicates (s : store) : store := ∅.

(** Every key holds at most 1000 records. *)
Definition capped (s : store) : Prop :=
  ∀ key, (length (records s key) ≤ 1000)%nat.

(** The stores that the operations build from the empty database. *)
Inductive reachable : store → Prop :=
| reachable_empty : reachable ∅
| reachable_add s file_path file_hash peer_ip now :
    reachable s → reachable (add_file_hash s file_path file_hash peer_ip now)
| reachable_clear s : reachable s → reachable (clear_duplicates s).

End DuplicateManager.

(** ** Transfer history *)

Inductive direction := Send | Receive.

Inductive status :=
| MissionSuccess | MissionInterrupted | MissionFailed   (* v3.0 *)
| StatusOK | StatusCancelled | StatusError.             (* v2.1 *)

(** One history record.  [h_files] is whatever the manifest declared as
    [file_count]; [h_verified] is [None] for the dash and [Some (v, n)] for
    [f"{v}/{n}"]. *)
Record history_record : Type := {
  h_direction : direction;
  h_peer : string;
  h_files : json;
  h_size : Z;
  h_verified : option (Z * json);
  h_status : status
}.


(** ** Paths ([pathlib.PurePosixPath]) *)

(** [s.split(sep)]. *)
Fixpoint split_on (sep : ascii) (s : string) : list string :=
  match s with
  | EmptyString => [EmptyString]
  | String c rest =>
      if Ascii.eqb c sep then EmptyString :: split_on sep rest
      else match split_on sep rest with
           | h :: t => String c h :: t
           | [] => [String c EmptyString]
           end
  end.

(** The number of leading slashes of [s]. *)
Fixpoint leading_slashes (s : string) : nat :=
  match s with
  | String c rest => if Ascii.eqb c "/" then S (leading_slashes rest) else O
  | EmptyString => O
  end.

(** A pure POSIX path: the root (empty, one slash, or two slashes when the
    text starts with exactly two) and the parts, from which empty and
    single-dot components are dropped; a double-dot component is kept. *)
Record Path : Type := { p_root : string; p_parts : list string }.

Definition is_part (c : string) : bool :=
  negb (String.eqb c "") && negb (String.eqb c ".").

(** [Path(s)]. *)
Definition Path_of (s : string) : Path :=
  {| p_root := match leading_slashes s with
               | O => ""
               | 2%nat => "//"
               | _ => "/"
               end;
     p_parts := filter (λ c, is_part c = true) (split_on "/" s) |}.

(** [a / b] for a [Path] [a] and a [str] [b]: an absolute [b] replaces [a]. *)
Definition Path_join (a : Path) (b : string) : Path :=
  let pb := Path_of b in
  if String.eqb (p_root pb) "" then
    {| p_root := p_root a; p_parts := p_parts a ++ p_parts pb |}
  else pb.

(** ["/".join(parts)]. *)
Fixpoint join_slash (parts : list string) : string :=
  match parts with
  | [] => ""
  | [p] => p
  | p :: rest => p +:+ "/" +:+ join_slash rest
  end.

(** [str(path)]. *)
Definition Path_str (p : Path) : string :=
  match p_root p, p_parts p with
  | EmptyString, [] => "."
  | root, parts => root +:+ join_slash parts
  end.

(** [p] names an entry of the directory [dest] itself: same root, the parts
    of [dest] followed by one more part that is not the parent link. *)
Definition directly_inside (dest p : Path) : Prop :=
  p_root p = p_root dest ∧
  ∃ name, p_parts p = p_parts dest ++ [name] ∧ name ≠ "..".

(** ** The Python library *)

(** The library functions the engine calls.  A function that can raise
    returns [None] where the library raises. *)
Class PyLib : Type := {
  (** [json.loads(text)] *)
  json_loads : string → option json;
  (** [json.dumps(value)] *)
  json_dumps : json → string;
  (** [text.encode('utf-8')] *)
  utf8_encode : string → bytes;
  (** [data.decode('utf-8')] *)
  utf8_decode : bytes → option string;
  (** [data.decode('utf-8', errors='ignore')] *)
  utf8_decode_ignore : bytes → string;
  (** [hashlib.sha256(data).hexdigest()]; feeding the chunks of [data] to
      [update] one after the other gives the same digest. *)
  sha256_hexdigest : bytes → string
}.

(** ** Big-endian framing ([struct]) *)

Definition byte_of_Z (z : Z) : byte :=
  default x00 (Byte.of_N (Z.to_N (Z.land z 255))).

Definition Z_of_byte (b : byte) : Z := Z.of_N (Byte.to_N b).

(** [struct.pack('!I', n)], which raises [struct.error] outside
    [0 <= n < 2**32]. *)
Definition struct_pack_I (n : Z) : option bytes :=
  if (0 <=? n) && (n <? 2 ^ 32) then
    Some [byte_of_Z (Z.shiftr n 24); byte_of_Z (Z.shiftr n 16);
          byte_of_Z (Z.shiftr n 8); byte_of_Z n]
  else None.

(** [struct.unpack('!I', data)[0]], which raises unless [data] has four
    bytes. *)
Definition struct_unpack_I (data : bytes) : option Z :=
  match data with
  | [b3; b2; b1; b0] =>
      Some (Z.lor (Z.shiftl (Z_of_byte b3) 24)
           (Z.lor (Z.shiftl (Z_of_byte b2) 16)
           (Z.lor (Z.shiftl (Z_of_byte b1) 8) (Z_of_byte b0))))
  | _ => None
  end.

(** [len(l)]. *)
Definition len {A} (l : list A) : Z := Z.of_nat (length l).

(** ** Connections *)

(** What the next [recv] on a connected socket meets: bytes that arrived
    together, the read timeout, or a socket error.  A connection is the list
    of these in order; when the list is used up the peer has closed and
    [recv] returns the empty bytes object from then on. *)
Inductive recv_event :=
| Packet (data : bytes)
| Timeout
| Reset.

Inductive recv_result :=
| Received (chunk : bytes)
| TimedOut
| SocketFailed.

(** [connection.recv(bufsize)] for a positive [bufsize]: at most [bufsize]
    bytes of what has arrived. *)
Definition recv (conn : list recv_event) (bufsize : Z)
    : recv_result * list recv_event :=
  match conn with
  | [] => (Received [], [])
  | Packet [] :: _ => (Received [], [])
  | Packet data :: rest =>
      if len data <=? bufsize then (Received data, rest)
      else
        let n := Z.to_nat bufsize in
        (Received (take n data), Packet (drop n data) :: rest)
  | Timeout :: rest => (TimedOut, rest)
  | Reset :: rest => (SocketFailed, rest)
  end.

(** The bytes a connection delivers up to its first timeout, error or close. *)
Fixpoint delivered (conn : list recv_event) : bytes :=
  match conn with
  | Packet [] :: _ => []
  | Packet data :: rest => data ++ delivered rest
  | _ => []
  end.

(** ** Exceptions and the session monad *)

Inductive exn :=
| RuntimeError (msg : string)
| TypeError
| AttributeError
| JSONDecodeError
| UnicodeDecodeError
| StructError
| SocketTimeout
| OSError.

(** How a computation ends: with a value, with an exception, or without an
    answer because the step budget of a loop ran out. *)
Inductive outcome (A : Type) : Type :=
| Ok (a : A)
| Raise (e : exn)
| OutOfFuel.
Arguments Ok {A} a.
Arguments Raise {A} e.
Arguments OutOfFuel {A}.

Definition M (S A : Type) : Type := S → outcome A * S.

Definition ret {S A} (a : A) : M S A := λ s, (Ok a, s).
Definition raise {S A} (e : exn) : M S A := λ s, (Raise e, s).
Definition bind {S A B} (m : M S A) (k : A → M S B) : M S B :=
  λ s, match m s with
       | (Ok a, s') => k a s'
       | (Raise e, s') => (Raise e, s')
       | (OutOfFuel, s') => (OutOfFuel, s')
       end.
Definition get {S} : M S S := λ s, (Ok s, s).
Definition modify {S} (f : S → S) : M S unit := λ s, (Ok tt, f s).

(** [try: body except Exception as e: handler(e)]. *)
Definition try_except {S A} (body : M S A) (handler : exn → M S A) : M S A :=
  λ s, match body s with
       | (Raise e, s') => handler e s'
       | r => r
       end.

(** A library call that raises [e] where the library does. *)
Definition lift_opt {S A} (o : option A) (e : exn) : M S A :=
  match o with
  | Some a => ret a
  | None => raise e
  end.

#[global] Instance M_ret {S} : MRet (M S) := λ A, @ret S A.
#[global] Instance M_bind {S} : MBind (M S) := λ A B k m, @bind S A B m k.

(** A manifest entry as the sender writes it: a [dict] with a non-empty
    string under [rel], an integer under [size] and a string under
    [sha256]. *)
Definition well_formed_entry (entry : json) : Prop :=
  ∃ kvs rel size expected,
    entry = JDict kvs ∧
    dict_get kvs "rel" = Some (JStr rel) ∧ rel ≠ "" ∧
    dict_get kvs "size" = Some (JInt size) ∧
    dict_get kvs "sha256" = Some (JStr expected).

(** ** The receiving application *)

(** A line of the receive log. *)
Inductive log_line :=
| LogIncoming (peer : string)
| LogBriefing (total_files : json) (total_size : Z)
| LogSkipped (name : string)
| LogDuplicate (name : string)
| LogReceiving (name : string) (size : Z)
| LogVerified (name : string)
| LogIntegrityFailure (name : string)
| LogComplete
| LogInterrupted
| LogFailed (e : exn).

(** The part of the application object and of its surroundings that a
    receive session reads and writes.  [pause_flag] is
    [not self.global_pause_event.is_set()] in v3.0 and [self.transfer_paused]
    in v2.1; [clock] is what [datetime.now().isoformat()] returns. *)
Record app : Type := {
  conn : list recv_event;
  connection_open : bool;
  download_path : string;
  disk : gmap string bytes;
  file_hashes : gmap string (list DuplicateRecord);
  history : list history_record;
  recv_log : list log_line;
  is_listening : bool;
  pause_flag : bool;
  clock : string
}.

Definition set_conn (c : list recv_event) (s : app) : app :=
  {| conn := c; connection_open := connection_open s;
     download_path := download_path s; disk := disk s;
     file_hashes := file_hashes s; history := history s;
     recv_log := recv_log s; is_listening := is_listening s;
     pause_flag := pause_flag s; clock := clock s |}.

Definition set_connection_open (b : bool) (s : app) : app :=
  {| conn := conn s; connection_open := b;
     download_path := download_path s; disk := disk s;
     file_hashes := file_hashes s; history := history s;
     recv_log := recv_log s; is_listening := is_listening s;
     pause_flag := pause_flag s; clock := clock s |}.

Definition set_disk (d : gmap string bytes) (s : app) : app :=
  {| conn := conn s; connection_open := connection_open s;
     download_path := download_path s; disk := d;
     file_hashes := file_hashes s; history := history s;
     recv_log := recv_log s; is_listening := is_listening s;
     pause_flag := pause_flag s; clock := clock s |}.

Definition set_file_hashes (h : gmap string (list DuplicateRecord)) (s : app) : app :=
  {| conn := conn s; connection_open := connection_open s;
     download_path := download_path s; disk := disk s;
     file_hashes := h; history := history s;
     recv_log := recv_log s; is_listening := is_listening s;
     pause_flag := pause_flag s; clock := clock s |}.

Definition set_history (h : list history_record) (s : app) : app :=
  {| conn := conn s; connection_open := connection_open s;
     download_path := download_path s; disk := disk s;
     file_hashes := file_hashes s; history := h;
     recv_log := recv_log s; is_listening := is_listening s;
     pause_flag := pause_flag s; clock := clock s |}.

Definition set_recv_log (l : list log_line) (s : app) : app :=
  {| conn := conn s; connection_open := connection_open s;
     download_path := download_path s; disk := disk s;
     file_hashes := file_hashes s; history := history s;
     recv_log := l; is_listening := is_listening s;
     pause_flag := pause_flag s; clock := clock s |}.

Definition set_is_listening (b : bool) (s : app) : app :=
  {| conn := conn s; connection_open := connection_open s;
     download_path := download_path s; disk := disk s;
     file_hashes := file_hashes s; history := history s;
     recv_log := recv_log s; is_listening := b;
     pause_flag := pause_flag s; clock := clock s |}.

Definition set_pause_flag (b : bool) (s : app) : app :=
  {| conn := conn s; connection_open := connection_open s;
     download_path := download_path s; disk := disk s;
     file_hashes := file_hashes s; history := history s;
     recv_log := recv_log s; is_listening := is_listening s;
     pause_flag := b; clock := clock s |}.

(** The local counters of a receive session. *)
Record locals : Type := {
  verified_count : Z;
  bytes_completed : Z;
  files_completed : Z
}.

(** An upper bound on the number of [recv] calls that can still return
    something before the connection is used up; one call more sees the
    close. *)
Fixpoint conn_budget (conn : list recv_event) : nat :=
  match conn with
  | [] => O
  | Packet data :: rest => S (length data + conn_budget rest)
  | _ :: rest => S (conn_budget rest)
  end.

(** A computation that never runs out of its step budget. *)
Definition total {A} (m : M app A) : Prop := ∀ s, fst (m s) ≠ OutOfFuel.

(** [self._append_recv_log(line)]. *)
Definition append_recv_log (line : log_line) : M app unit :=
  modify (λ s, set_recv_log (recv_log s ++ [line]) s).

(** [open(path, "wb")]: the file is created or emptied. *)
Definition open_wb (path : string) : M app unit :=
  modify (λ s, set_disk (<[path := []]> (disk s)) s).

(** [output_file.write(chunk)]. *)
Definition write_chunk (path : string) (chunk : bytes) (s : app) : app :=
  set_disk (<[path := default [] (disk s !! path) ++ chunk]> (disk s)) s.

(** [save_path.exists()]. *)
Definition path_exists (path : string) (s : app) : bool :=
  bool_decide (is_Some (disk s !! path)).

(** A [dict] is needed: anything else has no [get]. *)
Definition as_dict (v : json) : M app (list (string * json)) :=
  match v with
  | JDict kvs => mret kvs
  | _ => raise AttributeError
  end.

(** A [str] is needed. *)
Definition as_str (v : json) : M app string :=
  match v with
  | JStr s => mret s
  | _ => raise TypeError
  end.

(** [len(v)]. *)
Definition py_len (v : json) : M app Z :=
  match v with
  | JStr s => mret (Z.of_nat (String.length s))
  | JList l => mret (len l)
  | JDict kvs => mret (len kvs)
  | _ => raise TypeError
  end.

(** The items [for x in v] visits. *)
Definition py_iter (v : json) : M app (list json) :=
  match v with
  | JList l => mret l
  | JStr s => mret (map (λ c, JStr (String c EmptyString)) (String.list_ascii_of_string s))
  | JDict kvs => mret (map (λ kv, JStr (fst kv)) kvs)
  | _ => raise TypeError
  end.

(** [sum(f.get('size', 0) for f in files)]. *)
Fixpoint sum_sizes (files : list json) (acc : Z) : M app Z :=
  match files with
  | [] => mret acc
  | f :: rest =>
      kvs ← as_dict f;
      size ← lift_opt (as_int (dict_get_default kvs "size" (JInt 0))) TypeError;
      sum_sizes rest (acc + size)
  end.

(** ** Code that the two revisions share

    The receive loop of a file and the integrity check after it read the
    same in both revisions, up to the chunk size and the wording of the log
    lines. *)

Section Shared.
Context `{PyLib}.

(** The [while received_for_file < file_size] loop with chunks of at most
    [chunk_limit] bytes: [hash_obj] holds the bytes fed to the digest so
    far.  An empty [recv] leaves the loop; a timeout or a socket error
    propagates. *)
Fixpoint recv_file_loop (chunk_limit : Z) (fuel : nat) (path : string)
    (file_size : Z) (hash_obj : bytes) (received_for_file : Z) (loc : locals)
    : M app (bytes * locals) :=
  λ s,
    if received_for_file <? file_size then
      match fuel with
      | O => (OutOfFuel, s)
      | S fuel' =>
          let chunk_size := Z.min chunk_limit (file_size - received_for_file) in
          match recv (conn s) chunk_size with
          | (Received [], c') => (Ok (hash_obj, loc), set_conn c' s)
          | (Received chunk, c') =>
              let chunk_length := len chunk in
              recv_file_loop chunk_limit fuel' path file_size (hash_obj ++ chunk)
                (received_for_file + chunk_length)
                {| verified_count := verified_count loc;
                   bytes_completed := bytes_completed loc + chunk_length;
                   files_completed := files_completed loc |}
                (write_chunk path chunk (set_conn c' s))
          | (TimedOut, c') => (Raise SocketTimeout, set_conn c' s)
          | (SocketFailed, c') => (Raise OSError, set_conn c' s)
          end
      end
    else (Ok (hash_obj, loc), s).

(** The loop run from [hash_obj = hashlib.sha256()] and
    [received_for_file = 0], with a step budget that covers everything the
    connection still holds. *)
Definition receive_file (chunk_limit : Z) (path : string) (file_size : Z)
    (loc : locals) : M app (bytes * locals) :=
  λ s, recv_file_loop chunk_limit (S (conn_budget (conn s))) path file_size [] 0 loc s.

(** The integrity check after a file's loop:
    [if expected_hash and actual_hash.lower() == expected_hash.lower()]. *)
Definition verify_file (peer_ip relative_path path : string)
    (expected_hash : json) (hash_obj : bytes) (loc : locals) : M app locals :=
  let actual_hash := sha256_hexdigest hash_obj in
  matched ←
    (if truthy expected_hash then
       match expected_hash with
       | JStr expected => mret (String.eqb (lower actual_hash) (lower expected))
       | _ => raise AttributeError
       end
     else mret false);
  if (matched : bool) then
    append_recv_log (LogVerified relative_path);;
    modify (λ s, set_file_hashes
      (DuplicateManager.add_file_hash (file_hashes s) path actual_hash peer_ip (clock s)) s);;
    mret {| verified_count := verified_count loc + 1;
            bytes_completed := bytes_completed loc;
            files_completed := files_completed loc |}
  else
    append_recv_log (LogIntegrityFailure relative_path);;
    mret loc.

(** The duplicate check before a file is received; it only writes to the
    log: [if expected_hash: ... if is_duplicate: ...]. *)
Definition check_duplicate (peer_ip relative_path path : string)
    (expected_hash : json) : M app unit :=
  s ← get;
  match expected_hash with
  | JStr h =>
      if truthy expected_hash &&
         fst (DuplicateManager.is_duplicate (file_hashes s) path h peer_ip)
      then append_recv_log (LogDuplicate relative_path)
      else mret tt
  | _ => mret tt
  end.

(** Whether the digest of [content] passes the check against a declared
    digest [expected] that is a string: an empty one never does. *)
Definition digest_matches (content : bytes) (expected : string) : bool :=
  negb (String.eqb expected "") &&
  String.eqb (lower (sha256_hexdigest content)) (lower expected).

(** From the duplicate check to the integrity check: what both revisions
    do with a manifest entry once they have decided to receive it. *)
Definition receive_and_verify (chunk_limit : Z) (peer_ip relative_path path : string)
    (file_size expected_hash : json) (loc : locals) : M app locals :=
  check_duplicate peer_ip relative_path path expected_hash;;
  file_size ← lift_opt (as_int file_size) TypeError;
  append_recv_log (LogReceiving relative_path file_size);;
  open_wb path;;
  '(hash_obj, loc) ← receive_file chunk_limit path file_size loc;
  verify_file peer_ip relative_path path expected_hash hash_obj loc.

End Shared.

(** ** Revision v3.0: [src/goodluck_sharing.py] *)

Module V3.
Section Receiver.
Context `{PyLib}.

Definition CHUNK_SIZE : Z := 512 * 1024.

(** [_add_history]: append, keep the last 2000.  The list returned is the
    one [_save_history] then dumps to the history file. *)
Definition _add_history (history : list history_record) (record : history_record)
    : list history_record :=
  let appended := history ++ [record] in
  if (2000 <? length appended)%nat
  then last_n 2000 appended
  else appended.

Definition add_history (record : history_record) : M app unit :=
  modify (λ s, set_history (_add_history (history s) record) s).

(** [global_pause_transfers] and [global_resume_transfers]: the event is
    cleared and set; no other code of this revision reads it. *)
Definition global_pause_transfers (s : app) : app := set_pause_flag true s.
Definition global_resume_transfers (s : app) : app := set_pause_flag false s.

(** The [while] loop of [_receive_all].  A timeout is retried; a close or
    any other socket error gives [None]. *)
Fixpoint receive_all_loop (fuel : nat) (num_bytes : Z) (data : bytes)
    : M app (option bytes) :=
  λ s,
    if len data <? num_bytes then
      match fuel with
      | O => (OutOfFuel, s)
      | S fuel' =>
          match recv (conn s) (num_bytes - len data) with
          | (Received [], c') => (Ok None, set_conn c' s)
          | (Received packet, c') =>
              receive_all_loop fuel' num_bytes (data ++ packet) (set_conn c' s)
          | (TimedOut, c') => receive_all_loop fuel' num_bytes data (set_conn c' s)
          | (SocketFailed, c') => (Ok None, set_conn c' s)
          end
      end
    else (Ok (Some data), s).

(** [_receive_all(connection, num_bytes)]. *)
Definition _receive_all (num_bytes : Z) : M app (option bytes) :=
  λ s, receive_all_loop (S (conn_budget (conn s))) num_bytes [] s.

(** The destination of a manifest entry:
    [Path(self.download_path_var.get()) / os.path.basename(relative_path)]. *)
Definition save_path (download_path relative_path : string) : Path :=
  let safe_path := basename relative_path in
  Path_join (Path_of download_path) safe_path.

(** One round of [for file_info in files].  [overwrite_policy] is the
    local that the handler sets to [None] and never assigns again. *)
Definition process_file (peer_ip : string) (overwrite_policy : option string)
    (file_info : json) (loc : locals) : M app locals :=
  kvs ← as_dict file_info;
  let relative_path :=
    py_or (dict_get_none kvs "rel")
      (py_or (dict_get_none kvs "relative_path")
         (dict_get_default kvs "name" (JStr "unknown"))) in
  let file_size := dict_get_default kvs "size" (JInt 0) in
  let expected_hash := dict_get_none kvs "sha256" in
  relative_path ← as_str relative_path;
  s ← get;
  let path := Path_str (save_path (download_path s) relative_path) in
  if path_exists path s && bool_decide (overwrite_policy = Some "skip") then
    append_recv_log (LogSkipped relative_path);;
    mret loc
  else
    loc ← receive_and_verify CHUNK_SIZE peer_ip relative_path path
             file_size expected_hash loc;
    mret {| verified_count := verified_count loc;
            bytes_completed := bytes_completed loc;
            files_completed := files_completed loc + 1 |}.

(** [for file_info in files: ...]. *)
Fixpoint for_files (peer_ip : string) (files : list json) (loc : locals)
    : M app locals :=
  match files with
  | [] => mret loc
  | file_info :: rest =>
      loc ← process_file peer_ip None file_info loc;
      for_files peer_ip rest loc
  end.

(** The metadata header: four bytes of length, then the JSON text. *)
Definition read_metadata : M app json :=
  header ← _receive_all 4;
  header ← lift_opt header (RuntimeError "No mission metadata received");
  metadata_length ← lift_opt (struct_unpack_I header) StructError;
  if 10 * 1024 * 1024 <? metadata_length then
    raise (RuntimeError "Mission metadata too large")
  else
    metadata_json ← _receive_all metadata_length;
    match metadata_json with
    | None | Some [] => raise (RuntimeError "Incomplete mission metadata")
    | Some metadata_json =>
        text ← lift_opt (utf8_decode metadata_json) UnicodeDecodeError;
        lift_opt (json_loads text) JSONDecodeError
    end.

(** The [try] block of [_handle_incoming_transfer]. *)
Definition session_body (peer_ip : string) : M app unit :=
  append_recv_log (LogIncoming peer_ip);;
  metadata ← read_metadata;
  metadata ← as_dict metadata;
  let files := dict_get_default metadata "files" (JList []) in
  n ← py_len files;
  let total_files := dict_get_default metadata "file_count" (JInt n) in
  files ← py_iter files;
  total_size ← sum_sizes files 0;
  append_recv_log (LogBriefing total_files total_size);;
  loc ← for_files peer_ip files
           {| verified_count := 0; bytes_completed := 0; files_completed := 0 |};
  s ← get;
  if is_listening s then
    append_recv_log LogComplete;;
    add_history {| h_direction := Receive; h_peer := peer_ip;
                   h_files := total_files; h_size := total_size;
                   h_verified := Some (verified_count loc, total_files);
                   h_status := MissionSuccess |}
  else
    append_recv_log LogInterrupted;;
    add_history {| h_direction := Receive; h_peer := peer_ip;
                   h_files := total_files; h_size := total_size;
                   h_verified := None; h_status := MissionInterrupted |}.

(** [_handle_incoming_transfer(connection, address)] with
    [peer_ip = address[0]]: the body, the [except Exception] clause and
    the [finally] clause that closes the connection. *)
Definition _handle_incoming_transfer (peer_ip : string) : M app unit :=
  try_except (session_body peer_ip)
    (λ e, append_recv_log (LogFailed e);;
          add_history {| h_direction := Receive; h_peer := peer_ip;
                         h_files := JInt 0; h_size := 0;
                         h_verified := None; h_status := MissionFailed |});;
  modify (set_connection_open false).

End Receiver.
End V3.

(** ** Revision v2.1: [src/Goodluck Sharing app/goodluck_sharing.py] *)

(** Loop control of a [for] body: go on with the next item, or [break]. *)
Inductive flow := Next | Break.

(** An entry of the list [_gather_files_for_send] builds: the keys [path],
    [rel], [size] and [sha256] of the [dict]. *)
Record send_file : Type := {
  sf_path : string;
  sf_rel : string;
  sf_size : Z;
  sf_sha256 : string
}.

Module V21.
Section Receiver.
Context `{PyLib}.

(** The answer of [messagebox.askyesnocancel] for a file name: [Some true]
    for yes, [Some false] for no, [None] for cancel. *)
Variable askyesnocancel : string → option bool.

(** [_add_history]: append, keep the last 1000. *)
Definition _add_history (history : list history_record) (record : history_record)
    : list history_record :=
  let appended := history ++ [record] in
  if (1000 <? length appended)%nat
  then last_n 1000 appended
  else appended.

Definition add_history (record : history_record) : M app unit :=
  modify (λ s, set_history (_add_history (history s) record) s).

(** [pause_transfer] and [resume_transfer]. *)
Definition pause_transfer (s : app) : app := set_pause_flag true s.
Definition resume_transfer (s : app) : app := set_pause_flag false s.

(** The [while] loop of [_receive_all]; an exception of [recv] propagates. *)
Fixpoint receive_all_loop (fuel : nat) (num_bytes : Z) (data : bytes)
    : M app (option bytes) :=
  λ s,
    if len data <? num_bytes then
      match fuel with
      | O => (OutOfFuel, s)
      | S fuel' =>
          match recv (conn s) (num_bytes - len data) with
          | (Received [], c') => (Ok None, set_conn c' s)
          | (Received packet, c') =>
              receive_all_loop fuel' num_bytes (data ++ packet) (set_conn c' s)
          | (TimedOut, c') => (Raise SocketTimeout, set_conn c' s)
          | (SocketFailed, c') => (Raise OSError, set_conn c' s)
          end
      end
    else (Ok (Some data), s).

(** [_receive_all(connection, num_bytes)]. *)
Definition _receive_all (num_bytes : Z) : M app (option bytes) :=
  λ s, receive_all_loop (S (conn_budget (conn s))) num_bytes [] s.

(** The destination of a manifest entry:
    [Path(self.download_path_var.get()) / relative_path]. *)
Definition save_path (download_path relative_path : string) : Path :=
  Path_join (Path_of download_path) relative_path.

(** One round of [for file_info in files]; [overwrite_all] is [None] until
    the user has answered yes once. *)
Definition process_file (peer_ip : string) (overwrite_all : option bool)
    (file_info : json) (loc : locals) : M app (flow * option bool * locals) :=
  kvs ← as_dict file_info;
  let relative_path :=
    py_or (dict_get_none kvs "rel")
      (py_or (dict_get_none kvs "relative_path") (dict_get_none kvs "name")) in
  let file_size := dict_get_default kvs "size" (JInt 0) in
  let expected_hash := dict_get_none kvs "sha256" in
  relative_path ← as_str relative_path;
  s ← get;
  let path := Path_str (save_path (download_path s) relative_path) in
  let receive (overwrite_all : option bool) : M app (flow * option bool * locals) :=
    if path_exists path s && negb (default false overwrite_all) then
      append_recv_log (LogSkipped relative_path);;
      mret (Next, overwrite_all, loc)
    else
      loc ← receive_and_verify (128 * 1024) peer_ip relative_path path
               file_size expected_hash loc;
      mret (Next, overwrite_all, loc) in
  if path_exists path s && bool_decide (overwrite_all = None) then
    match askyesnocancel relative_path with
    | None =>
        modify (set_is_listening false);;
        mret (Break, overwrite_all, loc)
    | Some false =>
        append_recv_log (LogSkipped relative_path);;
        mret (Next, overwrite_all, loc)
    | Some true => receive (Some true)
    end
  else receive overwrite_all.

(** [for file_info in files: ...]. *)
Fixpoint for_files (peer_ip : string) (overwrite_all : option bool)
    (files : list json) (loc : locals) : M app locals :=
  match files with
  | [] => mret loc
  | file_info :: rest =>
      '(fl, overwrite_all, loc) ← process_file peer_ip overwrite_all file_info loc;
      match fl with
      | Next => for_files peer_ip overwrite_all rest loc
      | Break => mret loc
      end
  end.

(** The metadata header; the declared length is used as it is.  A
    connection that closes early makes [_receive_all] return [None], on
    which [decode] raises. *)
Definition read_metadata : M app json :=
  header ← _receive_all 4;
  header ← lift_opt header (RuntimeError "No metadata received");
  metadata_length ← lift_opt (struct_unpack_I header) StructError;
  metadata_json ← _receive_all metadata_length;
  metadata_json ← lift_opt metadata_json AttributeError;
  text ← lift_opt (utf8_decode metadata_json) UnicodeDecodeError;
  lift_opt (json_loads text) JSONDecodeError.

(** The [try] block of [_handle_incoming_transfer]. *)
Definition session_body (peer_ip : string) : M app unit :=
  metadata ← read_metadata;
  metadata ← as_dict metadata;
  let files := dict_get_default metadata "files" (JList []) in
  n ← py_len files;
  let total_files := dict_get_default metadata "file_count" (JInt n) in
  files ← py_iter files;
  total_size ← sum_sizes files 0;
  append_recv_log (LogBriefing total_files total_size);;
  loc ← for_files peer_ip None files
           {| verified_count := 0; bytes_completed := 0; files_completed := 0 |};
  s ← get;
  if is_listening s then
    append_recv_log LogComplete;;
    add_history {| h_direction := Receive; h_peer := peer_ip;
                   h_files := total_files; h_size := total_size;
                   h_verified := Some (verified_count loc, total_files);
                   h_status := StatusOK |}
  else
    append_recv_log LogInterrupted;;
    add_history {| h_direction := Receive; h_peer := peer_ip;
                   h_files := total_files; h_size := total_size;
                   h_verified := None; h_status := StatusCancelled |}.

(** [_handle_incoming_transfer(connection, address)]. *)
Definition _handle_incoming_transfer (peer_ip : string) : M app unit :=
  try_except (session_body peer_ip)
    (λ e, append_recv_log (LogFailed e);;
          add_history {| h_direction := Receive; h_peer := peer_ip;
                         h_files := JInt 0; h_size := 0;
                         h_verified := None; h_status := StatusError |});;
  modify (set_connection_open false).

End Receiver.
End V21.

(** *** The sender of v2.1 *)

Module Sender.
Section Sender.
Context `{PyLib}.

(** The [dict] that [_perform_send] serialises:
    [{'file_count': len(files), 'files': [{'rel': ..., 'size': ...,
    'sha256': ...} for f in files]}]. *)
Definition manifest_entry (f : send_file) : json :=
  JDict [("rel", JStr (sf_rel f)); ("size", JInt (sf_size f));
         ("sha256", JStr (sf_sha256 f))]%string.

Definition metadata_of (files : list send_file) : json :=
  JDict [("file_count", JInt (len files));
         ("files", JList (map manifest_entry files))]%string.

(** What [_perform_send] writes before the file bytes:
    [struct.pack('!I', len(metadata_bytes))] and then [metadata_bytes].
    [None] stands for the [struct.error] of a length that does not fit 32
    bits.  The four-byte [sock.send] is taken to transmit all four bytes. *)
Definition encode_header (files : list send_file) : option bytes :=
  let metadata_bytes := utf8_encode (json_dumps (metadata_of files)) in
  header ← struct_pack_I (len metadata_bytes);
  Some (header ++ metadata_bytes).

(** The two flags another thread sets while a transfer runs. *)
Record flags : Type := {
  transfer_cancelled : bool;
  transfer_paused : bool
}.

(** Where the sending thread stands in the loops of [_perform_send]. *)
Inductive send_pc :=
| ForHead       (* taking the next item of [for file_info in files] *)
| WhileHead     (* [if self.transfer_cancelled: break] inside [while True] *)
| PauseCheck    (* [while self.transfer_paused: time.sleep(0.1)] *)
| ReadChunk     (* [chunk = file_handle.read(128 * 1024)] and the send *)
| Completion    (* [# Handle completion] *)
| SendFailed    (* the [except] clause ran *)
| SendDone.     (* the [finally] clause ran *)

Record send_state : Type := {
  pc : send_pc;
  pending : list send_file;        (* the files not yet opened *)
  current : option send_file;      (* [file_info] *)
  unread : bytes;                  (* what [file_handle] has left to read *)
  wire : bytes;                    (* the file bytes given to [sock.sendall] *)
  total_sent : Z;
  sock_open : bool;
  sender_disk : gmap string bytes;
  sender_hashes : gmap string (list DuplicateRecord);
  send_status : option status
}.

Definition with_pc (p : send_pc) (st : send_state) : send_state :=
  {| pc := p; pending := pending st; current := current st;
     unread := unread st; wire := wire st; total_sent := total_sent st;
     sock_open := sock_open st; sender_disk := sender_disk st;
     sender_hashes := sender_hashes st; send_status := send_status st |}.

(** Leaving the [with open(...)] block: the duplicate database is updated
    and the [for] loop goes on. *)
Definition after_file (target_ip now : string) (st : send_state) : send_state :=
  {| pc := ForHead; pending := pending st; current := None;
     unread := []; wire := wire st; total_sent := total_sent st;
     sock_open := sock_open st; sender_disk := sender_disk st;
     sender_hashes :=
       match current st with
       | Some f => DuplicateManager.add_file_hash (sender_hashes st)
                     (sf_path f) (sf_sha256 f) target_ip now
       | None => sender_hashes st
       end;
     send_status := send_status st |}.

(** One step of the sending thread; [fl] is what the flags hold when the
    step reads them. *)
Definition send_step (target_ip now : string) (fl : flags) (st : send_state)
    : send_state :=
  match pc st with
  | ForHead =>
      match pending st with
      | [] => with_pc Completion st
      | f :: rest =>
          if transfer_cancelled fl then with_pc Completion st
          else match sender_disk st !! sf_path f with
               | Some content =>
                   {| pc := WhileHead; pending := rest; current := Some f;
                      unread := content; wire := wire st;
                      total_sent := total_sent st; sock_open := sock_open st;
                      sender_disk := sender_disk st;
                      sender_hashes := sender_hashes st;
                      send_status := send_status st |}
               | None => with_pc SendFailed st
               end
      end
  | WhileHead =>
      if transfer_cancelled fl then after_file target_ip now st
      else with_pc PauseCheck st
  | PauseCheck =>
      if transfer_paused fl then st
      else with_pc ReadChunk st
  | ReadChunk =>
      let chunk := take (Z.to_nat (128 * 1024)) (unread st) in
      match chunk with
      | [] => after_file target_ip now st
      | _ =>
          {| pc := WhileHead; pending := pending st; current := current st;
             unread := drop (Z.to_nat (128 * 1024)) (unread st);
             wire := wire st ++ chunk;
             total_sent := total_sent st + len chunk;
             sock_open := sock_open st; sender_disk := sender_disk st;
             sender_hashes := sender_hashes st;
             send_status := send_status st |}
      end
  | Completion =>
      {| pc := SendDone; pending := pending st; current := current st;
         unread := unread st; wire := wire st; total_sent := total_sent st;
         sock_open := false; sender_disk := sender_disk st;
         sender_hashes := sender_hashes st;
         send_status := Some (if transfer_cancelled fl then StatusCancelled
                              else StatusOK) |}
  | SendFailed =>
      {| pc := SendDone; pending := pending st; current := current st;
         unread := unread st; wire := wire st; total_sent := total_sent st;
         sock_open := false; sender_disk := sender_disk st;
         sender_hashes := sender_hashes st;
         send_status := Some StatusError |}
  | SendDone => st
  end.

(** The sending thread run against the flag values it reads, one per step. *)
Fixpoint send_run (target_ip now : string) (trace : list flags) (st : send_state)
    : send_state :=
  match trace with
  | [] => st
  | fl :: rest => send_run target_ip now rest (send_step target_ip now fl st)
  end.

End Sender.
End Sender.

(** ** Discovery *)

Module Discovery.
Section Discovery.
Context `{PyLib}.

(** The peer table [self.discovered_devices] and the datagrams the
    listener has sent, each with the address it went to. *)
Record listener : Type := {
  discovered_devices : gmap string json;
  sent : list (bytes * (string * Z))
}.

(** [msg.split(":", 1)[1]]: the text after the first colon. *)
Fixpoint after_first_colon (msg : string) : option string :=
  match msg with
  | EmptyString => None
  | String c rest => if Ascii.eqb c ":" then Some rest else after_first_colon rest
  end.

(** The payload of a tagged message, as a [dict]; any exception on the way
    makes the listener drop the datagram. *)
Definition payload (msg : string) : option (list (string * json)) :=
  text ← after_first_colon msg;
  info ← json_loads text;
  match info with
  | JDict kvs => Some kvs
  | _ => None
  end.

(** v2.1, [udp_discovery_listener]: what one received datagram does.
    [local_ip] is [self.get_local_ip()], [device_name] is
    [self.device_name], [addr] the sender's address and port. *)
Definition udp_discovery_listener (local_ip device_name : string)
    (data : bytes) (addr : string * Z) (st : listener) : listener :=
  let msg := utf8_decode_ignore data in
  if startswith msg "GOODLUCK_DISCOVERY:" then
    match payload msg with
    | Some info =>
        let name := dict_get_default info "name" (JStr "Unknown") in
        let devices :=
          if negb (String.eqb (fst addr) local_ip)
          then <[fst addr := name]> (discovered_devices st)
          else discovered_devices st in
        let response :=
          "GOODLUCK_RESPONSE:" +:+ json_dumps (JDict [("name", JStr device_name)]%string) in
        {| discovered_devices := devices;
           sent := sent st ++ [(utf8_encode response, addr)] |}
    | None => st
    end
  else if startswith msg "GOODLUCK_RESPONSE:" then
    match payload msg with
    | Some info =>
        let name := dict_get_default info "name" (JStr "Unknown") in
        if negb (String.eqb (fst addr) local_ip)
        then {| discovered_devices := <[fst addr := name]> (discovered_devices st);
                sent := sent st |}
        else st
    | None => st
    end
  else st.

(** v3.0, [_discovery_listener]: the datagram is the JSON text itself,
    every sender is recorded and nothing is sent back. *)
Definition _discovery_listener (data : bytes) (addr : string * Z) (st : listener)
    : listener :=
  match utf8_decode data ≫= json_loads with
  | Some (JDict device_info) =>
      let device_name :=
        dict_get_default device_info "name" (JStr ("Unknown-" +:+ fst addr)) in
      {| discovered_devices := <[fst addr := device_name]> (discovered_devices st);
         sent := sent st |}
  | _ => st
  end.

End Discovery.
End Discovery.

(** ** A reference library for ASCII text

    An executable instance of [PyLib], used to run the model on concrete
    inputs.  It prints JSON the way [json.dumps] does with its default
    separators, parses the JSON of the same subset, treats text as ASCII, and
    uses a 32-bit checksum in place of SHA-256 (the engine only compares
    digests). *)

Module RefLib.

Definition escape_char (c : ascii) : string :=
  if Ascii.eqb c "034" then String "\" (String "034" EmptyString)
  else if Ascii.eqb c "\" then String "\" (String "\" EmptyString)
  else if Ascii.eqb c "010" then String "\" (String "n" EmptyString)
  else if Ascii.eqb c "013" then String "\" (String "r" EmptyString)
  else if Ascii.eqb c "009" then String "\" (String "t" EmptyString)
  else String c EmptyString.

Fixpoint escape (s : string) : string :=
  match s with
  | EmptyString => EmptyString
  | String c rest => escape_char c +:+ escape rest
  end.

Definition quote (s : string) : string :=
  String "034" (escape s +:+ String "034" EmptyString).

Fixpoint join_comma (items : list string) : string :=
  match items with
  | [] => ""
  | [x] => x
  | x :: rest => x +:+ ", " +:+ join_comma rest
  end.

Fixpoint dumps (v : json) : string :=
  match v with
  | JNull => "null"
  | JBool true => "true"
  | JBool false => "false"
  | JInt z => pretty z
  | JStr s => quote s
  | JList l => "[" +:+ join_comma (map dumps l) +:+ "]"
  | JDict kvs =>
      "{" +:+ join_comma (map (λ kv, quote (fst kv) +:+ ": " +:+ dumps (snd kv)) kvs)
          +:+ "}"
  end.

Definition is_space (c : ascii) : bool :=
  Ascii.eqb c " " || Ascii.eqb c "010" || Ascii.eqb c "013" || Ascii.eqb c "009".

Fixpoint skip_ws (s : string) : string :=
  match s with
  | String c rest => if is_space c then skip_ws rest else s
  | EmptyString => s
  end.

Definition digit_of (c : ascii) : option Z :=
  let n := nat_of_ascii c in
  if (48 <=? n)%nat && (n <=? 57)%nat then Some (Z.of_nat (n - 48)) else None.

Fixpoint parse_digits (s : string) (acc : Z) (seen : bool) : option (Z * string) :=
  match s with
  | String c rest =>
      match digit_of c with
      | Some d => parse_digits rest (10 * acc + d) true
      | None => if seen then Some (acc, s) else None
      end
  | EmptyString => if seen then Some (acc, s) else None
  end.

(** The characters of a string literal after its opening quote. *)
Fixpoint parse_chars (s : string) : option (string * string) :=
  match s with
  | EmptyString => None
  | String c rest =>
      if Ascii.eqb c "034" then Some (EmptyString, rest)
      else if Ascii.eqb c "\" then
        match rest with
        | String e rest' =>
            let unescaped :=
              if Ascii.eqb e "n" then Some "010"%char
              else if Ascii.eqb e "r" then Some "013"%char
              else if Ascii.eqb e "t" then Some "009"%char
              else if Ascii.eqb e "034" then Some "034"%char
              else if Ascii.eqb e "\" then Some "\"%char
              else if Ascii.eqb e "/" then Some "/"%char
              else None in
            match unescaped, parse_chars rest' with
            | Some u, Some (str, rest'') => Some (String u str, rest'')
            | _, _ => None
            end
        | EmptyString => None
        end
      else
        match parse_chars rest with
        | Some (str, rest') => Some (String c str, rest')
        | None => None
        end
  end.

Definition expect (word : string) (v : json) (s : string) : option (json * string) :=
  if String.prefix word s
  then Some (v, String.substring (String.length word)
                  (String.length s - String.length word) s)
  else None.

(** [d[k] = v] on the items of a [dict]. *)
Fixpoint dict_set (kvs : list (string * json)) (k : string) (v : json)
    : list (string * json) :=
  match kvs with
  | [] => [(k, v)]
  | (k', v') :: rest =>
      if String.eqb k' k then (k', v) :: rest else (k', v') :: dict_set rest k v
  end.

(** The items of an array after its opening bracket and first value. *)
Fixpoint parse_items (fuel : nat) (value : string → option (json * string))
    (acc : list json) (s : string) : option (list json * string) :=
  match fuel with
  | O => None
  | S fuel' =>
      match skip_ws s with
      | String "]" rest => Some (acc, rest)
      | String "," rest =>
          match value rest with
          | Some (v, rest') => parse_items fuel' value (acc ++ [v]) rest'
          | None => None
          end
      | _ => None
      end
  end.

Definition parse_member (value : string → option (json * string)) (s : string)
    : option (string * json * string) :=
  match skip_ws s with
  | String "034" rest =>
      match parse_chars rest with
      | Some (k, rest') =>
          match skip_ws rest' with
          | String ":" rest'' =>
              match value rest'' with
              | Some (v, rest''') => Some (k, v, rest''')
              | None => None
              end
          | _ => None
          end
      | None => None
      end
  | _ => None
  end.

(** The members of an object after its opening brace and first member. *)
Fixpoint parse_members (fuel : nat) (value : string → option (json * string))
    (acc : list (string * json)) (s : string)
    : option (list (string * json) * string) :=
  match fuel with
  | O => None
  | S fuel' =>
      match skip_ws s with
      | String "}" rest => Some (acc, rest)
      | String "," rest =>
          match parse_member value rest with
          | Some (k, v, rest') => parse_members fuel' value (dict_set acc k v) rest'
          | None => None
          end
      | _ => None
      end
  end.

Fixpoint parse_value (fuel : nat) (s : string) : option (json * string) :=
  match fuel with
  | O => None
  | S fuel' =>
      match skip_ws s with
      | String "n" _ as t => expect "null" JNull t
      | String "t" _ as t => expect "true" (JBool true) t
      | String "f" _ as t => expect "false" (JBool false) t
      | String "034" rest =>
          match parse_chars rest with
          | Some (str, rest') => Some (JStr str, rest')
          | None => None
          end
      | String "-" rest =>
          match parse_digits rest 0 false with
          | Some (z, rest') => Some (JInt (- z), rest')
          | None => None
          end
      | String "[" rest =>
          match skip_ws rest with
          | String "]" rest' => Some (JList [], rest')
          | _ =>
              match parse_value fuel' rest with
              | Some (v, rest') =>
                  match parse_items fuel' (parse_value fuel') [v] rest' with
                  | Some (l, rest'') => Some (JList l, rest'')
                  | None => None
                  end
              | None => None
              end
          end
      | String "{" rest =>
          match skip_ws rest with
          | String "}" rest' => Some (JDict [], rest')
          | _ =>
              match parse_member (parse_value fuel') rest with
              | Some (k, v, rest') =>
                  match parse_members fuel' (parse_value fuel') [(k, v)] rest' with
                  | Some (kvs, rest'') => Some (JDict kvs, rest'')
                  | None => None
                  end
              | None => None
              end
          end
      | t =>
          match parse_digits t 0 false with
          | Some (z, rest') => Some (JInt z, rest')
          | None => None
          end
      end
  end.

Definition loads (s : string) : option json :=
  match parse_value (S (String.length s)) s with
  | Some (v, rest) =>
      match skip_ws rest with
      | EmptyString => Some v
      | _ => None
      end
  | None => None
  end.

Definition encode (s : string) : bytes := String.list_byte_of_string s.

Definition is_ascii (b : byte) : bool := (Byte.to_N b <? 128)%N.

Definition decode (data : bytes) : option string :=
  if forallb is_ascii data then Some (String.string_of_list_byte data) else None.

Definition decode_ignore (data : bytes) : string :=
  String.string_of_list_byte (filter (λ b, is_ascii b = true) data).

Definition hex_digit (n : Z) : ascii :=
  ascii_of_nat (Z.to_nat (if n <? 10 then 48 + n else 87 + n)).

Fixpoint hex (digits : nat) (n : Z) : string :=
  match digits with
  | O => EmptyString
  | S d => hex d (n / 16) +:+ String (hex_digit (n mod 16)) EmptyString
  end.

(** A stand-in for the digest: a 32-bit rolling checksum in lower-case hex. *)
Definition checksum (data : bytes) : string :=
  hex 8 (fold_left (λ acc b, (acc * 31 + Z_of_byte b + 1) mod 2 ^ 32) data 7).

#[export] Instance ref_lib : PyLib := {|
  json_loads := loads;
  json_dumps := dumps;
  utf8_encode := encode;
  utf8_decode := decode;
  utf8_decode_ignore := decode_ignore;
  sha256_hexdigest := checksum
|}.

End RefLib.


(** ** Sample sessions *)

Module Samples.
Import RefLib.

(** An application that listens, with an empty download directory. *)
Definition receiver (incoming : list recv_event) : app :=
  {| conn := incoming; connection_open := true;
     download_path := "/home/user/Downloads";
     disk := ∅; file_hashes := ∅; history := []; recv_log := [];
     is_listening := true; pause_flag := false;
     clock := "2024-05-01T10:00:00" |}.

Definition peer : string := "192.168.1.20".

Definition always_yes (name : string) : option bool := Some true.

Definition no_counters : locals :=
  {| verified_count := 0; bytes_completed := 0; files_completed := 0 |}.

(** Two files, [abcd] and [xy], with their digests declared in upper
    case. *)
Definition two_files : list send_file :=
  [ {| sf_path := "/srv/a.txt"; sf_rel := "a.txt"; sf_size := 4;
       sf_sha256 := "0090B109" |};
    {| sf_path := "/srv/b.txt"; sf_rel := "b.txt"; sf_size := 2;
       sf_sha256 := "00002968" |} ].

Definition two_files_header : bytes :=
  default [] (Sender.encode_header two_files).

(** A manifest whose one entry names a file outside the destination. *)
Definition traversal_files : list send_file :=
  [ {| sf_path := "/srv/evil.sh"; sf_rel := "../evil.sh"; sf_size := 2;
       sf_sha256 := "00002968" |} ].

Definition traversal_header : bytes :=
  default [] (Sender.encode_header traversal_files).

(** A header that declares 10 MiB and one byte of metadata. *)
Definition oversized_header : bytes := [x00; xa0; x00; x01].

(** The entry of [a.txt] as the receiver finds it in the manifest. *)
Definition a_txt_entry : list (string * json) :=
  [("rel", JStr "a.txt"); ("size", JInt 4); ("sha256", JStr "0090B109")]%string.

(** A response datagram that carries the name [Bob]. *)
Definition response_from_bob : bytes :=
  encode ("GOODLUCK_RESPONSE:" +:+ dumps (JDict [("name", JStr "Bob")]%string)).

Definition announcement_from_bob : bytes :=
  encode ("GOODLUCK_DISCOVERY:" +:+ dumps (JDict [("name", JStr "Bob")]%string)).

Definition quiet_listener : Discovery.listener :=
  {| Discovery.discovered_devices := ∅; Discovery.sent := [] |}.

(** A sender at its pause check in the middle of a file. *)
Definition paused_sender : Sender.send_state :=
  {| Sender.pc := Sender.PauseCheck; Sender.pending := [];
     Sender.current := Some {| sf_path := "/srv/a.txt"; sf_rel := "a.txt";
                               sf_size := 4; sf_sha256 := "0090b109" |};
     Sender.unread := encode "cd"; Sender.wire := encode "ab";
     Sender.total_sent := 2; Sender.sock_open := true;
     Sender.sender_disk := {[ "/srv/a.txt"%string := encode "abcd" ]};
     Sender.sender_hashes := ∅; Sender.send_status := None |}.

Definition paused : Sender.flags :=
  {| Sender.transfer_cancelled := false; Sender.transfer_paused := true |}.

End Samples.

(** ** What a connection still holds *)

(** The bytes a connection will hand out to [recv] calls that retry after a
    timeout: those of its packets up to the close, whatever lies between
    them. *)
Fixpoint incoming (conn : list recv_event) : bytes :=
  match conn with
  | [] => []
  | Packet [] :: _ => []
  | Packet data :: rest => data ++ incoming rest
  | _ :: rest => incoming rest
  end.

(** ** What a computation leaves alone *)

(** [frame Q s s']: from [s] to [s'] the settings and the surroundings are
    the same, listening has not been switched on, and every file outside [Q]
    is as it was. *)
Definition frame (Q : string → Prop) (s s' : app) : Prop :=
  connection_open s' = connection_open s ∧
  download_path s' = download_path s ∧
  pause_flag s' = pause_flag s ∧
  clock s' = clock s ∧
  (is_listening s' = true → is_listening s = true) ∧
  (∀ p, disk s' !! p = disk s !! p ∨ Q p).

(** [keeps T m]: however [m] ends, it leaves the history as it was and
    touches no file outside [T download_path]. *)
Definition keeps {A} (T : string → string → Prop) (m : M app A) : Prop :=
  ∀ s, history (snd (m s)) = history s ∧ frame (T (download_path s)) s (snd (m s)).

(** No file at all, and one file. *)
Definition no_file (download_path p : string) : Prop := False.
Definition only (path : string) (download_path p : string) : Prop := p = path.

(** The destinations a session can compute from the names a peer declares. *)
Definition v3_targets (download_path p : string) : Prop :=
  ∃ relative_path, p = Path_str (V3.save_path download_path relative_path).
Definition v21_targets (download_path p : string) : Prop :=
  ∃ relative_path, p = Path_str (V21.save_path download_path relative_path).

(** [wp m s okP exP]: run from [s], [m] returns a value and a state in [okP]
    or raises an exception with a state in [exP]. *)
Definition wp {A} (m : M app A) (s : app)
    (okP : A → app → Prop) (exP : exn → app → Prop) : Prop :=
  match m s with
  | (Ok a, s') => okP a s'
  | (Raise e, s') => exP e s'
  | (OutOfFuel, _) => False
  end.

(** [on_ok m P]: whenever [m] returns a value, the value is in [P]. *)
Definition on_ok {A} (m : M app A) (P : A → Prop) : Prop :=
  ∀ s a s', m s = (Ok a, s') → P a.

(** From [loc] to [loc'] at most [n] more files were verified and no byte
    was taken back. *)
Definition counted (n : Z) (loc loc' : locals) : Prop :=
  verified_count loc ≤ verified_count loc' ≤ verified_count loc + n ∧
  bytes_completed loc ≤ bytes_completed loc'.

(** ** Runs of the sender of v2.1 *)

Module SendRuns.
Import Sender.

(** Neither flag is set. *)
Definition clear : flags :=
  {| transfer_cancelled := false; transfer_paused := false |}.

(** The sending thread between two files, and where it stands when the
    metadata has gone out: at the head of [for file_info in files]. *)
Definition between_files (pending : list send_file) (wire : bytes) (total_sent : Z)
    (disk : gmap string bytes) (hashes : gmap string (list DuplicateRecord))
    : send_state :=
  {| pc := ForHead; pending := pending; current := None; unread := [];
     wire := wire; total_sent := total_sent; sock_open := true;
     sender_disk := disk; sender_hashes := hashes; send_status := None |}.

Definition start_of_send (files : list send_file) (disk : gmap string bytes)
    (hashes : gmap string (list DuplicateRecord)) : send_state :=
  between_files files [] 0 disk hashes.

(** The state in which [_perform_send] returns. *)
Definition end_of_send (left_over : list send_file) (wire : bytes) (total_sent : Z)
    (disk : gmap string bytes) (hashes : gmap string (list DuplicateRecord))
    (st : status) : send_state :=
  {| pc := SendDone; pending := left_over; current := None; unread := [];
     wire := wire; total_sent := total_sent; sock_open := false;
     sender_disk := disk; sender_hashes := hashes; send_status := Some st |}.

(** The bytes of the files as the disk has them, in the order of the list. *)
Definition contents (disk : gmap string bytes) (files : list send_file) : bytes :=
  concat (map (λ f, default [] (disk !! sf_path f)) files).

(** The duplicate database after [add_file_hash] for each file in turn. *)
Definition record_sent (target_ip now : string)
    (hashes : gmap string (list DuplicateRecord)) (files : list send_file)
    : gmap string (list DuplicateRecord) :=
  foldl (λ h f, DuplicateManager.add_file_hash h (sf_path f) (sf_sha256 f) target_ip now)
    hashes files.

(** The buttons that write the two flags: [pause_transfer],
    [resume_transfer] and [cancel_transfer]. *)
Inductive button := PauseButton | ResumeButton | CancelButton.

Definition press (fl : flags) (b : button) : flags :=
  match b with
  | PauseButton =>
      {| transfer_cancelled := transfer_cancelled fl; transfer_paused := true |}
  | ResumeButton =>
      {| transfer_cancelled := transfer_cancelled fl; transfer_paused := false |}
  | CancelButton =>
      {| transfer_cancelled := true; transfer_paused := transfer_paused fl |}
  end.

End SendRuns.

(** ** From the sender's disk to the receiver's *)

(** [Path(p).name]: the last part, empty when there is none. *)
Definition Path_name (p : Path) : string := List.last (p_parts p) "".

Section Gather.
Context `{PyLib}.

(** The loop of [_sha256_of_file]: [data = f.read(chunk_size)] until
    nothing comes, [hash_obj.update(data)] each time; [hash_obj] holds the
    bytes fed so far. *)
Fixpoint sha256_loop (fuel chunk_size : nat) (unread hash_obj : bytes) : option bytes :=
  match fuel with
  | O => None
  | S fuel' =>
      match take chunk_size unread with
      | [] => Some hash_obj
      | data => sha256_loop fuel' chunk_size (drop chunk_size unread) (hash_obj ++ data)
      end
  end.

(** [_sha256_of_file(path, chunk_size)] on a file with the given content;
    the step budget covers a read for every byte and the last, empty
    one. *)
Definition _sha256_of_file (content : bytes) (chunk_size : nat) : option string :=
  hash_obj ← sha256_loop (S (length content)) chunk_size content [];
  Some (sha256_hexdigest hash_obj).

(** [_gather_files_for_send]: the entries and [total_size] for the
    selected paths that are files.  The disk is asked with [str(path_obj)],
    as [is_file], [stat] and [open] do. *)
Fixpoint gather_loop (disk : gmap string bytes) (selected_paths : list string)
    (files : list send_file) (total_size : Z) : option (list send_file * Z) :=
  match selected_paths with
  | [] => Some (files, total_size)
  | file_path :: rest =>
      let path_obj := Path_of file_path in
      match disk !! Path_str path_obj with
      | Some content =>
          let size := len content in
          sha_hash ← _sha256_of_file content (Z.to_nat (1024 * 1024));
          gather_loop disk rest
            (files ++ [{| sf_path := Path_str path_obj; sf_rel := Path_name path_obj;
                          sf_size := size; sf_sha256 := sha_hash |}])
            (total_size + size)
      | None => gather_loop disk rest files total_size
      end
  end.

Definition _gather_files_for_send (disk : gmap string bytes)
    (selected_paths : list string) : option (list send_file * Z) :=
  gather_loop disk selected_paths [] 0.

(** [_check_send_duplicates(files, target_ip)]; [askyesno] is the answer
    the user gives when asked.  [True] cancels the transfer. *)
Definition _check_send_duplicates (hashes : gmap string (list DuplicateRecord))
    (askyesno : Z → bool) (files : list send_file) (target_ip : string) : bool :=
  let duplicates :=
    filter (λ f, fst (DuplicateManager.is_duplicate hashes (sf_path f) (sf_sha256 f)
                        target_ip) = true) files in
  match duplicates with
  | [] => false
  | _ => negb (askyesno (len duplicates))
  end.

(** An entry that tells the truth about a file of [disk]: its size and its
    digest, under a name that is not empty. *)
Definition honest (disk : gmap string bytes) (f : send_file) : Prop :=
  ∃ content,
    disk !! sf_path f = Some content ∧
    sf_size f = len content ∧
    sf_sha256 f = sha256_hexdigest content ∧
    sf_sha256 f ≠ "" ∧ sf_rel f ≠ "".

(** An entry as [_gather_files_for_send] makes it: the size and the digest
    of a file of [disk], under a name without a slash. *)
Definition true_entry (disk : gmap string bytes) (f : send_file) : Prop :=
  ∃ content,
    disk !! sf_path f = Some content ∧
    sf_size f = len content ∧
    sf_sha256 f = sha256_hexdigest content ∧
    contains "/" (sf_rel f) = false.

(** The receiver's disk once every file has been written to the
    destination of its name, a later file over an earlier one of the same
    destination. *)
Definition received_disk (dest : string → string) (sender_disk disk : gmap string bytes)
    (files : list send_file) : gmap string bytes :=
  foldl (λ d f, <[dest (sf_rel f) := default [] (sender_disk !! sf_path f)]> d)
    disk files.

(** The receiver's duplicate database once every file has been verified. *)
Definition received_hashes (dest : string → string) (peer_ip now : string)
    (hashes : gmap string (list DuplicateRecord)) (files : list send_file)
    : gmap string (list DuplicateRecord) :=
  foldl (λ h f, DuplicateManager.add_file_hash h (dest (sf_rel f)) (sf_sha256 f)
                  peer_ip now)
    hashes files.

Definition sum_of_sizes (files : list send_file) : Z :=
  foldr (λ f acc, sf_size f + acc) 0 files.

End Gather.

(** ** The selection and the transfer queue of v2.1 *)

Module Selection.

(** The loop that [select_files] and [select_folder] share: a path is
    appended unless the selection has it; the two counters feed the message
    boxes. *)
Fixpoint select_loop (files selected_paths : list string)
    (added_count duplicate_count : Z) : list string * Z * Z :=
  match files with
  | [] => (selected_paths, added_count, duplicate_count)
  | file_path :: rest =>
      if bool_decide (file_path ∈ selected_paths) then
        select_loop rest selected_paths added_count (duplicate_count + 1)
      else
        select_loop rest (selected_paths ++ [file_path]) (added_count + 1)
          duplicate_count
  end.

(** [select_files], with the paths the dialog returned. *)
Definition select_files (files selected_paths : list string) : list string * Z * Z :=
  select_loop files selected_paths 0 0.

(** [select_folder], with the paths [os.walk] yields joined to their
    directories, in the order of the walk; an empty answer of the dialog
    returns at once. *)
Definition select_folder (folder : string) (walk : list string)
    (selected_paths : list string) : list string * Z * Z :=
  if String.eqb folder "" then (selected_paths, 0, 0)
  else select_loop walk selected_paths 0 0.

Definition clear_selection (selected_paths : list string) : list string := [].

(** What the user does to the selection. *)
Inductive action :=
| SelectFiles (files : list string)
| SelectFolder (folder : string) (walk : list string)
| ClearSelection.

Definition act (selected_paths : list string) (a : action) : list string :=
  match a with
  | SelectFiles files => (select_files files selected_paths).1.1
  | SelectFolder folder walk => (select_folder folder walk selected_paths).1.1
  | ClearSelection => clear_selection selected_paths
  end.

End Selection.

Module Scheduler.
Section Scheduler.
Context `{PyLib}.

Definition MAX_CONCURRENT_TRANSFERS : nat := 2.

(** An item of [self.transfer_queue]: [(target_ip, files, total_size)]. *)
Definition job : Type := string * list send_file * Z.

(** The queue, the threads in [self.current_transfers] (each with the job
    it was started for; the number tells the thread objects apart), the
    jobs for which a thread was started, in the order of the [start()]
    calls, and the number of [root.after(100, self._check_transfers)]
    callbacks that are scheduled and have not run yet. *)
Record sched : Type := {
  transfer_queue : list job;
  current_transfers : list (nat * job);
  started : list job;
  scheduled_checks : nat
}.

Definition initial : sched :=
  {| transfer_queue := []; current_transfers := []; started := [];
     scheduled_checks := 0 |}.

(** [_process_queue]. *)
Definition _process_queue (st : sched) : sched :=
  match transfer_queue st with
  | [] => st
  | next :: rest =>
      if (MAX_CONCURRENT_TRANSFERS <=? length (current_transfers st))%nat then st
      else
        {| transfer_queue := rest;
           current_transfers :=
             current_transfers st ++ [(length (started st), next)];
           started := started st ++ [next];
           scheduled_checks := S (scheduled_checks st) |}
  end.

(** [_check_transfers]; [is_alive] is what the threads answer when it
    runs. *)
Definition _check_transfers (is_alive : nat → bool) (st : sched) : sched :=
  let st :=
    {| transfer_queue := transfer_queue st;
       current_transfers := filter (λ t, is_alive t.1 = true) (current_transfers st);
       started := started st;
       scheduled_checks := scheduled_checks st |} in
  if negb (bool_decide (transfer_queue st = [])) &&
     (length (current_transfers st) <? MAX_CONCURRENT_TRANSFERS)%nat
  then _process_queue st
  else if negb (bool_decide (transfer_queue st = [])) ||
          negb (bool_decide (current_transfers st = []))
  then {| transfer_queue := transfer_queue st;
          current_transfers := current_transfers st;
          started := started st;
          scheduled_checks := S (scheduled_checks st) |}
  else st.

(** [start_transfer]: [target_ip] is what [_get_target_ip] returns, the
    files are gathered from the disk, and the user is asked about
    duplicates. *)
Definition start_transfer (target_ip : option string) (disk : gmap string bytes)
    (selected_paths : list string) (hashes : gmap string (list DuplicateRecord))
    (askyesno : Z → bool) (st : sched) : sched :=
  match target_ip with
  | None | Some EmptyString => st
  | Some target_ip =>
      match _gather_files_for_send disk selected_paths with
      | None | Some ([], _) => st
      | Some (files, total_size) =>
          if _check_send_duplicates hashes askyesno files target_ip then st
          else
            _process_queue
              {| transfer_queue := transfer_queue st ++ [(target_ip, files, total_size)];
                 current_transfers := current_transfers st;
                 started := started st;
                 scheduled_checks := scheduled_checks st |}
      end
  end.

(** What happens on the main thread: the Start button is pressed, or a
    scheduled check runs. *)
Inductive event :=
| StartPressed (target_ip : option string) (disk : gmap string bytes)
    (selected_paths : list string) (hashes : gmap string (list DuplicateRecord))
    (askyesno : Z → bool)
| CheckRuns (is_alive : nat → bool).

Definition handle (st : sched) (ev : event) : sched :=
  match ev with
  | StartPressed target_ip disk selected_paths hashes askyesno =>
      start_transfer target_ip disk selected_paths hashes askyesno st
  | CheckRuns is_alive =>
      match scheduled_checks st with
      | O => st
      | S n =>
          _check_transfers is_alive
            {| transfer_queue := transfer_queue st;
               current_transfers := current_transfers st;
               started := started st;
               scheduled_checks := n |}
      end
  end.

End Scheduler.
End Scheduler.

(** ** The discovery broadcast of v2.1 *)

Module Broadcast.
Section Broadcast.
Context `{PyLib}.

(** [_broadcast_discovery]: the datagrams it hands to [sendto], each with
    its destination; three rounds over the one broadcast address. *)
Definition _broadcast_discovery (device_name : string) (discovery_port : Z)
    : list (bytes * (string * Z)) :=
  let message :=
    "GOODLUCK_DISCOVERY:" +:+ json_dumps (JDict [("name", JStr device_name)]%string) in
  let addresses := ["255.255.255.255"%string] in
  concat (replicate 3
    (map (λ addr, (utf8_encode message, (addr, discovery_port))) addresses)).

(** The listener of v2.1 run over the datagrams that arrive, in order. *)
Definition listen (local_ip device_name : string)
    (datagrams : list (bytes * (string * Z))) (st : Discovery.listener)
    : Discovery.listener :=
  foldl (λ st d, Discovery.udp_discovery_listener local_ip device_name d.1 d.2 st)
    st datagrams.

End Broadcast.
End Broadcast.

(** ** More sample inputs *)

Module MoreSamples.
Import RefLib Samples.

(** The two files of [two_files] with their digests as the library prints
    them, and a disk that holds them. *)
Definition true_files : list send_file :=
  [ {| sf_path := "/srv/a.txt"; sf_rel := "a.txt"; sf_size := 4;
       sf_sha256 := "0090b109" |};
    {| sf_path := "/srv/b.txt"; sf_rel := "b.txt"; sf_size := 2;
       sf_sha256 := "00002968" |} ].

Definition true_files_header : bytes :=
  default [] (Sender.encode_header true_files).

Definition sender_disk : gmap string bytes :=
  {[ "/srv/a.txt"%string := encode "abcd"; "/srv/b.txt"%string := encode "xy" ]}.

(** A disk that has lost the second file. *)
Definition disk_without_b : gmap string bytes :=
  {[ "/srv/a.txt"%string := encode "abcd" ]}.

Definition target : string := "192.168.1.30".
Definition today : string := "2024-05-01T10:00:00".

(** Two records of the same file name and digest, for two peers. *)
Definition sent_to_alice : DuplicateRecord :=
  {| dr_path := "/srv/a.txt"; dr_hash := "0090b109"; dr_peer := "192.168.1.30";
     dr_timestamp := "2024-05-01T10:00:00" |}.

Definition sent_to_bob : DuplicateRecord :=
  {| dr_path := "/tmp/a.txt"; dr_hash := "0090b109"; dr_peer := "192.168.1.20";
     dr_timestamp := "2024-05-02T10:00:00" |}.

Definition two_records : DuplicateManager.store :=
  {[ "0090b109_a.txt"%string := [sent_to_alice; sent_to_bob] ]}.

(** A key that is full: the oldest record is for Alice, the 999 after it
    are for Bob. *)
Definition full_key : DuplicateManager.store :=
  {[ "0090b109_a.txt"%string := sent_to_alice :: replicate 999 sent_to_bob ]}.

Definition one_record : history_record :=
  {| h_direction := Send; h_peer := "192.168.1.30"; h_files := JInt 1; h_size := 4;
     h_verified := None; h_status := StatusOK |}.

(** A sender that has sent half of a file and is back at the head of the
    [while] loop. *)
Definition sender_inside_file : Sender.send_state :=
  {| Sender.pc := Sender.WhileHead; Sender.pending := [];
     Sender.current := Some {| sf_path := "/srv/a.txt"; sf_rel := "a.txt";
                               sf_size := 4; sf_sha256 := "0090b109" |};
     Sender.unread := encode "cd"; Sender.wire := encode "ab";
     Sender.total_sent := 2; Sender.sock_open := true;
     Sender.sender_disk := sender_disk;
     Sender.sender_hashes := ∅; Sender.send_status := None |}.

Definition cancelled : Sender.flags :=
  {| Sender.transfer_cancelled := true; Sender.transfer_paused := false |}.

(** A receiver whose download directory already has [a.txt]. *)
Definition receiver_with_a (incoming : list recv_event) : app :=
  {| conn := incoming; connection_open := true;
     download_path := "/home/user/Downloads";
     disk := {[ "/home/user/Downloads/a.txt"%string := encode "old" ]};
     file_hashes := ∅; history := []; recv_log := [];
     is_listening := true; pause_flag := false;
     clock := "2024-05-01T10:00:00" |}.

Definition b_txt_entry : list (string * json) :=
  [("rel", JStr "b.txt"); ("size", JInt 2); ("sha256", JStr "00002968")]%string.

Definition always_no (name : string) : option bool := Some false.
Definition always_cancel (name : string) : option bool := None.

(** A scheduler with one transfer listed and one job waiting. *)
Definition one_waiting : Scheduler.sched :=
  {| Scheduler.transfer_queue := [("192.168.1.20"%string, true_files, 6)];
     Scheduler.current_transfers := [(0%nat, ("192.168.1.30"%string, true_files, 6))];
     Scheduler.started := [("192.168.1.30"%string, true_files, 6)];
     Scheduler.scheduled_checks := 1 |}.

Definition all_finished (thread : nat) : bool := false.

End MoreSamples.

(** * Properties *)

(** ** Slices *)

Lemma last_n_length {A} (n : nat) (l : list A) :
  length (last_n n l) = Nat.min n (length l).
Proof. unfold last_n. rewrite length_drop. lia. Qed.

Lemma last_n_suffix {A} (n : nat) (l : list A) :
  take (length l - n) l ++ last_n n l = l.
Proof. unfold last_n. apply take_drop. Qed.

Lemma last_n_all {A} (n : nat) (l : list A) :
  (length l ≤ n)%nat → last_n n l = l.
Proof.
  intros Hle. unfold last_n.
  replace (length l - n)%nat with 0%nat by lia. reflexivity.
Qed.

Lemma last_n_snoc_full {A} (n : nat) (oldest : A) (rest : list A) (x : A) :
  length (oldest :: rest) = n →
  last_n n ((oldest :: rest) ++ [x]) = rest ++ [x].
Proof.
  intros Hlen. unfold last_n. rewrite length_app. simpl in *.
  replace (S (length rest + 1) - n)%nat with 1%nat by lia. reflexivity.
Qed.

Lemma last_n_snoc {A} (n : nat) (l : list A) (x : A) :
  (0 < n)%nat → last_n n (l ++ [x]) = last_n (n - 1) l ++ [x].
Proof.
  intros Hn. unfold last_n. rewrite length_app. simpl.
  rewrite drop_app_le by lia. do 2 f_equal. lia.
Qed.

(** ** DuplicateManager *)

Section DuplicateManagerFacts.
Import DuplicateManager.

Lemma records_insert_eq (s : store) key l : records (<[key := l]> s) key = l.
Proof. unfold records. by rewrite lookup_insert_eq. Qed.

Lemma records_insert_ne (s : store) key key' l :
  key ≠ key' → records (<[key := l]> s) key' = records s key'.
Proof. intros Hne. unfold records. by rewrite lookup_insert_ne. Qed.

Lemma add_file_hash_records (s : store) path h peer now :
  records (add_file_hash s path h peer now) (key_of path h) =
  last_n 1000 (records s (key_of path h) ++
    [{| dr_path := path; dr_hash := h; dr_peer := peer; dr_timestamp := now |}]).
Proof.
  unfold add_file_hash.
  destruct (1000 <? _)%nat eqn:Hcap; rewrite records_insert_eq; [done |].
  apply Nat.ltb_ge in Hcap. by rewrite last_n_all.
Qed.

Lemma add_file_hash_other (s : store) path h peer now key :
  key ≠ key_of path h →
  records (add_file_hash s path h peer now) key = records s key.
Proof.
  intros Hne. unfold add_file_hash.
  destruct (1000 <? _)%nat; by rewrite records_insert_ne.
Qed.

Lemma capped_empty : capped ∅.
Proof. intros key. unfold records. rewrite lookup_empty. simpl. lia. Qed.

Lemma add_file_hash_capped (s : store) path h peer now :
  capped s → capped (add_file_hash s path h peer now).
Proof.
  intros Hcap key'. destruct (decide (key' = key_of path h)) as [-> | Hne].
  - rewrite add_file_hash_records, last_n_length. lia.
  - rewrite add_file_hash_other by done. apply Hcap.
Qed.

Lemma reachable_capped (s : store) : reachable s → capped s.
Proof.
  induction 1 as [| s path h peer now _ IH | s _ _].
  - apply capped_empty.
  - by apply add_file_hash_capped.
  - apply capped_empty.
Qed.

(** C5: after [add_file_hash] the key written holds at most 1000 records,
    namely the most recent 1000 of the old ones followed by the new one;
    no other key changes, so a store in which every key holds at most 1000
    records stays so, and so does every store built from the empty
    database; and when the key held exactly 1000 records the new list is
    the old one without its oldest record, followed by the new record. *)
Theorem add_file_hash_cap (s : store) (path h peer now : string) :
  let key := key_of path h in
  let entry := {| dr_path := path; dr_hash := h; dr_peer := peer;
                  dr_timestamp := now |} in
  let s' := add_file_hash s path h peer now in
  (length (records s' key) ≤ 1000)%nat ∧
  records s' key = last_n 1000 (records s key ++ [entry]) ∧
  (∀ key', key' ≠ key → records s' key' = records s key') ∧
  (capped s → capped s') ∧
  (reachable s → capped s') ∧
  (∀ oldest rest,
     records s key = oldest :: rest → length (oldest :: rest) = 1000%nat →
     records s' key = rest ++ [entry]).
Proof.
  intros key entry s'. subst s' key entry.
  assert (Hlen : (length (records (add_file_hash s path h peer now) (key_of path h))
                  ≤ 1000)%nat).
  { rewrite add_file_hash_records, last_n_length. lia. }
  split; [exact Hlen |].
  split; [apply add_file_hash_records |].
  split; [intros key' Hne; by apply add_file_hash_other |].
  split; [apply add_file_hash_capped |].
  split; [intros Hreach; by apply add_file_hash_capped, reachable_capped |].
  intros oldest rest Hrec Hfull.
  rewrite add_file_hash_records, Hrec. by apply last_n_snoc_full.
Qed.

Lemma find_match_found entries h peer e :
  e ∈ entries → dr_hash e = h → dr_peer e = peer →
  ∃ e', find_match entries h peer = (true, Some e') ∧
        e' ∈ entries ∧ dr_hash e' = h ∧ dr_peer e' = peer.
Proof.
  induction entries as [| x rest IH]; intros Hin Hh Hp.
  - by apply elem_of_nil in Hin.
  - simpl.
    destruct (String.eqb (dr_hash x) h && String.eqb (dr_peer x) peer) eqn:Hx.
    + apply andb_true_iff in Hx as [Hxh Hxp].
      apply String.eqb_eq in Hxh, Hxp.
      exists x. repeat split; try done. apply list_elem_of_here.
    + apply elem_of_cons in Hin as [-> | Hin].
      * rewrite Hh, Hp, !String.eqb_refl in Hx. discriminate.
      * destruct (IH Hin Hh Hp) as (e' & Hf & Hin' & Hh' & Hp').
        exists e'. repeat split; try done. by apply list_elem_of_further.
Qed.

Lemma find_match_none entries h peer :
  (∀ e, e ∈ entries → ¬ (dr_hash e = h ∧ dr_peer e = peer)) →
  find_match entries h peer = (false, None).
Proof.
  induction entries as [| x rest IH]; intros Hnone; [done |].
  simpl.
  destruct (String.eqb (dr_hash x) h && String.eqb (dr_peer x) peer) eqn:Hx.
  - apply andb_true_iff in Hx as [Hxh Hxp].
    apply String.eqb_eq in Hxh, Hxp.
    exfalso. apply (Hnone x); [apply list_elem_of_here | done].
  - apply IH. intros e Hin. apply Hnone. by apply list_elem_of_further.
Qed.


End DuplicateManagerFacts.

(** ** Transfer history *)

Lemma v3_add_history_last_n (history : list history_record) (record : history_record) :
  V3._add_history history record = last_n 2000 (history ++ [record]).
Proof.
  unfold V3._add_history.
  destruct (2000 <? _)%nat eqn:Hcap; [done |].
  apply Nat.ltb_ge in Hcap. by rewrite last_n_all.
Qed.

Lemma v3_add_history_last (history : list history_record) (record : history_record) :
  last (V3._add_history history record) = Some record.
Proof. rewrite v3_add_history_last_n, last_n_snoc by lia. apply last_snoc. Qed.

(** C10: [_add_history] of v3.0 leaves at most 2000 records, the most
    recent 2000 of the old ones followed by the new one: what it drops is a
    prefix, the oldest records, and the new record is kept.  This list is
    what is written to the history file. *)
Theorem add_history_cap (history : list history_record) (record : history_record) :
  let history' := V3._add_history history record in
  (length history' ≤ 2000)%nat ∧
  history' = last_n 2000 (history ++ [record]) ∧
  (∃ dropped, history ++ [record] = dropped ++ history' ∧
              length dropped = (length history + 1 - 2000)%nat) ∧
  last history' = Some record.
Proof.
  intros history'. subst history'.
  split; [rewrite v3_add_history_last_n, last_n_length; lia |].
  split; [apply v3_add_history_last_n |]. split.
  - exists (take (length (history ++ [record]) - 2000) (history ++ [record])).
    split; [by rewrite v3_add_history_last_n, last_n_suffix |].
    rewrite length_take, length_app. simpl. lia.
  - apply v3_add_history_last.
Qed.

(** ** Framing *)

Lemma Z_of_byte_of_Z (z : Z) : Z_of_byte (byte_of_Z z) = Z.land z 255.
Proof.
  unfold Z_of_byte, byte_of_Z.
  assert (Hrange : 0 ≤ Z.land z 255 < 256).
  { change 255 with (Z.ones 8). rewrite Z.land_ones by lia.
    apply Z.mod_pos_bound. lia. }
  pose proof (Byte.to_of_N_option_map (Z.to_N (Z.land z 255))) as Hmap.
  destruct (Byte.of_N (Z.to_N (Z.land z 255))) as [b |] eqn:Hb; simpl in *.
  - destruct (Z.to_N (Z.land z 255) <=? 255)%N; [| discriminate].
    injection Hmap as ->. lia.
  - destruct (Z.to_N (Z.land z 255) <=? 255)%N eqn:Hle; [discriminate |].
    apply N.leb_gt in Hle. lia.
Qed.

Lemma testbit_255 (i : Z) : 0 ≤ i → Z.testbit 255 i = (i <? 8).
Proof.
  intros Hi. change 255 with (Z.ones 8).
  destruct (i <? 8) eqn:Hlt.
  - apply Z.ltb_lt in Hlt. apply Z.ones_spec_low. lia.
  - apply Z.ltb_ge in Hlt. apply Z.ones_spec_high. lia.
Qed.

Lemma byte_bit (n shift k : Z) :
  0 ≤ k → 0 ≤ shift →
  Z.testbit (Z.shiftl (Z.land (Z.shiftr n shift) 255) shift) k =
  Z.testbit n k && (shift <=? k) && (k <? shift + 8).
Proof.
  intros Hk Hs. rewrite Z.shiftl_spec by lia.
  destruct (Z.leb_spec shift k) as [Hle | Hgt].
  - rewrite Z.land_spec, Z.shiftr_spec, testbit_255 by lia.
    replace (k - shift + shift) with k by lia.
    rewrite andb_true_r. f_equal.
    destruct (Z.ltb_spec (k - shift) 8), (Z.ltb_spec k (shift + 8)); lia || done.
  - rewrite Z.testbit_neg_r by lia. by rewrite andb_false_r.
Qed.

Lemma testbit_above (n k : Z) : 0 ≤ n < 2 ^ 32 → 32 ≤ k → Z.testbit n k = false.
Proof.
  intros Hn Hk. destruct (decide (n = 0)) as [-> | Hnz]; [apply Z.bits_0 |].
  apply Z.bits_above_log2; [lia |].
  assert (Z.log2 n < 32) by (apply Z.log2_lt_pow2; lia). lia.
Qed.

Lemma struct_unpack_pack (n : Z) (data : bytes) :
  struct_pack_I n = Some data → struct_unpack_I data = Some n ∧ length data = 4%nat.
Proof.
  unfold struct_pack_I.
  destruct ((0 <=? n) && (n <? 2 ^ 32)) eqn:Hrange; [| discriminate].
  apply andb_true_iff in Hrange as [Hlo Hhi].
  apply Z.leb_le in Hlo. apply Z.ltb_lt in Hhi.
  intros [= <-]. split; [| reflexivity].
  unfold struct_unpack_I. f_equal. rewrite !Z_of_byte_of_Z.
  apply Z.bits_inj'. intros k Hk.
  rewrite !Z.lor_spec, !byte_bit by lia.
  rewrite Z.land_spec, testbit_255 by lia.
  destruct (Z.lt_ge_cases k 32) as [H32 | H32].
  - destruct (Z.testbit n k); [| done]. simpl.
    destruct (Z.leb_spec 24 k), (Z.leb_spec 16 k), (Z.leb_spec 8 k),
      (Z.ltb_spec k (24 + 8)), (Z.ltb_spec k (16 + 8)), (Z.ltb_spec k (8 + 8)),
      (Z.ltb_spec k 8); simpl; lia || done.
  - rewrite (testbit_above n k) by lia. done.
Qed.

(** ** Connections *)

Lemma recv_budget (conn : list recv_event) (bufsize : Z) r conn' :
  1 ≤ bufsize → recv conn bufsize = (r, conn') →
  r = Received [] ∨ (conn_budget conn' < conn_budget conn)%nat.
Proof.
  intros Hbuf. destruct conn as [| [data | |] rest]; simpl.
  - intros [= <- <-]. by left.
  - destruct data as [| b data]; [intros [= <- <-]; by left |].
    destruct (len (b :: data) <=? bufsize) eqn:Hfit; intros [= <- <-]; right; simpl.
    + lia.
    + rewrite length_drop. simpl. lia.
  - intros [= <- <-]. right. lia.
  - intros [= <- <-]. right. lia.
Qed.

(** A [recv] on a connection that still delivers bytes returns a non-empty
    chunk of them, within the buffer size. *)
Lemma recv_data (conn : list recv_event) (bufsize : Z) :
  1 ≤ bufsize → delivered conn ≠ [] →
  ∃ b chunk conn',
    recv conn bufsize = (Received (b :: chunk), conn') ∧
    len (b :: chunk) ≤ bufsize ∧
    delivered conn = (b :: chunk) ++ delivered conn' ∧
    (conn_budget conn' < conn_budget conn)%nat.
Proof.
  intros Hbuf Hdel. destruct conn as [| [data | |] rest]; simpl in *; try done.
  destruct data as [| b data]; [done |].
  destruct (len (b :: data) <=? bufsize) eqn:Hfit.
  - apply Z.leb_le in Hfit. exists b, data, rest. repeat split; try done. lia.
  - apply Z.leb_gt in Hfit. unfold len in Hfit. simpl in Hfit.
    destruct (Z.to_nat bufsize) as [| n] eqn:Hn; [lia |].
    simpl. exists b, (take n data), (Packet (drop n data) :: rest).
    repeat split.
    + unfold len. simpl. rewrite length_take. lia.
    + simpl. destruct (drop n data) as [| d ds] eqn:Hdrop.
      * apply (f_equal length) in Hdrop. rewrite length_drop in Hdrop. simpl in Hdrop. lia.
      * rewrite <- Hdrop. rewrite app_assoc, take_drop. done.
    + simpl. rewrite length_drop. lia.
Qed.

Lemma app_prefix_split {A} (chunk rest wanted tail : list A) :
  chunk ++ rest = wanted ++ tail → (length chunk ≤ length wanted)%nat →
  ∃ wanted', wanted = chunk ++ wanted' ∧ rest = wanted' ++ tail.
Proof.
  revert wanted. induction chunk as [| c chunk IH]; intros wanted Heq Hlen.
  - exists wanted. done.
  - destruct wanted as [| w wanted]; simpl in *; [lia |].
    injection Heq as -> Heq.
    destruct (IH wanted Heq ltac:(lia)) as (wanted' & -> & ->).
    by exists wanted'.
Qed.

(** ** State updates *)

Lemma set_conn_id (s : app) : set_conn (conn s) s = s.
Proof. by destruct s. Qed.

(** ** Loops come to an end *)

Lemma total_ret {A} (a : A) : total (mret a).
Proof. by intros s. Qed.

Lemma total_raise {A} e : total (raise e : M app A).
Proof. by intros s. Qed.

Lemma total_get : total (get : M app app).
Proof. by intros s. Qed.

Lemma total_modify f : total (modify f : M app unit).
Proof. by intros s. Qed.

Lemma total_bind {A B} (m : M app A) (k : A → M app B) :
  total m → (∀ a, total (k a)) → total (m ≫= k).
Proof.
  intros Hm Hk s. unfold mbind, M_bind, bind.
  specialize (Hm s). destruct (m s) as [[a | e |] s']; simpl in *; try done.
  apply Hk.
Qed.

Lemma total_try_except {A} (m : M app A) handler :
  total m → (∀ e, total (handler e)) → total (try_except m handler).
Proof.
  intros Hm Hh s. unfold try_except.
  specialize (Hm s). destruct (m s) as [[a | e |] s']; simpl in *; try done.
  apply Hh.
Qed.

Lemma total_lift_opt {A} (o : option A) e : total (lift_opt o e).
Proof. destruct o; [apply total_ret | apply total_raise]. Qed.

Tactic Notation "total_bind" "as" simple_intropattern(x) :=
  apply total_bind; [| intros x].

Ltac total_if :=
  match goal with |- total (if ?c then _ else _) => destruct c end.

Ltac total_step :=
  first [ apply total_bind; [| intros ?]
        | apply total_try_except; [| intros ?]
        | apply total_ret | apply total_raise | apply total_get
        | apply total_modify | apply total_lift_opt ].

Lemma recv_file_loop_total (limit : Z) (fuel : nat) path size hash_obj received loc (s : app) :
  1 ≤ limit → (conn_budget (conn s) < fuel)%nat →
  fst (recv_file_loop limit fuel path size hash_obj received loc s) ≠ OutOfFuel.
Proof.
  intros Hlimit. revert hash_obj received loc s.
  induction fuel as [| fuel IH]; intros hash_obj received loc s Hfuel; [lia |].
  simpl. destruct (received <? size) eqn:Hmore; [| done].
  apply Z.ltb_lt in Hmore.
  destruct (recv (conn s) (Z.min limit (size - received))) as [r c'] eqn:Hrecv.
  apply recv_budget in Hrecv as Hb; [| lia].
  destruct r as [[| b chunk] | |]; try done.
  apply IH. destruct Hb as [? | Hb]; [done |]. simpl. lia.
Qed.

Lemma v3_receive_all_loop_total (fuel : nat) n data (s : app) :
  (conn_budget (conn s) < fuel)%nat →
  fst (V3.receive_all_loop fuel n data s) ≠ OutOfFuel.
Proof.
  revert data s. induction fuel as [| fuel IH]; intros data s Hfuel; [lia |].
  simpl. destruct (len data <? n) eqn:Hmore; [| done].
  apply Z.ltb_lt in Hmore.
  destruct (recv (conn s) (n - len data)) as [r c'] eqn:Hrecv.
  apply recv_budget in Hrecv as Hb; [| lia].
  destruct r as [[| b chunk] | |]; try done.
  - apply IH. destruct Hb as [? | Hb]; [done |]. simpl. lia.
  - apply IH. destruct Hb as [? | Hb]; [done |]. simpl. lia.
Qed.

Lemma v21_receive_all_loop_total (fuel : nat) n data (s : app) :
  (conn_budget (conn s) < fuel)%nat →
  fst (V21.receive_all_loop fuel n data s) ≠ OutOfFuel.
Proof.
  revert data s. induction fuel as [| fuel IH]; intros data s Hfuel; [lia |].
  simpl. destruct (len data <? n) eqn:Hmore; [| done].
  apply Z.ltb_lt in Hmore.
  destruct (recv (conn s) (n - len data)) as [r c'] eqn:Hrecv.
  apply recv_budget in Hrecv as Hb; [| lia].
  destruct r as [[| b chunk] | |]; try done.
  apply IH. destruct Hb as [? | Hb]; [done |]. simpl. lia.
Qed.

Section Totality.
Context `{PyLib}.

Lemma append_recv_log_total line : total (append_recv_log line).
Proof. apply total_modify. Qed.

Lemma as_dict_total v : total (as_dict v).
Proof. destruct v; total_step. Qed.

Lemma as_str_total v : total (as_str v).
Proof. destruct v; total_step. Qed.

Lemma py_len_total v : total (py_len v).
Proof. destruct v; total_step. Qed.

Lemma py_iter_total v : total (py_iter v).
Proof. destruct v; total_step. Qed.

Lemma sum_sizes_total files acc : total (sum_sizes files acc).
Proof.
  revert acc. induction files as [| f files IH]; intros acc; simpl.
  - total_step.
  - total_step; [apply as_dict_total |]. total_step; [total_step |]. apply IH.
Qed.

Lemma verify_file_total peer rel path expected hash_obj loc :
  total (verify_file peer rel path expected hash_obj loc).
Proof.
  unfold verify_file. total_bind as matched.
  - destruct (truthy expected); [| total_step]. destruct expected; total_step.
  - destruct matched; repeat total_step.
Qed.

Lemma check_duplicate_total peer rel path expected :
  total (check_duplicate peer rel path expected).
Proof.
  unfold check_duplicate. total_step; [total_step |].
  destruct expected; try total_step.
  match goal with |- total (if ?c then _ else _) => destruct c end; total_step.
Qed.

Lemma receive_file_total limit path size loc :
  1 ≤ limit → total (receive_file limit path size loc).
Proof. intros Hlimit s. apply recv_file_loop_total; [done | lia]. Qed.

Lemma v3_receive_all_total n : total (V3._receive_all n).
Proof. intros s. apply v3_receive_all_loop_total. lia. Qed.

Lemma v21_receive_all_total n : total (V21._receive_all n).
Proof. intros s. apply v21_receive_all_loop_total. lia. Qed.

Lemma receive_and_verify_total limit peer rel path size expected loc :
  1 ≤ limit → total (receive_and_verify limit peer rel path size expected loc).
Proof.
  intros Hlimit. unfold receive_and_verify.
  total_bind as u1; [apply check_duplicate_total |].
  total_bind as file_size; [total_step |].
  total_bind as u2; [total_step |].
  total_bind as u3; [total_step |].
  total_bind as [hash_obj loc']; [by apply receive_file_total |].
  apply verify_file_total.
Qed.

Lemma v3_process_file_total peer policy file_info loc :
  total (V3.process_file peer policy file_info loc).
Proof.
  unfold V3.process_file.
  total_bind as kvs; [apply as_dict_total |].
  total_bind as rel; [apply as_str_total |].
  total_bind as s; [total_step |].
  total_if; [repeat total_step |].
  total_bind as loc'; [by apply receive_and_verify_total |]. total_step.
Qed.

Lemma v3_for_files_total peer files loc : total (V3.for_files peer files loc).
Proof.
  revert loc. induction files as [| f files IH]; intros loc; simpl.
  - total_step.
  - total_bind as loc'; [apply v3_process_file_total | apply IH].
Qed.

Lemma v3_read_metadata_total : total V3.read_metadata.
Proof.
  unfold V3.read_metadata.
  total_bind as header; [apply v3_receive_all_total |].
  total_bind as header'; [total_step |].
  total_bind as n; [total_step |].
  total_if; [total_step |].
  total_bind as body; [apply v3_receive_all_total |].
  destruct body as [[| b data] |]; try total_step.
  all: total_step.
Qed.

(** A receive session of v3.0 always comes to an end. *)
Lemma v3_handle_incoming_transfer_total peer :
  total (V3._handle_incoming_transfer peer).
Proof.
  unfold V3._handle_incoming_transfer, V3.session_body, V3.add_history.
  total_bind as u; [| total_step].
  apply total_try_except; [| intros e; repeat total_step].
  total_bind as u1; [total_step |].
  total_bind as metadata; [apply v3_read_metadata_total |].
  total_bind as kvs; [apply as_dict_total |].
  total_bind as n; [apply py_len_total |].
  total_bind as files; [apply py_iter_total |].
  total_bind as total_size; [apply sum_sizes_total |].
  total_bind as u2; [total_step |].
  total_bind as loc; [apply v3_for_files_total |].
  total_bind as s; [total_step |].
  total_if; repeat total_step.
Qed.

Lemma v21_process_file_total ask peer overwrite_all file_info loc :
  total (V21.process_file ask peer overwrite_all file_info loc).
Proof.
  unfold V21.process_file.
  total_bind as kvs; [apply as_dict_total |].
  total_bind as rel; [apply as_str_total |].
  total_bind as s; [total_step |].
  set (path := Path_str (V21.save_path (download_path s) rel)).
  assert (Hreceive : ∀ ow, total (
    if path_exists path s && negb (default false ow)
    then append_recv_log (LogSkipped rel);; mret (Next, ow, loc)
    else
      loc ← receive_and_verify (128 * 1024) peer rel path
               (dict_get_default kvs "size" (JInt 0)) (dict_get_none kvs "sha256") loc;
      mret (Next, ow, loc))).
  { intros ow. total_if; [repeat total_step |].
    total_bind as loc'; [by apply receive_and_verify_total |]. total_step. }
  total_if.
  - destruct (ask rel) as [[|] |]; [apply Hreceive | repeat total_step ..].
  - apply Hreceive.
Qed.

Lemma v21_for_files_total ask peer overwrite_all files loc :
  total (V21.for_files ask peer overwrite_all files loc).
Proof.
  revert overwrite_all loc.
  induction files as [| f files IH]; intros overwrite_all loc; simpl.
  - total_step.
  - total_bind as [[fl ow] loc']; [apply v21_process_file_total |].
    destruct fl; [apply IH | total_step].
Qed.

Lemma v21_read_metadata_total : total V21.read_metadata.
Proof.
  unfold V21.read_metadata.
  total_bind as header; [apply v21_receive_all_total |].
  total_bind as header'; [total_step |].
  total_bind as n; [total_step |].
  total_bind as body; [apply v21_receive_all_total |].
  repeat total_step.
Qed.

(** A receive session of v2.1 always comes to an end. *)
Lemma v21_handle_incoming_transfer_total ask peer :
  total (V21._handle_incoming_transfer ask peer).
Proof.
  unfold V21._handle_incoming_transfer, V21.session_body, V21.add_history.
  total_bind as u; [| total_step].
  apply total_try_except; [| intros e; repeat total_step].
  total_bind as metadata; [apply v21_read_metadata_total |].
  total_bind as kvs; [apply as_dict_total |].
  total_bind as n; [apply py_len_total |].
  total_bind as files; [apply py_iter_total |].
  total_bind as total_size; [apply sum_sizes_total |].
  total_bind as u2; [total_step |].
  total_bind as loc; [apply v21_for_files_total |].
  total_bind as s; [total_step |].
  total_if; repeat total_step.
Qed.

End Totality.

(** ** Reading what the connection delivers *)

Section Delivery.
Context `{PyLib}.

(** [_receive_all] of v2.1 returns the next [num_bytes] bytes that the
    connection delivers, however they are split into packets. *)
Lemma v21_receive_all_loop_delivers (fuel : nat) (num_bytes : Z)
    (data wanted tail : bytes) (s : app) :
  delivered (conn s) = wanted ++ tail →
  len data + len wanted = num_bytes →
  (conn_budget (conn s) < fuel)%nat →
  ∃ c', V21.receive_all_loop fuel num_bytes data s =
          (Ok (Some (data ++ wanted)), set_conn c' s) ∧
        delivered c' = tail.
Proof.
  revert data wanted s.
  induction fuel as [| fuel IH]; intros data wanted s Hdel Hlen Hfuel; [lia |].
  simpl. destruct (len data <? num_bytes) eqn:Hmore.
  - apply Z.ltb_lt in Hmore.
    destruct (recv_data (conn s) (num_bytes - len data)) as
      (b & chunk & c' & Hrecv & Hsize & Hsplit & Hbudget); [lia | |].
    { rewrite Hdel. destruct wanted; [unfold len in *; simpl in *; lia | done]. }
    rewrite Hrecv. rewrite Hdel in Hsplit. symmetry in Hsplit.
    apply app_prefix_split in Hsplit as (wanted' & -> & Hrest);
      [| unfold len in *; lia].
    destruct (IH (data ++ b :: chunk) wanted' (set_conn c' s)) as (c'' & Hrun & Htail).
    + done.
    + unfold len in *. rewrite !length_app in *. lia.
    + simpl. lia.
    + exists c''. rewrite Hrun. by rewrite <- app_assoc.
  - apply Z.ltb_ge in Hmore.
    destruct wanted; [| unfold len in *; simpl in *; lia].
    exists (conn s). rewrite set_conn_id, app_nil_r. done.
Qed.

Lemma v21_receive_all_delivers (num_bytes : Z) (wanted tail : bytes) (s : app) :
  delivered (conn s) = wanted ++ tail → len wanted = num_bytes →
  ∃ c', V21._receive_all num_bytes s = (Ok (Some wanted), set_conn c' s) ∧
        delivered c' = tail.
Proof.
  intros Hdel Hlen. unfold V21._receive_all.
  apply (v21_receive_all_loop_delivers _ _ [] wanted tail s); [done | | lia].
  unfold len in *. simpl. lia.
Qed.

(** The same for [_receive_all] of v3.0. *)
Lemma v3_receive_all_loop_delivers (fuel : nat) (num_bytes : Z)
    (data wanted tail : bytes) (s : app) :
  delivered (conn s) = wanted ++ tail →
  len data + len wanted = num_bytes →
  (conn_budget (conn s) < fuel)%nat →
  ∃ c', V3.receive_all_loop fuel num_bytes data s =
          (Ok (Some (data ++ wanted)), set_conn c' s) ∧
        delivered c' = tail.
Proof.
  revert data wanted s.
  induction fuel as [| fuel IH]; intros data wanted s Hdel Hlen Hfuel; [lia |].
  simpl. destruct (len data <? num_bytes) eqn:Hmore.
  - apply Z.ltb_lt in Hmore.
    destruct (recv_data (conn s) (num_bytes - len data)) as
      (b & chunk & c' & Hrecv & Hsize & Hsplit & Hbudget); [lia | |].
    { rewrite Hdel. destruct wanted; [unfold len in *; simpl in *; lia | done]. }
    rewrite Hrecv. rewrite Hdel in Hsplit. symmetry in Hsplit.
    apply app_prefix_split in Hsplit as (wanted' & -> & Hrest);
      [| unfold len in *; lia].
    destruct (IH (data ++ b :: chunk) wanted' (set_conn c' s)) as (c'' & Hrun & Htail).
    + done.
    + unfold len in *. rewrite !length_app in *. lia.
    + simpl. lia.
    + exists c''. rewrite Hrun. by rewrite <- app_assoc.
  - apply Z.ltb_ge in Hmore.
    destruct wanted; [| unfold len in *; simpl in *; lia].
    exists (conn s). rewrite set_conn_id, app_nil_r. done.
Qed.

Lemma v3_receive_all_delivers (num_bytes : Z) (wanted tail : bytes) (s : app) :
  delivered (conn s) = wanted ++ tail → len wanted = num_bytes →
  ∃ c', V3._receive_all num_bytes s = (Ok (Some wanted), set_conn c' s) ∧
        delivered c' = tail.
Proof.
  intros Hdel Hlen. unfold V3._receive_all.
  apply (v3_receive_all_loop_delivers _ _ [] wanted tail s); [done | | lia].
  unfold len in *. simpl. lia.
Qed.

(** C4: the header that [_perform_send] writes for a list of files is
    four bytes that hold the length of the metadata, most significant byte
    first, followed by the metadata.  Read back by the receiver from a
    connection that delivers it in packets of any sizes, it decodes to the
    value that was encoded: [file_count] is the number of files and
    [files] lists the [rel], [size] and [sha256] of each file in the order
    of the sender's list.  The bytes after the header stay unread.  The
    JSON and UTF-8 codecs of the library are taken to give back what they
    were given. *)
Theorem manifest_roundtrip (files : list send_file) (header tail : bytes) (s : app) :
  utf8_decode (utf8_encode (json_dumps (Sender.metadata_of files))) =
    Some (json_dumps (Sender.metadata_of files)) →
  json_loads (json_dumps (Sender.metadata_of files)) = Some (Sender.metadata_of files) →
  Sender.encode_header files = Some header →
  delivered (conn s) = header ++ tail →
  ∃ c',
    (∃ packed,
       header = packed ++ utf8_encode (json_dumps (Sender.metadata_of files)) ∧
       length packed = 4%nat ∧
       struct_unpack_I packed =
         Some (len (utf8_encode (json_dumps (Sender.metadata_of files))))) ∧
    V21.read_metadata s = (Ok (Sender.metadata_of files), set_conn c' s) ∧
    delivered c' = tail ∧
    (∃ metadata,
       Sender.metadata_of files = JDict metadata ∧
       dict_get_default metadata "files" (JList []) =
         JList (map Sender.manifest_entry files) ∧
       dict_get_default metadata "file_count" (JInt 0) = JInt (len files)) ∧
    Forall2 (λ f entry, ∃ kvs, entry = JDict kvs ∧
               dict_get_none kvs "rel" = JStr (sf_rel f) ∧
               dict_get_default kvs "size" (JInt 0) = JInt (sf_size f) ∧
               dict_get_none kvs "sha256" = JStr (sf_sha256 f))
      files (map Sender.manifest_entry files).
Proof.
  intros Hutf8 Hjson Henc Hdel.
  unfold Sender.encode_header in Henc.
  set (metadata_bytes := utf8_encode (json_dumps (Sender.metadata_of files))) in *.
  destruct (struct_pack_I (len metadata_bytes)) as [packed |] eqn:Hpack;
    [| discriminate].
  simpl in Henc. injection Henc as <-.
  apply struct_unpack_pack in Hpack as [Hunpack Hfour].
  destruct (v21_receive_all_delivers 4 packed (metadata_bytes ++ tail) s)
    as (c1 & Hrun1 & Hdel1).
  { by rewrite Hdel, <- app_assoc. }
  { unfold len. lia. }
  destruct (v21_receive_all_delivers (len metadata_bytes) metadata_bytes tail
              (set_conn c1 s)) as (c2 & Hrun2 & Hdel2); [done | done |].
  exists c2. split; [by exists packed |]. split; [| split; [done | split]].
  - unfold V21.read_metadata, mbind, M_bind, bind.
    rewrite Hrun1. simpl. rewrite Hunpack. simpl.
    rewrite Hrun2. simpl. fold metadata_bytes. rewrite Hutf8. simpl.
    rewrite Hjson. done.
  - eexists. split; [reflexivity |]. done.
  - apply Forall2_fmap_r, Forall_Forall2_diag, Forall_forall.
    intros f _. eexists. split; [reflexivity |]. done.
Qed.

End Delivery.

(** ** Receiving and verifying a file *)

Section Verification.
Context `{PyLib}.

(** On a connection that delivers the bytes of the file, the receive loop
    reads exactly those, writes them to the file and feeds them to the
    digest. *)
Lemma recv_file_loop_complete (limit : Z) (fuel : nat) (path : string) (size : Z)
    (hash_obj content tail : bytes) (received : Z) (loc : locals) (s : app) :
  1 ≤ limit →
  delivered (conn s) = content ++ tail →
  received = len hash_obj → received + len content = size →
  (conn_budget (conn s) < fuel)%nat →
  disk s !! path = Some hash_obj →
  ∃ c',
    recv_file_loop limit fuel path size hash_obj received loc s =
      (Ok (hash_obj ++ content,
           {| verified_count := verified_count loc;
              bytes_completed := bytes_completed loc + len content;
              files_completed := files_completed loc |}),
       set_disk (<[path := hash_obj ++ content]> (disk s)) (set_conn c' s)) ∧
    delivered c' = tail.
Proof.
  intros Hlimit. revert hash_obj content received loc s.
  induction fuel as [| fuel IH];
    intros hash_obj content received loc s Hdel Hrecd Hsize Hfuel Hdisk; [lia |].
  simpl. destruct (received <? size) eqn:Hmore.
  - apply Z.ltb_lt in Hmore.
    destruct (recv_data (conn s) (Z.min limit (size - received))) as
      (b & chunk & c' & Hrecv & Hfit & Hsplit & Hbudget); [lia | |].
    { rewrite Hdel. destruct content; [unfold len in *; simpl in *; lia | done]. }
    rewrite Hrecv. rewrite Hdel in Hsplit. symmetry in Hsplit.
    apply app_prefix_split in Hsplit as (content' & -> & Hrest);
      [| unfold len in *; lia].
    edestruct (IH (hash_obj ++ b :: chunk) content' (received + len (b :: chunk))
                 {| verified_count := verified_count loc;
                    bytes_completed := bytes_completed loc + len (b :: chunk);
                    files_completed := files_completed loc |}
                 (write_chunk path (b :: chunk) (set_conn c' s)))
      as (c'' & Hrun & Htail).
    + done.
    + unfold len in *. rewrite length_app. lia.
    + unfold len in *. rewrite length_app in Hsize. lia.
    + simpl. lia.
    + simpl. rewrite Hdisk. simpl. by rewrite lookup_insert_eq.
    + exists c''. rewrite Hrun. split; [| done].
      simpl. rewrite Hdisk. simpl. rewrite insert_insert_eq.
      unfold set_disk, set_conn. simpl.
      rewrite <- !app_assoc. simpl. do 3 f_equal.
      f_equal. unfold len. simpl. rewrite length_app. lia.
  - apply Z.ltb_ge in Hmore.
    destruct content; [| unfold len in *; simpl in *; lia].
    exists (conn s). split; [| done].
    rewrite app_nil_r, insert_id by done.
    destruct s, loc. unfold set_disk, set_conn, len. simpl.
    by rewrite Z.add_0_r.
Qed.

Lemma check_duplicate_run peer rel path expected (s : app) :
  ∃ lg, check_duplicate peer rel path expected s = (Ok tt, set_recv_log lg s).
Proof.
  unfold check_duplicate, mbind, M_bind, bind, get.
  assert (Hsame : (Ok tt, s) = (Ok tt, set_recv_log (recv_log s) s)) by by destruct s.
  destruct expected; try (by exists (recv_log s)).
  match goal with |- context [if ?c then _ else _] => destruct c end.
  - eexists. reflexivity.
  - by exists (recv_log s).
Qed.

Lemma receive_and_verify_complete (limit : Z) (peer rel path expected : string)
    (content tail : bytes) (loc : locals) (s : app) :
  1 ≤ limit →
  delivered (conn s) = content ++ tail →
  ∃ loc' s',
    receive_and_verify limit peer rel path (JInt (len content)) (JStr expected) loc s
      = (Ok loc', s') ∧
    disk s' = <[path := content]> (disk s) ∧
    delivered (conn s') = tail ∧
    download_path s' = download_path s ∧
    is_listening s' = is_listening s ∧
    history s' = history s ∧
    bytes_completed loc' = bytes_completed loc + len content ∧
    files_completed loc' = files_completed loc ∧
    if digest_matches content expected then
      verified_count loc' = verified_count loc + 1 ∧
      file_hashes s' =
        DuplicateManager.add_file_hash (file_hashes s) path
          (sha256_hexdigest content) peer (clock s)
    else
      verified_count loc' = verified_count loc ∧
      file_hashes s' = file_hashes s.
Proof.
  intros Hlimit Hdel.
  unfold receive_and_verify, mbind, M_bind, bind.
  destruct (check_duplicate_run peer rel path (JStr expected) s) as [lg ->].
  simpl lift_opt. unfold ret at 1.
  unfold append_recv_log, open_wb, modify at 1 2. cbv beta.
  set (s3 := set_disk _ _).
  unfold receive_file.
  destruct (recv_file_loop_complete limit (S (conn_budget (conn s3))) path
              (len content) [] content tail 0 loc s3) as (c' & Hrun & Htail).
  { done. } { done. } { done. } { lia. } { lia. }
  { subst s3. simpl. by rewrite lookup_insert_eq. }
  rewrite Hrun. rewrite app_nil_l.
  unfold verify_file, digest_matches, mbind, M_bind, bind.
  cbn [truthy].
  destruct (String.eqb expected "") eqn:Hempty; cbn [negb andb].
  - unfold mret, M_ret, ret, append_recv_log, modify.
    eexists _, _. split; [reflexivity |]. simpl.
    rewrite insert_insert_eq. done.
  - unfold mret, M_ret, ret.
    destruct (String.eqb (lower (sha256_hexdigest content)) (lower expected));
      unfold append_recv_log, modify;
      (eexists _, _; split; [reflexivity |]); simpl;
      rewrite insert_insert_eq; done.
Qed.

End Verification.

Section FileVerification.
Context `{PyLib}.

Lemma py_or_name (kvs : list (string * json)) (rel : string) (fallback : json) :
  dict_get kvs "rel" = Some (JStr rel) → rel ≠ "" →
  py_or (dict_get_none kvs "rel") fallback = JStr rel.
Proof.
  intros Hrel Hne. unfold py_or, dict_get_none, dict_get_default. rewrite Hrel.
  simpl. apply String.eqb_neq in Hne. by rewrite Hne.
Qed.

Lemma v3_process_file_complete (peer : string) (kvs : list (string * json))
    (rel expected : string) (content tail : bytes) (loc : locals) (s : app) :
  dict_get kvs "rel" = Some (JStr rel) → rel ≠ "" →
  dict_get kvs "size" = Some (JInt (len content)) →
  dict_get kvs "sha256" = Some (JStr expected) →
  delivered (conn s) = content ++ tail →
  let path := Path_str (V3.save_path (download_path s) rel) in
  ∃ loc' s',
    V3.process_file peer None (JDict kvs) loc s = (Ok loc', s') ∧
    disk s' !! path = Some content ∧
    delivered (conn s') = tail ∧
    (if digest_matches content expected then
       verified_count loc' = verified_count loc + 1 ∧
       file_hashes s' =
         DuplicateManager.add_file_hash (file_hashes s) path
           (sha256_hexdigest content) peer (clock s)
     else
       verified_count loc' = verified_count loc ∧
       file_hashes s' = file_hashes s) ∧
    ∀ rest, V3.for_files peer (JDict kvs :: rest) loc s =
            V3.for_files peer rest loc' s'.
Proof.
  intros Hrel Hne Hsize Hsha Hdel path.
  assert (Hrun : ∃ loc' s',
    V3.process_file peer None (JDict kvs) loc s = (Ok loc', s') ∧
    disk s' !! path = Some content ∧
    delivered (conn s') = tail ∧
    (if digest_matches content expected then
       verified_count loc' = verified_count loc + 1 ∧
       file_hashes s' =
         DuplicateManager.add_file_hash (file_hashes s) path
           (sha256_hexdigest content) peer (clock s)
     else
       verified_count loc' = verified_count loc ∧
       file_hashes s' = file_hashes s)).
  { unfold V3.process_file, mbind, M_bind, bind. simpl as_dict. unfold mret, M_ret, ret.
    rewrite (py_or_name kvs rel) by done. simpl as_str. unfold mret, M_ret, ret, get.
    rewrite bool_decide_eq_false_2, andb_false_r by done.
    unfold dict_get_default, dict_get_none. rewrite Hsize. unfold dict_get_default.
    rewrite Hsha. fold path.
    destruct (receive_and_verify_complete V3.CHUNK_SIZE peer rel path expected
                content tail loc s) as
      (loc' & s' & -> & Hdisk & Hconn & _ & _ & _ & _ & _ & Hverdict);
      [done | done |].
    eexists _, _. split; [reflexivity |]. rewrite Hdisk, lookup_insert_eq.
    repeat split; done. }
  destruct Hrun as (loc' & s' & Hrun & Hrest).
  exists loc', s'. split; [done |].
  destruct Hrest as (? & ? & ?). repeat split; try done.
  intros rest. simpl. unfold mbind at 1, M_bind, bind. by rewrite Hrun.
Qed.

Lemma v21_process_file_complete (ask : string → option bool) (peer : string)
    (overwrite_all : option bool) (kvs : list (string * json))
    (rel expected : string) (content tail : bytes) (loc : locals) (s : app) :
  dict_get kvs "rel" = Some (JStr rel) → rel ≠ "" →
  dict_get kvs "size" = Some (JInt (len content)) →
  dict_get kvs "sha256" = Some (JStr expected) →
  delivered (conn s) = content ++ tail →
  let path := Path_str (V21.save_path (download_path s) rel) in
  path_exists path s = false ∨ overwrite_all = Some true ∨
    (overwrite_all = None ∧ ask rel = Some true) →
  ∃ overwrite_all' loc' s',
    V21.process_file ask peer overwrite_all (JDict kvs) loc s =
      (Ok (Next, overwrite_all', loc'), s') ∧
    disk s' !! path = Some content ∧
    delivered (conn s') = tail ∧
    (if digest_matches content expected then
       verified_count loc' = verified_count loc + 1 ∧
       file_hashes s' =
         DuplicateManager.add_file_hash (file_hashes s) path
           (sha256_hexdigest content) peer (clock s)
     else
       verified_count loc' = verified_count loc ∧
       file_hashes s' = file_hashes s) ∧
    ∀ rest, V21.for_files ask peer overwrite_all (JDict kvs :: rest) loc s =
            V21.for_files ask peer overwrite_all' rest loc' s'.
Proof.
  intros Hrel Hne Hsize Hsha Hdel path Hreceived.
  destruct (receive_and_verify_complete (128 * 1024) peer rel path expected
              content tail loc s) as
    (loc' & s' & Hrv & Hdisk & Hconn & _ & _ & _ & _ & _ & Hverdict);
    [done | done |].
  assert (Hrun : ∃ overwrite_all',
    V21.process_file ask peer overwrite_all (JDict kvs) loc s =
      (Ok (Next, overwrite_all', loc'), s')).
  { unfold V21.process_file, mbind, M_bind, bind. simpl as_dict.
    unfold mret, M_ret, ret.
    rewrite (py_or_name kvs rel) by done. simpl as_str. unfold mret, M_ret, ret, get.
    fold path.
    assert (Hgo : ∀ ow : option bool,
      ((done ← receive_and_verify (128 * 1024) peer rel path
                 (dict_get_default kvs "size" (JInt 0)) (dict_get_none kvs "sha256") loc;
        mret (Next, ow, done)) : M app (flow * option bool * locals)) s
      = (Ok (Next, ow, loc'), s')).
    { intros ow. unfold dict_get_default, dict_get_none, mbind, M_bind, bind.
      rewrite Hsize. unfold dict_get_default. by rewrite Hsha, Hrv. }
    unfold mbind, M_bind, bind, mret, M_ret, ret in Hgo.
    destruct Hreceived as [Hfresh | [-> | [-> Hyes]]].
    - rewrite Hfresh. cbn [andb]. rewrite Hgo. by eexists.
    - rewrite (bool_decide_eq_false_2 (Some true = None)), andb_false_r by done.
      cbn [default negb]. rewrite andb_false_r, Hgo. by eexists.
    - rewrite bool_decide_eq_true_2, andb_true_r by done.
      destruct (path_exists path s); cbn [andb].
      + rewrite Hyes. cbn [default negb andb id]. rewrite Hgo. by eexists.
      + rewrite Hgo. by eexists. }
  destruct Hrun as (overwrite_all' & Hrun).
  exists overwrite_all', loc', s'. split; [done |].
  split; [by rewrite Hdisk, lookup_insert_eq |].
  split; [done |]. split; [done |].
  intros rest. simpl. unfold mbind at 1, M_bind, bind. by rewrite Hrun.
Qed.


End FileVerification.

(** ** Destination paths *)

Lemma after_last_no_sep (sep : ascii) (s : string) :
  contains sep (after_last sep s) = false.
Proof.
  induction s as [| c rest IH]; [done |].
  simpl. destruct (contains sep rest) eqn:Hrest; [done |].
  destruct (Ascii.eqb c sep) eqn:Hc; [done |].
  simpl. by rewrite Hc, Hrest.
Qed.

Lemma split_on_no_sep (sep : ascii) (s : string) :
  contains sep s = false → split_on sep s = [s].
Proof.
  induction s as [| c rest IH]; [done |].
  simpl. destruct (Ascii.eqb c sep); [done |]. simpl.
  intros Hrest. by rewrite IH.
Qed.

Lemma leading_slashes_no_slash (s : string) :
  contains "/" s = false → leading_slashes s = 0%nat.
Proof. destruct s as [| c rest]; [done |]. simpl. by destruct (Ascii.eqb c "/"). Qed.

(** The base name has no slash in it. *)
Lemma basename_no_slash (p : string) : contains "/" (basename p) = false.
Proof. apply after_last_no_sep. Qed.

Lemma Path_of_plain (name : string) :
  contains "/" name = false →
  Path_of name = {| p_root := ""; p_parts := if is_part name then [name] else [] |}.
Proof.
  intros Hplain. unfold Path_of.
  rewrite (leading_slashes_no_slash _ Hplain), (split_on_no_sep _ _ Hplain).
  f_equal. destruct (is_part name) eqn:Hpart.
  - by rewrite filter_cons_True, filter_nil.
  - rewrite filter_cons_False, filter_nil; [done |]. by rewrite Hpart.
Qed.

(** v3.0: the destination is the download directory followed by at most
    one part, the base name of the declared name. *)
Lemma v3_save_path_parts (download_path relative_path : string) :
  V3.save_path download_path relative_path =
    {| p_root := p_root (Path_of download_path);
       p_parts := p_parts (Path_of download_path) ++
                  (if is_part (basename relative_path)
                   then [basename relative_path] else []) |}.
Proof.
  unfold V3.save_path, Path_join.
  by rewrite (Path_of_plain _ (basename_no_slash relative_path)).
Qed.

(** v3.0: whatever name the peer declares, the destination is an entry of
    the download directory itself, unless the base name is empty, a dot or
    two dots (which name the directory or its parent, not a file). *)
Lemma v3_save_path_inside (download_path relative_path : string) :
  basename relative_path ≠ "" → basename relative_path ≠ "." →
  basename relative_path ≠ ".." →
  directly_inside (Path_of download_path) (V3.save_path download_path relative_path).
Proof.
  intros Hempty Hdot Hdots. rewrite v3_save_path_parts.
  unfold is_part. apply String.eqb_neq in Hempty, Hdot. rewrite Hempty, Hdot. simpl.
  split; [done |]. by exists (basename relative_path).
Qed.

Section PathTraversal.
Import RefLib Samples.

(** C1, on the code of v2.1: a manifest entry named [../evil.sh] is
    written next to the download directory, not into it, because this
    revision joins the declared name to the directory as it is.  v3.0
    writes the same entry to [evil.sh] inside the directory. *)
Theorem v21_path_traversal :
  let s := receiver [Packet (traversal_header ++ encode "xy")] in
  let s21 := snd (V21._handle_incoming_transfer always_yes peer s) in
  let s3 := snd (V3._handle_incoming_transfer peer s) in
  V21.save_path "/home/user/Downloads" "../evil.sh" =
    {| p_root := "/";
       p_parts := ["home"; "user"; "Downloads"; ".."; "evil.sh"]%string |} ∧
  ¬ directly_inside (Path_of "/home/user/Downloads")
      (V21.save_path "/home/user/Downloads" "../evil.sh") ∧
  disk s21 !! "/home/user/Downloads/../evil.sh"%string = Some (encode "xy") ∧
  disk s21 !! "/home/user/Downloads/evil.sh"%string = None ∧
  h_status <$> history s21 = [StatusOK] ∧
  disk s3 !! "/home/user/Downloads/evil.sh"%string = Some (encode "xy") ∧
  disk s3 !! "/home/user/Downloads/../evil.sh"%string = None.
Proof.
  split; [by vm_compute |]. split.
  - intros [_ (name & Hparts & Hname)]. vm_compute in Hparts.
    injection Hparts as <-. by apply Hname.
  - vm_compute. done.
Qed.

End PathTraversal.

(** ** Truncated transfers and oversized metadata *)

Section Oversized.
Context `{PyLib}.

(** v3.0: when the four bytes of the header declare more than 10 MiB, the
    metadata is refused in the state in which the header was read: no
    further byte is taken from the connection. *)
Lemma v3_oversized_metadata_refused (header : bytes) (n : Z) (s s1 : app) :
  V3._receive_all 4 s = (Ok (Some header), s1) →
  struct_unpack_I header = Some n → 10 * 1024 * 1024 < n →
  V3.read_metadata s = (Raise (RuntimeError "Mission metadata too large"), s1).
Proof.
  intros Hheader Hunpack Hlarge.
  unfold V3.read_metadata, mbind, M_bind, bind. rewrite Hheader.
  cbn [lift_opt mret M_ret ret]. rewrite Hunpack. cbn [lift_opt mret M_ret ret].
  destruct (Z.ltb_spec (10 * 1024 * 1024) n) as [_ | Hsmall]; [done | lia].
Qed.

(** v3.0: such a session fails; it records one failed transfer and leaves
    the rest of the connection unread. *)
Lemma v3_oversized_session_fails (peer : string) (header : bytes) (n : Z)
    (s s1 : app) :
  V3._receive_all 4 (set_recv_log (recv_log s ++ [LogIncoming peer]) s)
    = (Ok (Some header), s1) →
  struct_unpack_I header = Some n → 10 * 1024 * 1024 < n →
  ∃ s', V3._handle_incoming_transfer peer s = (Ok tt, s') ∧
        conn s' = conn s1 ∧ disk s' = disk s1 ∧
        connection_open s' = false ∧
        last (history s') =
          Some {| h_direction := Receive; h_peer := peer; h_files := JInt 0;
                  h_size := 0; h_verified := None; h_status := MissionFailed |}.
Proof.
  intros Hheader Hunpack Hlarge.
  unfold V3._handle_incoming_transfer, V3.session_body, try_except.
  unfold mbind, M_bind, bind. unfold append_recv_log at 1, modify at 1.
  rewrite (v3_oversized_metadata_refused header n _ s1) by done.
  eexists. split; [reflexivity |]. simpl. repeat split.
  apply v3_add_history_last.
Qed.

(** v2.1: whatever length the header declares, a body of that length is
    read from the connection in full before anything is checked. *)
Lemma v21_reads_declared_length (header body tail : bytes) (n : Z) (s : app) :
  struct_unpack_I header = Some n → length header = 4%nat → len body = n →
  delivered (conn s) = header ++ body ++ tail →
  ∃ r c', V21.read_metadata s = (r, set_conn c' s) ∧ delivered c' = tail.
Proof.
  intros Hunpack Hfour Hbody Hdel.
  destruct (v21_receive_all_delivers 4 header (body ++ tail) s)
    as (c1 & Hrun1 & Hdel1); [done | unfold len; lia |].
  destruct (v21_receive_all_delivers n body tail (set_conn c1 s))
    as (c2 & Hrun2 & Hdel2); [done | done |].
  unfold V21.read_metadata, mbind, M_bind, bind.
  rewrite Hrun1. cbn [lift_opt mret M_ret ret]. rewrite Hunpack.
  cbn [lift_opt mret M_ret ret]. rewrite Hrun2. cbn [lift_opt mret M_ret ret].
  destruct (utf8_decode body) as [text |]; cbn [lift_opt mret M_ret ret raise].
  - destruct (json_loads text); by eexists _, c2.
  - by eexists _, c2.
Qed.

End Oversized.

Section ClosedConnection.
Context `{PyLib}.

Lemma recv_file_loop_closed limit fuel path size hash_obj received loc (s : app) :
  conn s = [] → (0 < fuel)%nat →
  recv_file_loop limit fuel path size hash_obj received loc s = (Ok (hash_obj, loc), s).
Proof.
  intros Hclosed Hfuel. destruct fuel as [| fuel]; [lia |]. simpl.
  destruct (received <? size); [| done].
  rewrite Hclosed. simpl. by rewrite <- Hclosed, set_conn_id.
Qed.

Lemma receive_and_verify_closed limit peer rel path size expected loc (s : app) :
  conn s = [] →
  ∃ loc' s',
    receive_and_verify limit peer rel path (JInt size) (JStr expected) loc s
      = (Ok loc', s') ∧
    conn s' = [] ∧ disk s' = <[path := []]> (disk s) ∧
    download_path s' = download_path s.
Proof.
  intros Hclosed.
  unfold receive_and_verify, mbind, M_bind, bind.
  destruct (check_duplicate_run peer rel path (JStr expected) s) as [lg ->].
  simpl lift_opt. unfold ret at 1.
  unfold append_recv_log, open_wb, modify at 1 2. cbv beta.
  unfold receive_file. rewrite recv_file_loop_closed by (done || lia).
  unfold verify_file, mbind, M_bind, bind. cbn [truthy].
  destruct (negb (String.eqb expected "")); unfold mret, M_ret, ret.
  - destruct (String.eqb (lower (sha256_hexdigest [])) (lower expected));
      unfold append_recv_log, modify; by eexists _, _.
  - unfold append_recv_log, modify. by eexists _, _.
Qed.

Lemma v3_process_file_closed peer entry loc (s : app) :
  well_formed_entry entry → conn s = [] →
  ∃ loc' s', V3.process_file peer None entry loc s = (Ok loc', s') ∧ conn s' = [].
Proof.
  intros (kvs & rel & size & expected & -> & Hrel & Hne & Hsize & Hsha) Hclosed.
  unfold V3.process_file, mbind, M_bind, bind. simpl as_dict. unfold mret, M_ret, ret.
  rewrite (py_or_name kvs rel) by done. simpl as_str. unfold mret, M_ret, ret, get.
  rewrite bool_decide_eq_false_2, andb_false_r by done.
  unfold dict_get_default, dict_get_none. rewrite Hsize. unfold dict_get_default.
  rewrite Hsha.
  destruct (receive_and_verify_closed V3.CHUNK_SIZE peer rel
              (Path_str (V3.save_path (download_path s) rel)) size expected loc s
              Hclosed) as (loc' & s' & -> & Hconn & _).
  by eexists _, _.
Qed.

(** v3.0: on a connection that the peer has closed, every entry that is
    left in the manifest is still processed and the loop over the manifest
    ends without an exception. *)
Lemma v3_for_files_closed peer entries loc (s : app) :
  Forall well_formed_entry entries → conn s = [] →
  ∃ loc' s', V3.for_files peer entries loc s = (Ok loc', s') ∧ conn s' = [].
Proof.
  intros Hentries. revert loc s.
  induction Hentries as [| entry entries Hentry _ IH]; intros loc s Hclosed.
  - by exists loc, s.
  - simpl. unfold mbind, M_bind, bind.
    destruct (v3_process_file_closed peer entry loc s Hentry Hclosed)
      as (loc1 & s1 & -> & Hclosed1).
    apply IH, Hclosed1.
Qed.

End ClosedConnection.

Section FailingSessions.
Import RefLib Samples.

(** C2, on the code: the manifest declares [a.txt] with four bytes and
    [b.txt] with two; the peer sends two bytes of [a.txt] and closes.
    Both revisions leave the loop of [a.txt], report its integrity
    failure, go on to [b.txt], which they create empty, and record the
    transfer as a success with none of two files verified. *)
Theorem truncated_session_goes_on :
  let s := receiver [Packet two_files_header; Packet (encode "ab")] in
  let r3 := V3._handle_incoming_transfer peer s in
  let r21 := V21._handle_incoming_transfer always_yes peer s in
  (fst r3 = Ok tt ∧
   disk (snd r3) !! "/home/user/Downloads/a.txt"%string = Some (encode "ab") ∧
   disk (snd r3) !! "/home/user/Downloads/b.txt"%string = Some [] ∧
   recv_log (snd r3) =
     [LogIncoming peer; LogBriefing (JInt 2) 6;
      LogReceiving "a.txt" 4; LogIntegrityFailure "a.txt";
      LogReceiving "b.txt" 2; LogIntegrityFailure "b.txt"; LogComplete] ∧
   history (snd r3) =
     [{| h_direction := Receive; h_peer := peer; h_files := JInt 2; h_size := 6;
         h_verified := Some (0, JInt 2); h_status := MissionSuccess |}]) ∧
  (fst r21 = Ok tt ∧
   disk (snd r21) !! "/home/user/Downloads/a.txt"%string = Some (encode "ab") ∧
   disk (snd r21) !! "/home/user/Downloads/b.txt"%string = Some [] ∧
   recv_log (snd r21) =
     [LogBriefing (JInt 2) 6;
      LogReceiving "a.txt" 4; LogIntegrityFailure "a.txt";
      LogReceiving "b.txt" 2; LogIntegrityFailure "b.txt"; LogComplete] ∧
   history (snd r21) =
     [{| h_direction := Receive; h_peer := peer; h_files := JInt 2; h_size := 6;
         h_verified := Some (0, JInt 2); h_status := StatusOK |}]).
Proof. vm_compute. done. Qed.

(** C7, on the code of v2.1: a header that declares 10 MiB and one byte
    is followed by reads of the body; the session takes every byte the
    peer sent and fails only when the peer closes.  v3.0 refuses the same
    header and leaves the body unread. *)
Theorem v21_oversized_metadata_read :
  let s := receiver [Packet oversized_header; Packet (encode "abc");
                     Packet (encode "de")] in
  let r21 := V21._handle_incoming_transfer always_yes peer s in
  let r3 := V3._handle_incoming_transfer peer s in
  struct_unpack_I oversized_header = Some (10 * 1024 * 1024 + 1) ∧
  (fst r21 = Ok tt ∧ conn (snd r21) = [] ∧
   recv_log (snd r21) = [LogFailed AttributeError]) ∧
  (fst r3 = Ok tt ∧
   conn (snd r3) = [Packet (encode "abc"); Packet (encode "de")] ∧
   recv_log (snd r3) =
     [LogIncoming peer; LogFailed (RuntimeError "Mission metadata too large")]).
Proof. vm_compute. done. Qed.

End FailingSessions.

(** ** Pause *)

Section Pause.
Context `{PyLib}.
Import Sender.

Lemma send_step_paused_quiet target now (fl : flags) (st : send_state) :
  transfer_paused fl = true → pc st ≠ ReadChunk →
  pc (send_step target now fl st) ≠ ReadChunk ∧
  wire (send_step target now fl st) = wire st ∧
  total_sent (send_step target now fl st) = total_sent st.
Proof.
  intros Hpaused Hpc. unfold send_step.
  destruct (pc st) eqn:Hat; try done.
  - destruct (pending st) as [| f rest]; [by rewrite ?Hat |].
    destruct (transfer_cancelled fl); [done |].
    by destruct (sender_disk st !! sf_path f).
  - by destruct (transfer_cancelled fl).
  - rewrite Hpaused. by rewrite Hat.
  - by rewrite Hat.
Qed.

Lemma send_run_paused_quiet target now (trace : list flags) (st : send_state) :
  Forall (λ fl, transfer_paused fl = true) trace → pc st ≠ ReadChunk →
  wire (send_run target now trace st) = wire st ∧
  total_sent (send_run target now trace st) = total_sent st.
Proof.
  intros Hpaused. revert st.
  induction Hpaused as [| fl trace Hfl _ IH]; intros st Hpc; [done |].
  simpl. destruct (send_step_paused_quiet target now fl st Hfl Hpc) as (Hpc' & Hw & Ht).
  destruct (IH _ Hpc') as [Hw' Ht']. by rewrite Hw', Ht'.
Qed.

Lemma send_run_paused_waits target now (trace : list flags) (st : send_state) :
  Forall (λ fl, transfer_paused fl = true) trace → pc st = PauseCheck →
  send_run target now trace st = st.
Proof.
  intros Hpaused Hpc.
  induction Hpaused as [| fl trace Hfl _ IH]; [done |].
  simpl. unfold send_step. by rewrite Hpc, Hfl.
Qed.


End Pause.

Section PauseSamples.
Import RefLib Samples.



End PauseSamples.

(** ** Discovery *)

Lemma prefix_mismatch (common rest1 rest2 msg : string) (c1 c2 : ascii) :
  c1 ≠ c2 →
  String.prefix (common +:+ String c1 rest1) msg = true →
  String.prefix (common +:+ String c2 rest2) msg = false.
Proof.
  intros Hne. revert msg.
  induction common as [| c common IH]; intros [| m msg]; simpl; try done.
  - destruct (Ascii.ascii_dec c1 m) as [Hc1 | Hc1]; [| done].
    destruct (Ascii.ascii_dec c2 m) as [Hc2 | Hc2]; [congruence | done].
  - destruct (Ascii.ascii_dec c m); [apply IH | done].
Qed.

Section DiscoveryFacts.
Context `{PyLib}.
Import Discovery.

Lemma response_is_no_announcement (msg : string) :
  startswith msg "GOODLUCK_RESPONSE:" = true →
  startswith msg "GOODLUCK_DISCOVERY:" = false.
Proof.
  apply (prefix_mismatch "GOODLUCK_" "ESPONSE:" "ISCOVERY:" msg "R" "D"). done.
Qed.

(** v3.0: the datagram is the JSON object itself; its sender is always
    recorded and nothing is sent. *)
Lemma v3_discovery_listener_records (data : bytes) (addr : string * Z)
    (st : listener) (text : string) (device_info : list (string * json)) :
  utf8_decode data = Some text → json_loads text = Some (JDict device_info) →
  _discovery_listener data addr st =
    {| discovered_devices :=
         <[fst addr := dict_get_default device_info "name"
                         (JStr ("Unknown-" +:+ fst addr))]> (discovered_devices st);
       sent := sent st |}.
Proof.
  intros Htext Hjson. unfold _discovery_listener.
  rewrite Htext. simpl. by rewrite Hjson.
Qed.

(** C9 as amended, for the listener of v2.1: a datagram whose payload is
    a JSON object is answered, when it is an announcement, with a response
    that carries the listener's own name, and is never answered when it is
    a response; in both cases the sender is recorded as a peer unless the
    datagram comes from the listener's own address. *)
Theorem discovery_listener_behaviour (local_ip device_name : string)
    (data : bytes) (addr : string * Z) (st : listener) (info : list (string * json)) :
  payload (utf8_decode_ignore data) = Some info →
  let msg := utf8_decode_ignore data in
  let st' := udp_discovery_listener local_ip device_name data addr st in
  let name := dict_get_default info "name" (JStr "Unknown") in
  let recorded :=
    if String.eqb (fst addr) local_ip then discovered_devices st
    else <[fst addr := name]> (discovered_devices st) in
  let response :=
    utf8_encode ("GOODLUCK_RESPONSE:" +:+
                 json_dumps (JDict [("name", JStr device_name)]%string)) in
  (startswith msg "GOODLUCK_DISCOVERY:" = true →
     discovered_devices st' = recorded ∧ sent st' = sent st ++ [(response, addr)]) ∧
  (startswith msg "GOODLUCK_RESPONSE:" = true →
     discovered_devices st' = recorded ∧ sent st' = sent st).
Proof.
  intros Hpayload msg st' name recorded response.
  subst st' recorded. unfold udp_discovery_listener. fold msg.
  split.
  - intros ->. unfold msg. rewrite Hpayload.
    by destruct (String.eqb (fst addr) local_ip).
  - intros Hresponse. rewrite (response_is_no_announcement _ Hresponse), Hresponse.
    unfold msg. rewrite Hpayload.
    by destruct (String.eqb (fst addr) local_ip), st.
Qed.

End DiscoveryFacts.

Section DiscoverySamples.
Import RefLib Samples Discovery.

Lemma discovery_listener_behaviour_witness :
  discovered_devices
    (udp_discovery_listener "192.168.1.5" "Me" announcement_from_bob
       ("192.168.1.7"%string, 50000) quiet_listener)
    = {[ "192.168.1.7"%string := JStr "Bob" ]} ∧
  sent (udp_discovery_listener "192.168.1.5" "Me" announcement_from_bob
          ("192.168.1.7"%string, 50000) quiet_listener)
    = [(encode ("GOODLUCK_RESPONSE:" +:+ dumps (JDict [("name", JStr "Me")]%string)),
        ("192.168.1.7"%string, 50000))].
Proof.
  assert (Hpayload : payload (utf8_decode_ignore announcement_from_bob) =
                       Some [("name", JStr "Bob")]%string)
    by (vm_compute; reflexivity).
  destruct (discovery_listener_behaviour "192.168.1.5" "Me" announcement_from_bob
              ("192.168.1.7"%string, 50000) quiet_listener
              [("name", JStr "Bob")]%string Hpayload) as [Hannounce _].
  assert (Htag : startswith (utf8_decode_ignore announcement_from_bob)
                   "GOODLUCK_DISCOVERY:" = true) by (vm_compute; reflexivity).
  exact (Hannounce Htag).
Defined.

(** C9 as stated fails for a response that comes from the listener's own
    address: the listener of v2.1 does not record its sender. *)
Lemma own_response_not_recorded :
  let st' := udp_discovery_listener "192.168.1.5" "Me" response_from_bob
               ("192.168.1.5"%string, 50000) quiet_listener in
  startswith (utf8_decode_ignore response_from_bob) "GOODLUCK_RESPONSE:" = true ∧
  discovered_devices st' !! "192.168.1.5"%string = None ∧
  sent st' = [].
Proof. vm_compute. done. Qed.

End DiscoverySamples.

(** ** The theorems at work on sample sessions *)

Section Instances.
Import RefLib Samples.

Lemma manifest_roundtrip_witness :
  let s := receiver [Packet (take 3 two_files_header);
                     Packet (drop 3 two_files_header ++ encode "abcdxy")] in
  ∃ c', V21.read_metadata s = (Ok (Sender.metadata_of two_files), set_conn c' s) ∧
        delivered c' = encode "abcdxy".
Proof.
  intros s.
  assert (Hutf8 : utf8_decode (utf8_encode (json_dumps (Sender.metadata_of two_files)))
                  = Some (json_dumps (Sender.metadata_of two_files)))
    by (vm_compute; reflexivity).
  assert (Hjson : json_loads (json_dumps (Sender.metadata_of two_files))
                  = Some (Sender.metadata_of two_files))
    by (vm_compute; reflexivity).
  assert (Hheader : Sender.encode_header two_files = Some two_files_header)
    by (vm_compute; reflexivity).
  assert (Hdelivered : delivered (conn s) = two_files_header ++ encode "abcdxy")
    by (vm_compute; reflexivity).
  destruct (manifest_roundtrip two_files two_files_header (encode "abcdxy") s
              Hutf8 Hjson Hheader Hdelivered) as (c' & _ & Hrun & Htail & _).
  exists c'. split; assumption.
Defined.


End Instances.

(** * Further properties *)

(** ** DuplicateManager: recording and asking *)

Section DuplicateRoundTrip.
Import DuplicateManager.

Lemma last_n_last_elem {A} (n : nat) (l : list A) (x : A) :
  (0 < n)%nat → x ∈ last_n n (l ++ [x]).
Proof.
  intros Hn. rewrite last_n_snoc by done.
  apply elem_of_app. right. apply list_elem_of_here.
Qed.

Lemma last_n_subseteq {A} (n : nat) (l : list A) (x : A) :
  x ∈ last_n n l → x ∈ l.
Proof.
  unfold last_n. intros Hin.
  rewrite <- (take_drop (length l - n) l). apply elem_of_app. by right.
Qed.

Lemma is_duplicate_after_add (s : store) (path h peer now path' : string) :
  basename path' = basename path →
  ∃ e, is_duplicate (add_file_hash s path h peer now) path' h peer = (true, Some e) ∧
       dr_hash e = h ∧ dr_peer e = peer.
Proof.
  intros Hbase.
  assert (Hkey : key_of path' h = key_of path h) by (unfold key_of; by rewrite Hbase).
  unfold is_duplicate. rewrite Hkey.
  change (default [] (?m !! ?k)) with (records m k).
  rewrite add_file_hash_records.
  destruct (find_match_found
              (last_n 1000 (records s (key_of path h) ++
                 [{| dr_path := path; dr_hash := h; dr_peer := peer;
                     dr_timestamp := now |}])) h peer
              {| dr_path := path; dr_hash := h; dr_peer := peer;
                 dr_timestamp := now |})
    as (e & Hfound & _ & Hh & Hp); [apply last_n_last_elem; lia | done | done |].
  by exists e.
Qed.

(** X1: A transfer that was recorded is a duplicate from then on, under the
    same path and under any other path with the same base name; and
    recording it for one peer does not make the file a duplicate for a peer
    for which it was not one before. *)
Theorem recorded_transfer_is_duplicate (s : store) (path h peer now : string) :
  (∀ path', basename path' = basename path →
     ∃ e, is_duplicate (add_file_hash s path h peer now) path' h peer
            = (true, Some e) ∧
          dr_hash e = h ∧ dr_peer e = peer) ∧
  (∀ path' h' peer', peer' ≠ peer →
     is_duplicate s path' h' peer' = (false, None) →
     is_duplicate (add_file_hash s path h peer now) path' h' peer' = (false, None)).
Proof.
  split.
  - intros path' Hbase. by apply is_duplicate_after_add.
  - intros path' h' peer' Hpeer Hbefore.
    unfold is_duplicate in *.
    change (default [] (?m !! ?k)) with (records m k) in *.
    destruct (decide (key_of path' h' = key_of path h)) as [Hkey | Hkey].
    + rewrite Hkey in *. rewrite add_file_hash_records.
      apply find_match_none. intros e Hin [Hh Hp].
      apply last_n_subseteq, elem_of_app in Hin as [Hold | Hnew].
      * destruct (find_match_found _ h' peer' e Hold Hh Hp) as (e' & Hyes & _).
        congruence.
      * apply list_elem_of_singleton in Hnew. subst e. simpl in Hp. congruence.
    + by rewrite add_file_hash_other.
Qed.

(** X2: [is_duplicate] returns the oldest record of the key that has the hash
    and the peer. *)
Theorem is_duplicate_returns_oldest (s : store) (path h peer : string)
    (older newer : list DuplicateRecord) (e : DuplicateRecord) :
  get_duplicate_info s path h = older ++ e :: newer →
  dr_hash e = h → dr_peer e = peer →
  (∀ o, o ∈ older → ¬ (dr_hash o = h ∧ dr_peer o = peer)) →
  is_duplicate s path h peer = (true, Some e).
Proof.
  unfold is_duplicate, get_duplicate_info. intros -> Hh Hp.
  induction older as [| o older IH]; intros Hnone; simpl.
  - by rewrite Hh, Hp, !String.eqb_refl.
  - destruct (String.eqb (dr_hash o) h && String.eqb (dr_peer o) peer) eqn:Ho.
    + apply andb_true_iff in Ho as [Hoh Hop]. apply String.eqb_eq in Hoh, Hop.
      exfalso. apply (Hnone o); [apply list_elem_of_here | done].
    + apply IH. intros o' Hin. apply Hnone. by apply list_elem_of_further.
Qed.

(** X3: A matching record is forgotten once 1000 later records have been
    stored under its key for other peers: the answer turns from yes to
    no. *)
Theorem evicted_record_is_forgotten (s : store) (path h peer : string)
    (e : DuplicateRecord) (later : list DuplicateRecord)
    (path2 peer2 now : string) :
  get_duplicate_info s path h = e :: later →
  length later = 999%nat →
  (∀ o, o ∈ later → dr_peer o ≠ peer) →
  key_of path2 h = key_of path h → peer2 ≠ peer →
  dr_hash e = h → dr_peer e = peer →
  is_duplicate s path h peer = (true, Some e) ∧
  is_duplicate (add_file_hash s path2 h peer2 now) path h peer = (false, None).
Proof.
  intros Hstored Hlen Hlater Hkey Hpeer2 Hh Hp. split.
  - unfold is_duplicate, get_duplicate_info in *. rewrite Hstored. simpl.
    by rewrite Hh, Hp, !String.eqb_refl.
  - unfold is_duplicate, get_duplicate_info in *.
    change (default [] (?m !! ?k)) with (records m k) in *.
    rewrite <- Hkey, add_file_hash_records, Hkey, Hstored.
    rewrite (last_n_snoc_full 1000) by (simpl; lia).
    apply find_match_none. intros o Hin [_ Hop].
    apply elem_of_app in Hin as [Hin | Hin].
    + by apply (Hlater o).
    + apply list_elem_of_singleton in Hin. subst o. simpl in Hop. congruence.
Qed.

End DuplicateRoundTrip.

(** ** Transfer history: repeated additions *)

Lemma last_n_idem_app {A} (n : nat) (l extra : list A) :
  last_n n (last_n n l ++ extra) = last_n n (l ++ extra).
Proof.
  unfold last_n. rewrite !length_app, length_drop.
  destruct (decide (length l ≤ n)%nat) as [Hshort | Hlong].
  - replace (length l - n)%nat with 0%nat by lia. simpl.
    do 2 f_equal. lia.
  - rewrite !drop_app, drop_drop, length_drop. f_equal; f_equal; lia.
Qed.

Lemma foldl_last_n {A} (n : nat) (add : list A → A → list A) :
  (∀ h r, add h r = last_n n (h ++ [r])) →
  ∀ rs h, foldl add (last_n n h) rs = last_n n (h ++ rs).
Proof.
  intros Hadd. induction rs as [| r rs IH]; intros h; simpl.
  - by rewrite app_nil_r.
  - rewrite Hadd, last_n_idem_app, IH, <- app_assoc. done.
Qed.


(** ** Reading from a connection: how much is taken *)

Lemma recv_received (conn : list recv_event) (bufsize : Z) chunk conn' :
  1 ≤ bufsize → recv conn bufsize = (Received chunk, conn') → chunk ≠ [] →
  len chunk ≤ bufsize ∧ incoming conn = chunk ++ incoming conn'.
Proof.
  intros Hbuf. destruct conn as [| [data | |] rest]; simpl; try by intros [= <- <-].
  destruct data as [| b data]; [by intros [= <- <-] |].
  destruct (len (b :: data) <=? bufsize) eqn:Hfit; intros [= <- <-] Hne.
  - apply Z.leb_le in Hfit. done.
  - apply Z.leb_gt in Hfit. unfold len in *. split.
    + rewrite length_take. lia.
    + cbn [incoming].
      destruct (drop (Z.to_nat bufsize) (b :: data)) as [| d rest'] eqn:Hdrop.
      * apply (f_equal length) in Hdrop. rewrite length_drop in Hdrop.
        simpl in Hdrop, Hfit. lia.
      * rewrite <- Hdrop, app_assoc, take_drop. done.
Qed.

Lemma recv_timed_out (conn : list recv_event) (bufsize : Z) conn' :
  recv conn bufsize = (TimedOut, conn') → incoming conn = incoming conn'.
Proof.
  destruct conn as [| [data | |] rest]; simpl; try done.
  - destruct data as [| b data]; [done |].
    by destruct (len (b :: data) <=? bufsize).
  - by intros [= <-].
Qed.

Lemma len_app {A} (l k : list A) : len (l ++ k) = len l + len k.
Proof. unfold len. rewrite length_app. lia. Qed.

Lemma v3_receive_all_loop_exact (fuel : nat) (num_bytes : Z) (data out : bytes)
    (s s' : app) :
  len data ≤ num_bytes →
  V3.receive_all_loop fuel num_bytes data s = (Ok (Some out), s') →
  len out = num_bytes ∧
  ∃ new, out = data ++ new ∧ incoming (conn s) = new ++ incoming (conn s') ∧
         s' = set_conn (conn s') s.
Proof.
  revert data s. induction fuel as [| fuel IH]; intros data s Hle; simpl.
  - destruct (len data <? num_bytes) eqn:Hlt; [done |].
    intros [= <- <-]. apply Z.ltb_ge in Hlt. split; [lia |].
    exists []. rewrite app_nil_r. by destruct s.
  - destruct (len data <? num_bytes) eqn:Hlt.
    + apply Z.ltb_lt in Hlt.
      destruct (recv (conn s) (num_bytes - len data)) as [[chunk | |] c'] eqn:Hrecv;
        [| | done].
      * destruct chunk as [| b chunk]; [done |].
        assert (Hbuf : 1 ≤ num_bytes - len data) by lia.
        destruct (recv_received _ _ _ _ Hbuf Hrecv) as [Hfit Hin]; [done |].
        intros Hrun. apply IH in Hrun as (Hlen & new & -> & Hnew & Hs').
        -- split; [done |]. exists ((b :: chunk) ++ new).
           rewrite app_assoc. split; [done |]. simpl in Hnew. split.
           ++ rewrite Hin, <- app_assoc. by f_equal.
           ++ rewrite Hs' at 1. by destruct s.
        -- rewrite len_app. lia.
      * intros Hrun. apply IH in Hrun as (Hlen & new & -> & Hnew & Hs'); [| done].
        split; [done |]. exists new. split; [done |]. simpl in Hnew. split.
        -- by rewrite (recv_timed_out _ _ _ Hrecv).
        -- rewrite Hs' at 1. by destruct s.
    + intros [= <- <-]. apply Z.ltb_ge in Hlt. split; [lia |].
      exists []. rewrite app_nil_r. by destruct s.
Qed.

Lemma v21_receive_all_loop_exact (fuel : nat) (num_bytes : Z) (data out : bytes)
    (s s' : app) :
  len data ≤ num_bytes →
  V21.receive_all_loop fuel num_bytes data s = (Ok (Some out), s') →
  len out = num_bytes ∧
  ∃ new, out = data ++ new ∧ incoming (conn s) = new ++ incoming (conn s') ∧
         s' = set_conn (conn s') s.
Proof.
  revert data s. induction fuel as [| fuel IH]; intros data s Hle; simpl.
  - destruct (len data <? num_bytes) eqn:Hlt; [done |].
    intros [= <- <-]. apply Z.ltb_ge in Hlt. split; [lia |].
    exists []. rewrite app_nil_r. by destruct s.
  - destruct (len data <? num_bytes) eqn:Hlt.
    + apply Z.ltb_lt in Hlt.
      destruct (recv (conn s) (num_bytes - len data)) as [[chunk | |] c'] eqn:Hrecv;
        [| done | done].
      destruct chunk as [| b chunk]; [done |].
      assert (Hbuf : 1 ≤ num_bytes - len data) by lia.
      destruct (recv_received _ _ _ _ Hbuf Hrecv) as [Hfit Hin]; [done |].
      intros Hrun. apply IH in Hrun as (Hlen & new & -> & Hnew & Hs').
      * split; [done |]. exists ((b :: chunk) ++ new).
        rewrite app_assoc. split; [done |]. simpl in Hnew. split.
        -- rewrite Hin, <- app_assoc. by f_equal.
        -- rewrite Hs' at 1. by destruct s.
      * rewrite len_app. lia.
    + intros [= <- <-]. apply Z.ltb_ge in Hlt. split; [lia |].
      exists []. rewrite app_nil_r. by destruct s.
Qed.

(** X5: When [_receive_all] returns data, it is exactly [num_bytes] long, it is
    the front of what the connection held, the rest stays in the connection,
    and nothing else of the application changed.  Both revisions. *)
Theorem receive_all_exact (num_bytes : Z) (data : bytes) (s s' : app) :
  0 ≤ num_bytes →
  V3._receive_all num_bytes s = (Ok (Some data), s') ∨
  V21._receive_all num_bytes s = (Ok (Some data), s') →
  len data = num_bytes ∧
  incoming (conn s) = data ++ incoming (conn s') ∧
  s' = set_conn (conn s') s.
Proof.
  intros Hn [Hrun | Hrun].
  - apply v3_receive_all_loop_exact in Hrun as (Hlen & new & -> & Hin & Hs');
      [done | unfold len; simpl; lia].
  - apply v21_receive_all_loop_exact in Hrun as (Hlen & new & -> & Hin & Hs');
      [done | unfold len; simpl; lia].
Qed.

(** ** The per-file loop takes no more than the declared size *)

Section FileLoopBounds.
Context `{PyLib}.

Lemma recv_file_loop_takes (chunk_limit : Z) (fuel : nat) (path : string)
    (file_size : Z) (hash_obj : bytes) (received : Z) (loc loc' : locals)
    (hash_obj' : bytes) (s s' : app) :
  1 ≤ chunk_limit →
  recv_file_loop chunk_limit fuel path file_size hash_obj received loc s
    = (Ok (hash_obj', loc'), s') →
  ∃ new,
    hash_obj' = hash_obj ++ new ∧
    (new = [] ∨ received + len new ≤ file_size) ∧
    incoming (conn s) = new ++ incoming (conn s') ∧
    default [] (disk s' !! path) = default [] (disk s !! path) ++ new ∧
    (∀ other, other ≠ path → disk s' !! other = disk s !! other) ∧
    bytes_completed loc' = bytes_completed loc + len new ∧
    verified_count loc' = verified_count loc ∧
    files_completed loc' = files_completed loc.
Proof.
  intros Hlimit. revert hash_obj received loc s hash_obj' loc' s'.
  induction fuel as [| fuel IH]; intros hash_obj received loc s hash_obj' loc' s';
    simpl.
  - destruct (received <? file_size); [done |].
    intros [= <- <- <-]. exists []. rewrite !app_nil_r. simpl.
    repeat split; first [done | by left | unfold len; simpl; lia].
  - destruct (received <? file_size) eqn:Hlt.
    + apply Z.ltb_lt in Hlt.
      destruct (recv (conn s) (Z.min chunk_limit (file_size - received)))
        as [[chunk | |] c'] eqn:Hrecv; [| done | done].
      destruct chunk as [| b chunk].
      * intros [= <- <- <-]. exists []. rewrite !app_nil_r. simpl.
        destruct (conn s) as [| [[| d data] | |] rest] eqn:Hconn; simpl in Hrecv.
        -- injection Hrecv as <-. repeat split; first [done | by left | unfold len; simpl; lia].
        -- injection Hrecv as <-. repeat split; first [done | by left | unfold len; simpl; lia].
        -- destruct (len (d :: data) <=? _); injection Hrecv as Hc _;
             try done. exfalso.
           apply (f_equal length) in Hc. rewrite length_take in Hc. simpl in Hc. lia.
        -- done.
        -- done.
      * assert (Hbuf : 1 ≤ Z.min chunk_limit (file_size - received)) by lia.
        destruct (recv_received _ _ _ _ Hbuf Hrecv) as [Hfit Hin]; [done |].
        intros Hrun.
        apply IH in Hrun
          as (new & -> & Hbound & Hnew & Hdisk & Hother & Hbytes & Hv & Hf).
        simpl in *.
        exists ((b :: chunk) ++ new). rewrite app_assoc. split; [done |]. split.
        { right. destruct Hbound as [-> | Hb].
          - rewrite app_nil_r. lia.
          - rewrite len_app. lia. }
        split. { rewrite Hin, Hnew, <- app_assoc. done. }
        split. { rewrite Hdisk, lookup_insert_eq. simpl. by rewrite <- app_assoc. }
        split. { intros other Hne. rewrite Hother by done.
                 by rewrite lookup_insert_ne. }
        rewrite len_app. repeat split; try done. lia.
    + intros [= <- <- <-]. exists []. rewrite !app_nil_r. simpl.
      repeat split; first [done | by left | unfold len; simpl; lia].
Qed.

Lemma receive_file_takes (chunk_limit : Z) (path : string) (file_size : Z)
    (loc loc' : locals) (hash_obj : bytes) (s s' : app) :
  1 ≤ chunk_limit →
  receive_file chunk_limit path file_size loc s = (Ok (hash_obj, loc'), s') →
  ∃ new : bytes,
    bytes_completed loc' = bytes_completed loc + len new ∧
    verified_count loc' = verified_count loc ∧
    files_completed loc' = files_completed loc.
Proof.
  intros Hlimit Hrun. unfold receive_file in Hrun.
  apply recv_file_loop_takes in Hrun
    as (new & _ & _ & _ & _ & _ & Hbytes & Hv & Hf); [| done].
  by exists new.
Qed.

(** X6: Whatever the connection does, a file's receive loop that ends normally
    has taken at most [file_size] bytes from it, in pieces of at most the
    chunk limit; these bytes are what it fed to the digest, what it appended
    to the file and what it added to the byte counter.  The bytes of the
    next file stay in the connection and no other file is touched. *)
Theorem receive_file_takes_at_most_size (chunk_limit : Z) (path : string)
    (file_size : Z) (loc loc' : locals) (hash_obj : bytes) (s s' : app) :
  1 ≤ chunk_limit →
  receive_file chunk_limit path file_size loc s = (Ok (hash_obj, loc'), s') →
  len hash_obj ≤ Z.max 0 file_size ∧
  incoming (conn s) = hash_obj ++ incoming (conn s') ∧
  default [] (disk s' !! path) = default [] (disk s !! path) ++ hash_obj ∧
  (∀ other, other ≠ path → disk s' !! other = disk s !! other) ∧
  bytes_completed loc' = bytes_completed loc + len hash_obj.
Proof.
  intros Hlimit Hrun. unfold receive_file in Hrun.
  apply recv_file_loop_takes in Hrun
    as (new & -> & Hbound & Hnew & Hdisk & Hother & Hbytes & _); [| done].
  simpl. repeat split; try done.
  destruct Hbound as [-> | Hb]; [unfold len; simpl |]; lia.
Qed.

End FileLoopBounds.

(** ** What a receive session leaves alone *)

Ltac frame_same := repeat split; try done; intros; by left.

Lemma frame_refl Q s : frame Q s s.
Proof. frame_same. Qed.

Lemma frame_trans Q s1 s2 s3 : frame Q s1 s2 → frame Q s2 s3 → frame Q s1 s3.
Proof.
  intros (Ho1 & Hd1 & Hp1 & Hc1 & Hl1 & Hk1) (Ho2 & Hd2 & Hp2 & Hc2 & Hl2 & Hk2).
  repeat split; try congruence.
  - intros Hl. by apply Hl1, Hl2.
  - intros p. destruct (Hk2 p) as [-> | ?]; [apply Hk1 | by right].
Qed.

Lemma frame_mono (Q Q' : string → Prop) s s' :
  (∀ p, Q p → Q' p) → frame Q s s' → frame Q' s s'.
Proof.
  intros Hsub (Ho & Hd & Hp & Hc & Hl & Hk). repeat split; try done.
  intros p. destruct (Hk p) as [? | ?]; [by left | right; by apply Hsub].
Qed.

Lemma keeps_mono {A} (T T' : string → string → Prop) (m : M app A) :
  (∀ dl p, T dl p → T' dl p) → keeps T m → keeps T' m.
Proof.
  intros Hsub Hm s. destruct (Hm s) as [Hh Hf]. split; [done |].
  eapply frame_mono; [apply Hsub | done].
Qed.

Lemma keeps_ret {A} T (a : A) : keeps T (mret a).
Proof. intros s. split; [done | apply frame_refl]. Qed.

Lemma keeps_raise {A} T e : keeps T (raise e : M app A).
Proof. intros s. split; [done | apply frame_refl]. Qed.

Lemma keeps_get T : keeps T (get : M app app).
Proof. intros s. split; [done | apply frame_refl]. Qed.

Lemma keeps_lift_opt {A} T (o : option A) e : keeps T (lift_opt o e).
Proof. destruct o; [apply keeps_ret | apply keeps_raise]. Qed.

Lemma keeps_bind {A B} T (m : M app A) (k : A → M app B) :
  keeps T m → (∀ a, keeps T (k a)) → keeps T (m ≫= k).
Proof.
  intros Hm Hk s. unfold mbind, M_bind, bind.
  destruct (Hm s) as [Hh Hf]. destruct (m s) as [[a | e |] s1]; simpl in *; try done.
  destruct (Hk a s1) as [Hh' Hf']. split; [congruence |].
  eapply frame_trans; [done |].
  destruct Hf as (_ & <- & _). done.
Qed.

(** After [s ← get], what follows only has to behave from the state it was
    handed. *)
Lemma keeps_get_bind {A} T (k : app → M app A) :
  (∀ s, history (snd (k s s)) = history s ∧
        frame (T (download_path s)) s (snd (k s s))) →
  keeps T (get ≫= k).
Proof. intros Hk s. apply Hk. Qed.

Lemma keeps_append_recv_log T line : keeps T (append_recv_log line).
Proof. intros s. split; [done | frame_same]. Qed.

Lemma keeps_as_dict T v : keeps T (as_dict v).
Proof. destruct v; first [apply keeps_ret | apply keeps_raise]. Qed.

Lemma keeps_as_str T v : keeps T (as_str v).
Proof. destruct v; first [apply keeps_ret | apply keeps_raise]. Qed.

Lemma keeps_py_len T v : keeps T (py_len v).
Proof. destruct v; first [apply keeps_ret | apply keeps_raise]. Qed.

Lemma keeps_py_iter T v : keeps T (py_iter v).
Proof. destruct v; first [apply keeps_ret | apply keeps_raise]. Qed.

Ltac keeps_step :=
  first [ apply keeps_bind; [| intros ?]
        | apply keeps_ret | apply keeps_raise | apply keeps_get
        | apply keeps_lift_opt | apply keeps_append_recv_log
        | apply keeps_as_dict | apply keeps_as_str
        | apply keeps_py_len | apply keeps_py_iter ].

Tactic Notation "keeps_bind" "as" simple_intropattern(x) :=
  apply keeps_bind; [| intros x].

Lemma keeps_sum_sizes T files acc : keeps T (sum_sizes files acc).
Proof.
  revert acc. induction files as [| f files IH]; intros acc; simpl.
  - keeps_step.
  - keeps_step; [keeps_step |]. keeps_step; [keeps_step |]. apply IH.
Qed.

Lemma keeps_set_conn Q c s : frame Q s (set_conn c s).
Proof. frame_same. Qed.

Lemma keeps_v3_receive_all_loop T fuel n data :
  keeps T (V3.receive_all_loop fuel n data).
Proof.
  revert data. induction fuel as [| fuel IH]; intros data s; simpl.
  - destruct (len data <? n); (split; [done | apply frame_refl]).
  - destruct (len data <? n); [| split; [done | apply frame_refl]].
    destruct (recv (conn s) (n - len data)) as [[[| b chunk] | |] c'];
      try (split; [done | apply keeps_set_conn]).
    + destruct (IH (data ++ b :: chunk) (set_conn c' s)) as [Hh Hf]. done.
    + destruct (IH data (set_conn c' s)) as [Hh Hf]. done.
Qed.

Lemma keeps_v21_receive_all_loop T fuel n data :
  keeps T (V21.receive_all_loop fuel n data).
Proof.
  revert data. induction fuel as [| fuel IH]; intros data s; simpl.
  - destruct (len data <? n); (split; [done | apply frame_refl]).
  - destruct (len data <? n); [| split; [done | apply frame_refl]].
    destruct (recv (conn s) (n - len data)) as [[[| b chunk] | |] c'];
      try (split; [done | apply keeps_set_conn]).
    destruct (IH (data ++ b :: chunk) (set_conn c' s)) as [Hh Hf]. done.
Qed.

Lemma keeps_v3_receive_all T n : keeps T (V3._receive_all n).
Proof. intros s. apply keeps_v3_receive_all_loop. Qed.

Lemma keeps_v21_receive_all T n : keeps T (V21._receive_all n).
Proof. intros s. apply keeps_v21_receive_all_loop. Qed.

Section Frames.
Context `{PyLib}.

Lemma keeps_recv_file_loop limit fuel path size hash_obj received loc :
  keeps (only path) (recv_file_loop limit fuel path size hash_obj received loc).
Proof.
  revert hash_obj received loc.
  induction fuel as [| fuel IH]; intros hash_obj received loc s; simpl.
  - destruct (received <? size); (split; [done | apply frame_refl]).
  - destruct (received <? size); [| split; [done | apply frame_refl]].
    destruct (recv (conn s) (Z.min limit (size - received))) as [[[| b chunk] | |] c'];
      try (split; [done | apply keeps_set_conn]).
    match goal with
    | |- context [recv_file_loop _ _ _ _ ?h ?r ?l ?st] =>
        destruct (IH h r l st) as [Hh Hf]
    end.
    split; [done |]. eapply frame_trans; [| exact Hf].
    repeat split; try done. intros p. simpl.
    destruct (decide (p = path)) as [-> | Hne]; [by right | left].
    by rewrite lookup_insert_ne.
Qed.

Lemma keeps_receive_file limit path size loc :
  keeps (only path) (receive_file limit path size loc).
Proof. intros s. apply keeps_recv_file_loop. Qed.

Lemma keeps_verify_file T peer rel path expected hash_obj loc :
  keeps T (verify_file peer rel path expected hash_obj loc).
Proof.
  unfold verify_file. keeps_bind as matched.
  - destruct (truthy expected); [| keeps_step]. destruct expected; keeps_step.
  - destruct matched; [| repeat keeps_step].
    keeps_step; [keeps_step |]. keeps_step; [| keeps_step].
    intros s. split; [done | frame_same].
Qed.

Lemma keeps_check_duplicate T peer rel path expected :
  keeps T (check_duplicate peer rel path expected).
Proof.
  unfold check_duplicate. keeps_step; [keeps_step |].
  destruct expected; try keeps_step.
  match goal with |- keeps _ (if ?c then _ else _) => destruct c end; keeps_step.
Qed.

Lemma keeps_open_wb path : keeps (only path) (open_wb path).
Proof.
  intros s. split; [done |]. repeat split; try done.
  intros p. simpl. destruct (decide (p = path)) as [-> | Hne]; [by right | left].
  by rewrite lookup_insert_ne.
Qed.

Lemma keeps_receive_and_verify limit peer rel path size expected loc :
  keeps (only path) (receive_and_verify limit peer rel path size expected loc).
Proof.
  unfold receive_and_verify.
  keeps_bind as u1; [apply keeps_check_duplicate |].
  keeps_bind as file_size; [keeps_step |].
  keeps_bind as u2; [keeps_step |].
  keeps_bind as u3; [apply keeps_open_wb |].
  keeps_bind as [hash_obj loc']; [apply keeps_receive_file |].
  apply keeps_verify_file.
Qed.

Lemma keeps_at {A} (T : string → string → Prop) path (m : M app A) (s : app) :
  keeps (only path) m → T (download_path s) path →
  history (snd (m s)) = history s ∧ frame (T (download_path s)) s (snd (m s)).
Proof.
  intros Hm HT. destruct (Hm s) as [Hh Hf]. split; [done |].
  eapply frame_mono; [| exact Hf]. by intros p ->.
Qed.

Lemma keeps_v3_process_file peer policy file_info loc :
  keeps v3_targets (V3.process_file peer policy file_info loc).
Proof.
  unfold V3.process_file.
  keeps_bind as kvs; [keeps_step |].
  keeps_bind as rel; [keeps_step |].
  apply keeps_get_bind. intros s.
  match goal with |- context [if ?c then _ else _] => destruct c end.
  - apply (keeps_bind v3_targets); [keeps_step | intros ?; keeps_step].
  - apply (keeps_at v3_targets (Path_str (V3.save_path (download_path s) rel)));
      [| by exists rel].
    keeps_bind as loc'; [apply keeps_receive_and_verify | keeps_step].
Qed.

Lemma keeps_v3_for_files peer files loc : keeps v3_targets (V3.for_files peer files loc).
Proof.
  revert loc. induction files as [| f files IH]; intros loc; simpl.
  - keeps_step.
  - keeps_bind as loc'; [apply keeps_v3_process_file | apply IH].
Qed.

Lemma keeps_v3_read_metadata T : keeps T V3.read_metadata.
Proof.
  unfold V3.read_metadata.
  keeps_bind as header; [apply keeps_v3_receive_all |].
  keeps_bind as header'; [keeps_step |].
  keeps_bind as n; [keeps_step |].
  match goal with |- keeps _ (if ?c then _ else _) => destruct c end; [keeps_step |].
  keeps_bind as body; [apply keeps_v3_receive_all |].
  destruct body as [[| b data] |]; try keeps_step.
  all: keeps_step.
Qed.

Lemma keeps_v21_process_file ask peer overwrite_all file_info loc :
  keeps v21_targets (V21.process_file ask peer overwrite_all file_info loc).
Proof.
  unfold V21.process_file.
  keeps_bind as kvs; [keeps_step |].
  keeps_bind as rel; [keeps_step |].
  apply keeps_get_bind. intros s.
  set (path := Path_str (V21.save_path (download_path s) rel)).
  assert (Hreceive : ∀ ow,
    let m : M app (flow * option bool * locals) :=
      if path_exists path s && negb (default false ow)
      then append_recv_log (LogSkipped rel);; mret (Next, ow, loc)
      else
        loc ← receive_and_verify (128 * 1024) peer rel path
                 (dict_get_default kvs "size" (JInt 0)) (dict_get_none kvs "sha256") loc;
        mret (Next, ow, loc) in
    history (snd (m s)) = history s ∧
    frame (v21_targets (download_path s)) s (snd (m s))).
  { intros ow m. subst m.
    match goal with |- context [if ?c then _ else _] => destruct c end.
    - apply (keeps_bind v21_targets); [keeps_step | intros ?; keeps_step].
    - apply (keeps_at v21_targets path); [| by exists rel].
      keeps_bind as loc'; [apply keeps_receive_and_verify | keeps_step]. }
  match goal with |- context [if ?c then _ else _] => destruct c end.
  - destruct (ask rel) as [[|] |]; [apply Hreceive | |].
    + apply (keeps_bind v21_targets); [keeps_step | intros ?; keeps_step].
    + apply (keeps_bind v21_targets); [| intros ?; keeps_step].
      intros s0. split; [done | frame_same].
  - apply Hreceive.
Qed.

Lemma keeps_v21_for_files ask peer overwrite_all files loc :
  keeps v21_targets (V21.for_files ask peer overwrite_all files loc).
Proof.
  revert overwrite_all loc.
  induction files as [| f files IH]; intros overwrite_all loc; simpl.
  - keeps_step.
  - keeps_bind as [[fl ow] loc']; [apply keeps_v21_process_file |].
    destruct fl; [apply IH | keeps_step].
Qed.

Lemma keeps_v21_read_metadata T : keeps T V21.read_metadata.
Proof.
  unfold V21.read_metadata.
  keeps_bind as header; [apply keeps_v21_receive_all |].
  keeps_bind as header'; [keeps_step |].
  keeps_bind as n; [keeps_step |].
  keeps_bind as body; [apply keeps_v21_receive_all |].
  repeat keeps_step.
Qed.

(** *** Stepping through a session *)

Lemma wp_bind {A B} (m : M app A) (k : A → M app B) s okP exP :
  wp m s (λ a s1, wp (k a) s1 okP exP) exP → wp (m ≫= k) s okP exP.
Proof.
  unfold wp, mbind, M_bind, bind. by destruct (m s) as [[a | e |] s1].
Qed.

Lemma wp_keeps {A} T (m : M app A) s0 s (okP : A → app → Prop) exP :
  keeps T m → total m →
  history s = history s0 → frame (T (download_path s0)) s0 s →
  (∀ a s', history s' = history s0 → frame (T (download_path s0)) s0 s' → okP a s') →
  (∀ e s', history s' = history s0 → frame (T (download_path s0)) s0 s' → exP e s') →
  wp m s okP exP.
Proof.
  intros Hm Htotal Hh Hf Hok Hex. unfold wp.
  destruct (Hm s) as [Hh' Hf']. specialize (Htotal s).
  assert (Hdl : download_path s = download_path s0) by (by destruct Hf as (_ & ? & _)).
  rewrite Hdl in Hf'.
  destruct (m s) as [[a | e |] s1]; simpl in *; [| | done].
  - apply Hok; [congruence | by eapply frame_trans].
  - apply Hex; [congruence | by eapply frame_trans].
Qed.

End Frames.

Section Sessions.
Context `{PyLib}.

Ltac wp_step T s0 a s1 :=
  apply wp_bind;
  match goal with
  | Hh : history ?s = history s0, Hf : frame _ s0 ?s |- wp _ ?s _ _ =>
      apply (wp_keeps T _ s0 s _ _);
      [ | | exact Hh | exact Hf
        | clear Hh Hf; intros a s1 Hh Hf
        | intros; by split ]
  end.

Lemma v3_session_body_spec (peer : string) (s0 : app) :
  wp (V3.session_body peer) s0
    (λ _ s', ∃ record,
       history s' = V3._add_history (history s0) record ∧
       h_direction record = Receive ∧ h_peer record = peer ∧
       (h_status record = MissionSuccess ∧ is_listening s0 = true ∨
        h_status record = MissionInterrupted) ∧
       frame (v3_targets (download_path s0)) s0 s')
    (λ _ s', history s' = history s0 ∧ frame (v3_targets (download_path s0)) s0 s').
Proof.
  pose proof (eq_refl : history s0 = history s0) as Hh.
  pose proof (frame_refl (v3_targets (download_path s0)) s0) as Hf.
  unfold V3.session_body.
  wp_step v3_targets s0 u1 s1; [keeps_step | apply append_recv_log_total |].
  wp_step v3_targets s0 metadata s2;
    [apply keeps_v3_read_metadata | apply v3_read_metadata_total |].
  wp_step v3_targets s0 kvs s3; [keeps_step | apply as_dict_total |].
  wp_step v3_targets s0 n s4; [keeps_step | apply py_len_total |].
  wp_step v3_targets s0 files s5; [keeps_step | apply py_iter_total |].
  wp_step v3_targets s0 total_size s6;
    [apply keeps_sum_sizes | apply sum_sizes_total |].
  wp_step v3_targets s0 u2 s7; [keeps_step | apply append_recv_log_total |].
  wp_step v3_targets s0 loc s8; [apply keeps_v3_for_files | apply v3_for_files_total |].
  apply wp_bind. unfold wp at 1. cbn [get fst snd].
  destruct (is_listening s8) eqn:Hlistening.
  - assert (Hl0 : is_listening s0 = true).
    { destruct Hf as (_ & _ & _ & _ & Hl & _). by apply Hl. }
    wp_step v3_targets s0 u3 s9; [keeps_step | apply append_recv_log_total |].
    unfold wp, V3.add_history, modify. eexists. split; [by rewrite <- Hh |].
    split; [done |]. split; [done |]. split; [by left |].
    eapply frame_trans; [exact Hf | frame_same].
  - wp_step v3_targets s0 u3 s9; [keeps_step | apply append_recv_log_total |].
    unfold wp, V3.add_history, modify. eexists. split; [by rewrite <- Hh |].
    split; [done |]. split; [done |]. split; [by right |].
    eapply frame_trans; [exact Hf | frame_same].
Qed.

Lemma v21_session_body_spec ask (peer : string) (s0 : app) :
  wp (V21.session_body ask peer) s0
    (λ _ s', ∃ record,
       history s' = V21._add_history (history s0) record ∧
       h_direction record = Receive ∧ h_peer record = peer ∧
       (h_status record = StatusOK ∧ is_listening s0 = true ∨
        h_status record = StatusCancelled) ∧
       frame (v21_targets (download_path s0)) s0 s')
    (λ _ s', history s' = history s0 ∧ frame (v21_targets (download_path s0)) s0 s').
Proof.
  pose proof (eq_refl : history s0 = history s0) as Hh.
  pose proof (frame_refl (v21_targets (download_path s0)) s0) as Hf.
  unfold V21.session_body.
  wp_step v21_targets s0 metadata s2;
    [apply keeps_v21_read_metadata | apply v21_read_metadata_total |].
  wp_step v21_targets s0 kvs s3; [keeps_step | apply as_dict_total |].
  wp_step v21_targets s0 n s4; [keeps_step | apply py_len_total |].
  wp_step v21_targets s0 files s5; [keeps_step | apply py_iter_total |].
  wp_step v21_targets s0 total_size s6;
    [apply keeps_sum_sizes | apply sum_sizes_total |].
  wp_step v21_targets s0 u2 s7; [keeps_step | apply append_recv_log_total |].
  wp_step v21_targets s0 loc s8;
    [apply keeps_v21_for_files | apply v21_for_files_total |].
  apply wp_bind. unfold wp at 1. cbn [get fst snd].
  destruct (is_listening s8) eqn:Hlistening.
  - assert (Hl0 : is_listening s0 = true).
    { destruct Hf as (_ & _ & _ & _ & Hl & _). by apply Hl. }
    wp_step v21_targets s0 u3 s9; [keeps_step | apply append_recv_log_total |].
    unfold wp, V21.add_history, modify. eexists. split; [by rewrite <- Hh |].
    split; [done |]. split; [done |]. split; [by left |].
    eapply frame_trans; [exact Hf | frame_same].
  - wp_step v21_targets s0 u3 s9; [keeps_step | apply append_recv_log_total |].
    unfold wp, V21.add_history, modify. eexists. split; [by rewrite <- Hh |].
    split; [done |]. split; [done |]. split; [by right |].
    eapply frame_trans; [exact Hf | frame_same].
Qed.

(** What a whole session does to the application, whatever arrives. *)
Lemma v3_session_spec (peer : string) (s : app) :
  ∃ record s',
    V3._handle_incoming_transfer peer s = (Ok tt, s') ∧
    history s' = V3._add_history (history s) record ∧
    h_direction record = Receive ∧ h_peer record = peer ∧
    (h_status record = MissionSuccess ∧ is_listening s = true ∨
     h_status record = MissionInterrupted ∨ h_status record = MissionFailed) ∧
    connection_open s' = false ∧
    download_path s' = download_path s ∧
    (∀ p, disk s' !! p = disk s !! p ∨ v3_targets (download_path s) p).
Proof.
  pose proof (v3_session_body_spec peer s) as Hbody.
  unfold V3._handle_incoming_transfer, try_except, mbind, M_bind, bind, wp in *.
  destruct (V3.session_body peer s) as [[[] | e |] s1]; [| | done].
  - destruct Hbody as (record & Hh & Hd & Hp & Hst & Hf).
    exists record. eexists. split; [reflexivity |].
    destruct Hf as (_ & Hdl & _ & _ & _ & Hk).
    repeat split; try done. destruct Hst as [? | ?]; [by left | right; by left].
  - destruct Hbody as (Hh & Hf).
    eexists. eexists. split; [reflexivity |].
    destruct Hf as (_ & Hdl & _ & _ & _ & Hk).
    cbn. rewrite Hh. repeat split; try done. right. by right.
Qed.

Lemma v21_session_spec ask (peer : string) (s : app) :
  ∃ record s',
    V21._handle_incoming_transfer ask peer s = (Ok tt, s') ∧
    history s' = V21._add_history (history s) record ∧
    h_direction record = Receive ∧ h_peer record = peer ∧
    (h_status record = StatusOK ∧ is_listening s = true ∨
     h_status record = StatusCancelled ∨ h_status record = StatusError) ∧
    connection_open s' = false ∧
    download_path s' = download_path s.
Proof.
  pose proof (v21_session_body_spec ask peer s) as Hbody.
  unfold V21._handle_incoming_transfer, try_except, mbind, M_bind, bind, wp in *.
  destruct (V21.session_body ask peer s) as [[[] | e |] s1]; [| | done].
  - destruct Hbody as (record & Hh & Hd & Hp & Hst & Hf).
    exists record. eexists. split; [reflexivity |].
    destruct Hf as (_ & Hdl & _ & _ & _ & Hk).
    repeat split; try done. destruct Hst as [? | ?]; [by left | right; by left].
  - destruct Hbody as (Hh & Hf).
    eexists. eexists. split; [reflexivity |].
    destruct Hf as (_ & Hdl & _ & _ & _ & Hk).
    cbn. rewrite Hh. repeat split; try done. right. by right.
Qed.




End Sessions.

(** ** Runs of the sender *)

Section SenderRuns.
Import Sender SendRuns.
Variables (target_ip now : string).

Lemma send_run_app (t1 t2 : list flags) (st : send_state) :
  send_run target_ip now (t1 ++ t2) st
  = send_run target_ip now t2 (send_run target_ip now t1 st).
Proof. revert st. induction t1 as [| fl t1 IH]; intros st; simpl; [done | apply IH]. Qed.

Lemma send_run_done (trace : list flags) (st : send_state) :
  pc st = SendDone → send_run target_ip now trace st = st.
Proof.
  intros Hpc. induction trace as [| fl trace IH]; simpl; [done |].
  unfold send_step. by rewrite Hpc.
Qed.

Lemma all_clear (trace : list flags) :
  Forall (λ fl, fl = clear) trace → trace = replicate (length trace) clear.
Proof. induction 1 as [| fl trace -> _ IH]; simpl; [done | by rewrite <- IH]. Qed.

Lemma run_step (fl : flags) (trace : list flags) (st st' final : send_state) :
  send_step target_ip now fl st = st' →
  send_run target_ip now trace st' = final →
  send_run target_ip now (fl :: trace) st = final.
Proof. by intros <- <-. Qed.

Lemma step_while_head (fl : flags) (st : send_state) :
  pc st = WhileHead → transfer_cancelled fl = false →
  send_step target_ip now fl st = with_pc PauseCheck st.
Proof. intros Hpc Hfl. unfold send_step. by rewrite Hpc, Hfl. Qed.

Lemma step_pause_check (fl : flags) (st : send_state) :
  pc st = PauseCheck → transfer_paused fl = false →
  send_step target_ip now fl st = with_pc ReadChunk st.
Proof. intros Hpc Hfl. unfold send_step. by rewrite Hpc, Hfl. Qed.

(** The chunk size stays a name, so that nothing counts up to it. *)
Lemma step_read_chunk (N : nat) (fl : flags) (st : send_state) :
  N = Z.to_nat (128 * 1024) → pc st = ReadChunk →
  send_step target_ip now fl st =
    let chunk := take N (unread st) in
    match chunk with
    | [] => after_file target_ip now st
    | _ =>
        {| pc := WhileHead; pending := pending st; current := current st;
           unread := drop N (unread st);
           wire := wire st ++ chunk;
           total_sent := total_sent st + len chunk;
           sock_open := sock_open st; sender_disk := sender_disk st;
           sender_hashes := sender_hashes st;
           send_status := send_status st |}
    end.
Proof. intros -> Hpc. unfold send_step. by rewrite Hpc. Qed.

Ltac unfold_state :=
  cbv beta iota delta
    [with_pc after_file pc pending current unread wire total_sent sock_open
     sender_disk sender_hashes send_status].

(** One file, from the first test of its [while True] to the update of the
    duplicate database. *)
Lemma send_one_file (content : bytes) pend cur w t so d h ss :
  ∃ k, send_run target_ip now (replicate k clear)
         {| pc := WhileHead; pending := pend; current := cur; unread := content;
            wire := w; total_sent := t; sock_open := so; sender_disk := d;
            sender_hashes := h; send_status := ss |}
       = {| pc := ForHead; pending := pend; current := None; unread := [];
            wire := w ++ content; total_sent := t + len content; sock_open := so;
            sender_disk := d;
            sender_hashes :=
              match cur with
              | Some f => DuplicateManager.add_file_hash h (sf_path f) (sf_sha256 f)
                            target_ip now
              | None => h
              end;
            send_status := ss |}.
Proof.
  remember (length content) as n eqn:Hn.
  revert content w t Hn. induction (lt_wf n) as [n _ IH]. intros content w t ->.
  remember (Z.to_nat (128 * 1024)) as N eqn:HNdef.
  assert (HN : (0 < N)%nat) by lia.
  destruct content as [| b content].
  - exists 3%nat. cbn [replicate].
    eapply run_step; [by apply step_while_head |].
    eapply run_step; [by apply step_pause_check |].
    eapply run_step; [by apply (step_read_chunk N) |].
    unfold_state. rewrite take_nil. cbn [send_run].
    rewrite app_nil_r. f_equal. unfold len. cbn [length]. lia.
  - assert (Hlt : (length (drop N (b :: content)) < length (b :: content))%nat)
      by (rewrite length_drop; cbn [length]; lia).
    destruct (IH _ Hlt (drop N (b :: content)) (w ++ take N (b :: content))
                (t + len (take N (b :: content))) eq_refl) as [k Hk].
    exists (3 + k)%nat. cbn [replicate Nat.add].
    eapply run_step; [by apply step_while_head |].
    eapply run_step; [by apply step_pause_check |].
    eapply run_step; [by apply (step_read_chunk N) |].
    unfold_state. clear HNdef Hlt IH.
    destruct N as [| N']; [lia |]. cbn [take].
    change (b :: take N' content) with (take (S N') (b :: content)).
    rewrite Hk. f_equal.
    + rewrite <- app_assoc. f_equal. apply (take_drop (S N') (b :: content)).
    + rewrite <- Z.add_assoc, <- len_app. f_equal. f_equal.
      apply (take_drop (S N') (b :: content)).
Qed.

Lemma step_for_head_open (fl : flags) (st : send_state) f rest content :
  pc st = ForHead → pending st = f :: rest → transfer_cancelled fl = false →
  sender_disk st !! sf_path f = Some content →
  send_step target_ip now fl st =
    {| pc := WhileHead; pending := rest; current := Some f;
       unread := content; wire := wire st;
       total_sent := total_sent st; sock_open := sock_open st;
       sender_disk := sender_disk st; sender_hashes := sender_hashes st;
       send_status := send_status st |}.
Proof. intros Hpc Hpend Hfl Hdisk. unfold send_step. by rewrite Hpc, Hpend, Hfl, Hdisk. Qed.

(** The files of a prefix of the list, all of them on the disk. *)
Lemma send_files_prefix (before rest : list send_file) w t disk h :
  Forall (λ f, is_Some (disk !! sf_path f)) before →
  ∃ k, send_run target_ip now (replicate k clear)
         (between_files (before ++ rest) w t disk h)
       = between_files rest (w ++ contents disk before)
           (t + len (contents disk before)) disk
           (record_sent target_ip now h before).
Proof.
  intros Hall. revert w t h.
  induction Hall as [| f before [content Hf] _ IH]; intros w t h.
  - exists 0%nat. unfold contents. simpl. rewrite app_nil_r. unfold between_files.
    f_equal. unfold len. simpl. lia.
  - destruct (send_one_file content (before ++ rest) (Some f) w t true disk h None)
      as [k1 Hk1].
    destruct (IH (w ++ content) (t + len content)
                (DuplicateManager.add_file_hash h (sf_path f) (sf_sha256 f)
                   target_ip now)) as [k2 Hk2].
    exists (1 + (k1 + k2))%nat. cbn [Nat.add replicate].
    eapply run_step.
    { apply (step_for_head_open clear _ f (before ++ rest) content); done. }
    unfold_state. cbv beta iota delta [between_files].
    rewrite replicate_add, send_run_app, Hk1.
    unfold between_files in Hk2. rewrite Hk2.
    unfold between_files, contents. cbn [map concat foldl record_sent].
    rewrite Hf. cbn [default id]. rewrite <- app_assoc, len_app. f_equal. lia.
Qed.

Lemma send_run_long (n : nat) (trace : list flags) (st final : send_state) :
  send_run target_ip now (replicate n clear) st = final → pc final = SendDone →
  (n ≤ length trace)%nat → Forall (λ fl, fl = clear) trace →
  send_run target_ip now trace st = final.
Proof.
  intros Hrun Hpc Hlen Hclear. rewrite (all_clear trace Hclear).
  replace (length trace) with (n + (length trace - n))%nat by lia.
  rewrite replicate_add, send_run_app, Hrun. by apply send_run_done.
Qed.

(** The whole list from any point between two files. *)
Lemma send_all_files (files : list send_file) (w : bytes) (t : Z)
    (disk : gmap string bytes) (hashes : gmap string (list DuplicateRecord)) :
  Forall (λ f, is_Some (disk !! sf_path f)) files →
  ∃ n, ∀ trace, (n ≤ length trace)%nat → Forall (λ fl, fl = clear) trace →
    send_run target_ip now trace (between_files files w t disk hashes)
    = end_of_send [] (w ++ contents disk files) (t + len (contents disk files)) disk
        (record_sent target_ip now hashes files) StatusOK.
Proof.
  intros Hall.
  destruct (send_files_prefix files [] w t disk hashes Hall) as [k Hk].
  rewrite app_nil_r in Hk.
  exists (k + 2)%nat. intros trace Hlen Hclear.
  apply (send_run_long (k + 2)); [| done | done | done].
  rewrite replicate_add, send_run_app, Hk. reflexivity.
Qed.

(** X10: With every file on the disk and no flag set, [_perform_send] comes to
    its end: the file bytes went out in the order of the list and nothing
    else, the count is their number, every file is in the duplicate
    database, the socket is closed and the status is OK. *)
Theorem send_completes (files : list send_file) (disk : gmap string bytes)
    (hashes : gmap string (list DuplicateRecord)) :
  Forall (λ f, is_Some (disk !! sf_path f)) files →
  ∃ n, ∀ trace, (n ≤ length trace)%nat → Forall (λ fl, fl = clear) trace →
    send_run target_ip now trace (start_of_send files disk hashes)
    = end_of_send [] (contents disk files) (len (contents disk files)) disk
        (record_sent target_ip now hashes files) StatusOK.
Proof.
  intros Hall. unfold start_of_send.
  destruct (send_all_files files [] 0 disk hashes Hall) as [n Hn].
  exists n. intros trace Hlen Hclear. by rewrite (Hn trace Hlen Hclear).
Qed.

(** X11: A file that is not on the disk ends the send with the status Error and
    the socket closed; the files before it have gone out and are in the
    duplicate database, the ones after it are not read. *)
Theorem send_stops_at_missing_file (before rest : list send_file) (f : send_file)
    (disk : gmap string bytes) (hashes : gmap string (list DuplicateRecord)) :
  Forall (λ f, is_Some (disk !! sf_path f)) before →
  disk !! sf_path f = None →
  ∃ n, ∀ trace, (n ≤ length trace)%nat → Forall (λ fl, fl = clear) trace →
    send_run target_ip now trace (start_of_send (before ++ f :: rest) disk hashes)
    = end_of_send (f :: rest) (contents disk before) (len (contents disk before))
        disk (record_sent target_ip now hashes before) StatusError.
Proof.
  intros Hall Hmissing.
  destruct (send_files_prefix before (f :: rest) [] 0 disk hashes Hall) as [k Hk].
  exists (k + 2)%nat. intros trace Hlen Hclear.
  apply (send_run_long (k + 2)); [| done | done | done].
  unfold start_of_send. rewrite replicate_add, send_run_app, Hk.
  cbn [replicate send_run]. unfold send_step at 2.
  cbv beta iota delta [between_files pc pending sender_disk clear transfer_cancelled].
  rewrite Hmissing. reflexivity.
Qed.

Lemma pressed_cancel_stays (fl : flags) (buttons : list button) :
  transfer_cancelled fl = true →
  transfer_cancelled (foldl press fl buttons) = true.
Proof.
  revert fl. induction buttons as [| b buttons IH]; intros fl Hfl; simpl; [done |].
  apply IH. by destruct b.
Qed.

(** X12: No code of v2.1 clears [transfer_cancelled]: once the Cancel button
    was pressed, whatever is pressed afterwards, a later [_perform_send]
    sends no file byte, records nothing and ends as Cancelled. *)
Theorem cancel_is_never_cleared (fl0 : flags) (trace : list flags)
    (files : list send_file) (disk : gmap string bytes)
    (hashes : gmap string (list DuplicateRecord)) :
  Forall (λ fl, ∃ buttons, fl = foldl press (press fl0 CancelButton) buttons) trace →
  (2 ≤ length trace)%nat →
  send_run target_ip now trace (start_of_send files disk hashes)
  = end_of_send files [] 0 disk hashes StatusCancelled.
Proof.
  intros Hall Hlen.
  assert (Hcancelled : Forall (λ fl, transfer_cancelled fl = true) trace).
  { eapply Forall_impl; [exact Hall |]. intros fl [buttons ->].
    by apply pressed_cancel_stays. }
  destruct trace as [| fl1 [| fl2 trace]]; simpl in Hlen; [lia | lia |].
  apply Forall_cons in Hcancelled as [H1 Hcancelled].
  apply Forall_cons in Hcancelled as [H2 _].
  cbn [send_run].
  assert (Hstep1 : send_step target_ip now fl1 (start_of_send files disk hashes)
                   = with_pc Completion (start_of_send files disk hashes)).
  { unfold send_step, start_of_send, between_files. cbn [pc pending].
    destruct files; [done |]. by rewrite H1. }
  rewrite Hstep1. unfold send_step at 1. cbn [pc with_pc]. rewrite H2.
  apply send_run_done. done.
Qed.

(** X13: A cancel that the sender sees inside a file makes it stop reading the
    file, and the file is still put into the duplicate database: the bytes
    left in [unread] never go out, yet the same file is from then on
    reported as already sent to this peer. *)
Theorem cancel_inside_file_still_records (st : send_state) (f : send_file)
    (trace : list flags) :
  pc st = WhileHead → current st = Some f →
  Forall (λ fl, transfer_cancelled fl = true) trace → (3 ≤ length trace)%nat →
  let st' := send_run target_ip now trace st in
  pc st' = SendDone ∧ send_status st' = Some StatusCancelled ∧
  wire st' = wire st ∧
  fst (DuplicateManager.is_duplicate (sender_hashes st')
         (sf_path f) (sf_sha256 f) target_ip) = true.
Proof.
  intros Hpc Hcur Hall Hlen st'. subst st'.
  destruct trace as [| fl1 [| fl2 [| fl3 trace]]]; simpl in Hlen; try lia.
  apply Forall_cons in Hall as [H1 Hall].
  apply Forall_cons in Hall as [H2 Hall].
  apply Forall_cons in Hall as [H3 _].
  cbn [send_run].
  assert (Hstep1 : send_step target_ip now fl1 st = after_file target_ip now st).
  { unfold send_step. by rewrite Hpc, H1. }
  rewrite Hstep1.
  assert (Hstep2 : send_step target_ip now fl2 (after_file target_ip now st)
                   = with_pc Completion (after_file target_ip now st)).
  { unfold send_step. cbn [pc after_file pending]. destruct (pending st); [done |].
    by rewrite H2. }
  rewrite Hstep2.
  assert (Hstep3 : send_step target_ip now fl3
                     (with_pc Completion (after_file target_ip now st))
                   = end_of_send (pending st) (wire st) (total_sent st)
                       (sender_disk st)
                       (DuplicateManager.add_file_hash (sender_hashes st)
                          (sf_path f) (sf_sha256 f) target_ip now)
                       StatusCancelled).
  { unfold send_step, after_file. rewrite Hcur. unfold_state. by rewrite H3. }
  rewrite Hstep3, send_run_done by done.
  unfold end_of_send. cbn [pc send_status wire sender_hashes]. repeat split.
  destruct (is_duplicate_after_add (sender_hashes st) (sf_path f) (sf_sha256 f)
              target_ip now (sf_path f) eq_refl) as (e & -> & _).
  done.
Qed.

End SenderRuns.

(** ** From the sender's disk to the receiver's *)

Section EndToEnd.
Context `{PyLib}.
Import Sender SendRuns.

Lemma bind_ok {A B} (m : M app A) (k : A → M app B) (s : app) a s1 :
  m s = (Ok a, s1) → (m ≫= k) s = k a s1.
Proof. intros Hm. unfold mbind, M_bind, bind. by rewrite Hm. Qed.

Lemma sum_sizes_manifest (files : list send_file) (acc : Z) (s : app) :
  sum_sizes (map manifest_entry files) acc s = (Ok (acc + sum_of_sizes files), s).
Proof.
  revert acc. induction files as [| f files IH]; intros acc; simpl.
  - unfold mret, M_ret, ret. do 2 f_equal. lia.
  - unfold mbind, M_bind, bind. simpl. rewrite IH. do 2 f_equal. lia.
Qed.

Lemma digest_matches_own (content : bytes) :
  sha256_hexdigest content ≠ "" →
  digest_matches content (sha256_hexdigest content) = true.
Proof.
  intros Hne. unfold digest_matches. apply String.eqb_neq in Hne.
  by rewrite Hne, String.eqb_refl.
Qed.

(** What receiving and verifying a file does to every part of the
    application. *)
Lemma receive_and_verify_honest (limit : Z) (peer rel path : string)
    (content tail : bytes) (loc : locals) (s : app) :
  1 ≤ limit → sha256_hexdigest content ≠ "" →
  delivered (conn s) = content ++ tail →
  ∃ s',
    receive_and_verify limit peer rel path (JInt (len content))
      (JStr (sha256_hexdigest content)) loc s
      = (Ok {| verified_count := verified_count loc + 1;
               bytes_completed := bytes_completed loc + len content;
               files_completed := files_completed loc |}, s') ∧
    disk s' = <[path := content]> (disk s) ∧
    file_hashes s' =
      DuplicateManager.add_file_hash (file_hashes s) path (sha256_hexdigest content)
        peer (clock s) ∧
    delivered (conn s') = tail ∧
    history s' = history s ∧ is_listening s' = is_listening s ∧
    download_path s' = download_path s ∧ clock s' = clock s ∧
    connection_open s' = connection_open s.
Proof.
  intros Hlimit Hne Hdel.
  destruct (receive_and_verify_complete limit peer rel path (sha256_hexdigest content)
              content tail loc s Hlimit Hdel)
    as (loc' & s' & Hrun & Hdisk & Hconn & Hdl & Hl & Hh & Hb & Hf & Hverdict).
  rewrite digest_matches_own in Hverdict by done. destruct Hverdict as [Hv Hhashes].
  destruct (keeps_receive_and_verify limit peer rel path (JInt (len content))
              (JStr (sha256_hexdigest content)) loc s) as [_ Hframe].
  rewrite Hrun in Hframe. destruct Hframe as (Hopen & _ & _ & Hclock & _).
  exists s'. rewrite Hrun. destruct loc' as [v b fc]. simpl in *. subst v b fc.
  repeat split; done.
Qed.

Lemma v3_process_file_honest (peer : string) (sender_disk : gmap string bytes)
    (f : send_file) (tail : bytes) (loc : locals) (s : app) :
  honest sender_disk f →
  delivered (conn s) = default [] (sender_disk !! sf_path f) ++ tail →
  let path := Path_str (V3.save_path (download_path s) (sf_rel f)) in
  ∃ s',
    V3.process_file peer None (manifest_entry f) loc s
      = (Ok {| verified_count := verified_count loc + 1;
               bytes_completed :=
                 bytes_completed loc + len (default [] (sender_disk !! sf_path f));
               files_completed := files_completed loc + 1 |}, s') ∧
    disk s' = <[path := default [] (sender_disk !! sf_path f)]> (disk s) ∧
    file_hashes s' =
      DuplicateManager.add_file_hash (file_hashes s) path (sf_sha256 f) peer (clock s) ∧
    delivered (conn s') = tail ∧
    history s' = history s ∧ is_listening s' = is_listening s ∧
    download_path s' = download_path s ∧ clock s' = clock s ∧
    connection_open s' = connection_open s.
Proof.
  intros (content & Hfile & Hsize & Hsha & Hne & Hrel) Hdel path.
  rewrite Hfile in *. cbn [default id] in *.
  rewrite Hsha in Hne.
  destruct (receive_and_verify_honest V3.CHUNK_SIZE peer (sf_rel f) path content tail
              loc s) as (s' & Hrun & Hrest); [done | done | done |].
  exists s'. split; [| by rewrite Hsha].
  unfold V3.process_file, manifest_entry, mbind, M_bind, bind. simpl as_dict.
  unfold mret, M_ret, ret.
  rewrite (py_or_name _ (sf_rel f)) by done. simpl as_str. unfold mret, M_ret, ret, get.
  rewrite bool_decide_eq_false_2, andb_false_r by done.
  change (dict_get_default _ "size" (JInt 0)) with (JInt (sf_size f)).
  change (dict_get_none _ "sha256") with (JStr (sf_sha256 f)).
  fold path. rewrite Hsize, Hsha, Hrun. done.
Qed.

Lemma v3_for_files_honest (peer : string) (sender_disk : gmap string bytes)
    (files : list send_file) (tail : bytes) (loc : locals) (s : app) :
  Forall (honest sender_disk) files →
  delivered (conn s) = contents sender_disk files ++ tail →
  let dest := λ rel, Path_str (V3.save_path (download_path s) rel) in
  ∃ s',
    V3.for_files peer (map manifest_entry files) loc s
      = (Ok {| verified_count := verified_count loc + len files;
               bytes_completed := bytes_completed loc + len (contents sender_disk files);
               files_completed := files_completed loc + len files |}, s') ∧
    disk s' = received_disk dest sender_disk (disk s) files ∧
    file_hashes s' = received_hashes dest peer (clock s) (file_hashes s) files ∧
    delivered (conn s') = tail ∧
    history s' = history s ∧ is_listening s' = is_listening s ∧
    download_path s' = download_path s ∧ clock s' = clock s ∧
    connection_open s' = connection_open s.
Proof.
  intros Hall. revert loc s.
  induction Hall as [| f files Hf _ IH]; intros loc s Hdel dest.
  - exists s. simpl. unfold mret, M_ret, ret. split; [| done].
    destruct loc. unfold contents, len. simpl. do 3 f_equal; lia.
  - unfold contents in Hdel. simpl in Hdel. rewrite <- app_assoc in Hdel.
    destruct (v3_process_file_honest peer sender_disk f _ loc s Hf Hdel)
      as (s1 & Hrun1 & Hdisk1 & Hhash1 & Hdel1 & Hh1 & Hl1 & Hdl1 & Hc1 & Ho1).
    destruct (IH {| verified_count := verified_count loc + 1;
                    bytes_completed :=
                      bytes_completed loc + len (default [] (sender_disk !! sf_path f));
                    files_completed := files_completed loc + 1 |} s1 Hdel1)
      as (s2 & Hrun2 & Hdisk2 & Hhash2 & Hdel2 & Hh2 & Hl2 & Hdl2 & Hc2 & Ho2).
    exists s2. split.
    + cbn [map V3.for_files]. unfold mbind at 1, M_bind, bind. rewrite Hrun1, Hrun2.
      cbn [verified_count bytes_completed files_completed].
      unfold contents. cbn [map concat]. rewrite !len_app.
      unfold len. cbn [length]. do 3 f_equal; lia.
    + rewrite Hdisk2, Hhash2, Hdisk1, Hhash1, Hdl1, Hc1.
      repeat split; try done; congruence.
Qed.

Lemma v21_process_file_honest (ask : string → option bool) (peer : string)
    (sender_disk : gmap string bytes) (overwrite_all : option bool)
    (f : send_file) (tail : bytes) (loc : locals) (s : app) :
  (∀ name, ask name = Some true) → overwrite_all ≠ Some false →
  honest sender_disk f →
  delivered (conn s) = default [] (sender_disk !! sf_path f) ++ tail →
  let path := Path_str (V21.save_path (download_path s) (sf_rel f)) in
  ∃ overwrite_all' s',
    overwrite_all' ≠ Some false ∧
    V21.process_file ask peer overwrite_all (manifest_entry f) loc s
      = (Ok (Next, overwrite_all',
             {| verified_count := verified_count loc + 1;
                bytes_completed :=
                  bytes_completed loc + len (default [] (sender_disk !! sf_path f));
                files_completed := files_completed loc |}), s') ∧
    disk s' = <[path := default [] (sender_disk !! sf_path f)]> (disk s) ∧
    file_hashes s' =
      DuplicateManager.add_file_hash (file_hashes s) path (sf_sha256 f) peer (clock s) ∧
    delivered (conn s') = tail ∧
    history s' = history s ∧ is_listening s' = is_listening s ∧
    download_path s' = download_path s ∧ clock s' = clock s ∧
    connection_open s' = connection_open s.
Proof.
  intros Hyes How (content & Hfile & Hsize & Hsha & Hne & Hrel) Hdel path.
  rewrite Hfile in *. cbn [default id] in *.
  rewrite Hsha in Hne.
  destruct (receive_and_verify_honest (128 * 1024) peer (sf_rel f) path content tail
              loc s) as (s' & Hrun & Hrest); [done | done | done |].
  assert (Hgo : ∀ ow : option bool,
    ((done ← receive_and_verify (128 * 1024) peer (sf_rel f) path
               (JInt (sf_size f)) (JStr (sf_sha256 f)) loc;
      mret (Next, ow, done)) : M app (flow * option bool * locals)) s
    = (Ok (Next, ow,
           {| verified_count := verified_count loc + 1;
              bytes_completed := bytes_completed loc + len content;
              files_completed := files_completed loc |}), s')).
  { intros ow. unfold mbind, M_bind, bind. by rewrite Hsize, Hsha, Hrun. }
  unfold mbind, M_bind, bind, mret, M_ret, ret in Hgo.
  assert (Hprocess : ∃ ow', ow' ≠ Some false ∧
    V21.process_file ask peer overwrite_all (manifest_entry f) loc s
      = (Ok (Next, ow',
             {| verified_count := verified_count loc + 1;
                bytes_completed := bytes_completed loc + len content;
                files_completed := files_completed loc |}), s')).
  { unfold V21.process_file, manifest_entry, mbind, M_bind, bind. simpl as_dict.
    unfold mret, M_ret, ret.
    rewrite (py_or_name _ (sf_rel f)) by done. simpl as_str.
    unfold mret, M_ret, ret, get.
    change (dict_get_default _ "size" (JInt 0)) with (JInt (sf_size f)).
    change (dict_get_none _ "sha256") with (JStr (sf_sha256 f)).
    fold path.
    destruct overwrite_all as [[|] |]; [| done |].
    - rewrite (bool_decide_eq_false_2 (Some true = None)), andb_false_r by done.
      cbn [default negb]. rewrite andb_false_r, Hgo. by exists (Some true).
    - rewrite bool_decide_eq_true_2, andb_true_r by done.
      destruct (path_exists path s); cbn [andb].
      + rewrite Hyes. cbn [default negb andb id]. rewrite Hgo. by exists (Some true).
      + rewrite Hgo. by exists None. }
  destruct Hprocess as (ow' & How' & Hprocess).
  exists ow', s'. split; [done |]. split; [done |]. by rewrite Hsha.
Qed.

Lemma v21_for_files_honest (ask : string → option bool) (peer : string)
    (sender_disk : gmap string bytes) (overwrite_all : option bool)
    (files : list send_file) (tail : bytes) (loc : locals) (s : app) :
  (∀ name, ask name = Some true) → overwrite_all ≠ Some false →
  Forall (honest sender_disk) files →
  delivered (conn s) = contents sender_disk files ++ tail →
  let dest := λ rel, Path_str (V21.save_path (download_path s) rel) in
  ∃ s',
    V21.for_files ask peer overwrite_all (map manifest_entry files) loc s
      = (Ok {| verified_count := verified_count loc + len files;
               bytes_completed := bytes_completed loc + len (contents sender_disk files);
               files_completed := files_completed loc |}, s') ∧
    disk s' = received_disk dest sender_disk (disk s) files ∧
    file_hashes s' = received_hashes dest peer (clock s) (file_hashes s) files ∧
    delivered (conn s') = tail ∧
    history s' = history s ∧ is_listening s' = is_listening s ∧
    download_path s' = download_path s ∧ clock s' = clock s ∧
    connection_open s' = connection_open s.
Proof.
  intros Hyes How Hall. revert overwrite_all How loc s.
  induction Hall as [| f files Hf _ IH]; intros overwrite_all How loc s Hdel dest.
  - exists s. simpl. unfold mret, M_ret, ret. split; [| done].
    destruct loc. unfold contents, len. simpl. do 3 f_equal; lia.
  - unfold contents in Hdel. simpl in Hdel. rewrite <- app_assoc in Hdel.
    destruct (v21_process_file_honest ask peer sender_disk overwrite_all f _ loc s
                Hyes How Hf Hdel)
      as (ow1 & s1 & How1 & Hrun1 & Hdisk1 & Hhash1 & Hdel1 & Hh1 & Hl1 & Hdl1 & Hc1 & Ho1).
    destruct (IH ow1 How1
                {| verified_count := verified_count loc + 1;
                   bytes_completed :=
                     bytes_completed loc + len (default [] (sender_disk !! sf_path f));
                   files_completed := files_completed loc |} s1 Hdel1)
      as (s2 & Hrun2 & Hdisk2 & Hhash2 & Hdel2 & Hh2 & Hl2 & Hdl2 & Hc2 & Ho2).
    exists s2. split.
    + cbn [map V21.for_files]. unfold mbind at 1, M_bind, bind. rewrite Hrun1, Hrun2.
      cbn [verified_count bytes_completed files_completed].
      unfold contents. cbn [map concat]. rewrite !len_app.
      unfold len. cbn [length]. do 3 f_equal; lia.
    + rewrite Hdisk2, Hhash2, Hdisk1, Hhash1, Hdl1, Hc1.
      repeat split; try done; congruence.
Qed.

(** The header read back, by either revision. *)
Lemma read_metadata_sent (files : list send_file) (header tail : bytes) (s : app) :
  utf8_decode (utf8_encode (json_dumps (metadata_of files))) =
    Some (json_dumps (metadata_of files)) →
  json_loads (json_dumps (metadata_of files)) = Some (metadata_of files) →
  encode_header files = Some header →
  delivered (conn s) = header ++ tail →
  (∃ c', V21.read_metadata s = (Ok (metadata_of files), set_conn c' s) ∧
         delivered c' = tail) ∧
  (0 < len (utf8_encode (json_dumps (metadata_of files))) ≤ 10 * 1024 * 1024 →
   ∃ c', V3.read_metadata s = (Ok (metadata_of files), set_conn c' s) ∧
         delivered c' = tail).
Proof.
  intros Hutf8 Hjson Henc Hdel.
  unfold encode_header in Henc.
  set (metadata_bytes := utf8_encode (json_dumps (metadata_of files))) in *.
  destruct (struct_pack_I (len metadata_bytes)) as [packed |] eqn:Hpack;
    [| discriminate].
  simpl in Henc. injection Henc as <-.
  apply struct_unpack_pack in Hpack as [Hunpack Hfour].
  split.
  - destruct (v21_receive_all_delivers 4 packed (metadata_bytes ++ tail) s)
      as (c1 & Hrun1 & Hdel1).
    { by rewrite Hdel, <- app_assoc. }
    { unfold len. lia. }
    destruct (v21_receive_all_delivers (len metadata_bytes) metadata_bytes tail
                (set_conn c1 s)) as (c2 & Hrun2 & Hdel2); [done | done |].
    exists c2. split; [| done].
    unfold V21.read_metadata, mbind, M_bind, bind.
    rewrite Hrun1. simpl. rewrite Hunpack. simpl.
    rewrite Hrun2. simpl. fold metadata_bytes. rewrite Hutf8. simpl.
    by rewrite Hjson.
  - intros [Hpos Hmax].
    destruct (v3_receive_all_delivers 4 packed (metadata_bytes ++ tail) s)
      as (c1 & Hrun1 & Hdel1).
    { by rewrite Hdel, <- app_assoc. }
    { unfold len. lia. }
    destruct (v3_receive_all_delivers (len metadata_bytes) metadata_bytes tail
                (set_conn c1 s)) as (c2 & Hrun2 & Hdel2); [done | done |].
    exists c2. split; [| done].
    unfold V3.read_metadata, mbind, M_bind, bind.
    rewrite Hrun1. simpl lift_opt. unfold ret at 1. rewrite Hunpack.
    simpl lift_opt. unfold ret at 1.
    destruct (10 * 1024 * 1024 <? len metadata_bytes) eqn:Hbig;
      [apply Z.ltb_lt in Hbig; lia |].
    rewrite Hrun2.
    destruct metadata_bytes as [| b rest] eqn:Hmb; [unfold len in Hpos; simpl in Hpos; lia |].
    rewrite Hutf8. simpl. by rewrite Hjson.
Qed.

Lemma honest_on_disk (sender_disk : gmap string bytes) (files : list send_file) :
  Forall (honest sender_disk) files →
  Forall (λ f, is_Some (sender_disk !! sf_path f)) files.
Proof.
  intros Hall. eapply Forall_impl; [exact Hall |].
  intros f (content & Hfile & _). by exists content.
Qed.

Lemma received_disk_last (dest : string → string) (sender_disk disk : gmap string bytes)
    (before after : list send_file) (f : send_file) :
  (∀ g, g ∈ after → dest (sf_rel g) ≠ dest (sf_rel f)) →
  received_disk dest sender_disk disk (before ++ f :: after) !! dest (sf_rel f)
  = Some (default [] (sender_disk !! sf_path f)).
Proof.
  intros Hafter. unfold received_disk. rewrite foldl_app. cbn [foldl].
  generalize (foldl (λ d g, <[dest (sf_rel g) := default [] (sender_disk !! sf_path g)]> d)
                disk before).
  intros d0.
  assert (Hstart : <[dest (sf_rel f) := default [] (sender_disk !! sf_path f)]> d0
                     !! dest (sf_rel f)
                   = Some (default [] (sender_disk !! sf_path f)))
    by apply lookup_insert_eq.
  revert Hstart.
  generalize (<[dest (sf_rel f) := default [] (sender_disk !! sf_path f)]> d0).
  induction after as [| g after IH]; intros d Hd; [done |].
  cbn [foldl]. apply IH.
  - intros g' Hin. apply Hafter. by apply list_elem_of_further.
  - rewrite lookup_insert_ne; [done |]. apply Hafter, list_elem_of_here.
Qed.

Lemma received_disk_elsewhere (dest : string → string)
    (sender_disk disk : gmap string bytes) (files : list send_file) (p : string) :
  (∀ g, g ∈ files → dest (sf_rel g) ≠ p) →
  received_disk dest sender_disk disk files !! p = disk !! p.
Proof.
  unfold received_disk. revert disk.
  induction files as [| g files IH]; intros disk Hnot; [done |].
  cbn [foldl]. rewrite IH.
  - rewrite lookup_insert_ne; [done |]. apply Hnot, list_elem_of_here.
  - intros g' Hin. apply Hnot. by apply list_elem_of_further.
Qed.



End EndToEnd.

(** ** Gathering the files to send *)

Lemma split_on_parts_no_sep (sep : ascii) (s : string) :
  Forall (λ c, contains sep c = false) (split_on sep s).
Proof.
  induction s as [| c rest IH]; simpl.
  - by repeat constructor.
  - destruct (Ascii.eqb c sep) eqn:Hc; [by constructor |].
    destruct (split_on sep rest) as [| h t].
    + repeat constructor. simpl. by rewrite Hc.
    + apply Forall_cons in IH as [Hh Ht]. constructor; [| done].
      simpl. by rewrite Hc.
Qed.

Lemma Path_name_no_slash (p : string) : contains "/" (Path_name (Path_of p)) = false.
Proof.
  unfold Path_name, Path_of. cbn [p_parts].
  assert (Hparts : Forall (λ c, contains "/" c = false)
                     (filter (λ c, is_part c = true) (split_on "/" p))).
  { apply Forall_forall. intros c Hin. apply list_elem_of_filter in Hin as [_ Hin].
    revert c Hin. apply Forall_forall, split_on_parts_no_sep. }
  induction Hparts as [| c [| c' parts] Hc Hrest IH]; simpl in *; done.
Qed.

Section GatherFacts.
Context `{PyLib}.
Import SendRuns.

Lemma sha256_loop_reads_all (fuel chunk_size : nat) (unread hash_obj : bytes) :
  (0 < chunk_size)%nat → (length unread < fuel)%nat →
  sha256_loop fuel chunk_size unread hash_obj = Some (hash_obj ++ unread).
Proof.
  intros Hchunk. revert unread hash_obj.
  induction fuel as [| fuel IH]; intros unread hash_obj Hfuel; [lia |].
  cbn [sha256_loop].
  destruct unread as [| b unread].
  - rewrite take_nil. by rewrite app_nil_r.
  - destruct chunk_size as [| n]; [lia |]. cbn [take].
    change (b :: take n unread) with (take (S n) (b :: unread)).
    rewrite IH.
    + by rewrite <- app_assoc, take_drop.
    + rewrite length_drop. simpl in *. lia.
Qed.

(** X16: Read in pieces of any positive size, a file gets the digest of its
    whole content: every byte is fed to the digest once and in order. *)
Theorem sha256_of_file_is_digest_of_content (content : bytes) (chunk_size : nat) :
  (0 < chunk_size)%nat →
  _sha256_of_file content chunk_size = Some (sha256_hexdigest content).
Proof.
  intros Hchunk. unfold _sha256_of_file.
  rewrite sha256_loop_reads_all by (done || lia). done.
Qed.

Lemma gather_loop_spec (disk : gmap string bytes) (selected_paths : list string)
    (files : list send_file) (total_size : Z) :
  ∃ new,
    gather_loop disk selected_paths files total_size
      = Some (files ++ new, total_size + sum_of_sizes new) ∧
    sum_of_sizes new = len (contents disk new) ∧
    map sf_path new =
      filter (λ p, is_Some (disk !! p))
        (map (λ p, Path_str (Path_of p)) selected_paths) ∧
    Forall (true_entry disk) new.
Proof.
  revert files total_size.
  induction selected_paths as [| p rest IH]; intros files total_size.
  - exists []. cbn [gather_loop]. rewrite app_nil_r. cbn.
    split; [do 2 f_equal; lia |]. done.
  - cbn [gather_loop map].
    destruct (disk !! Path_str (Path_of p)) as [content |] eqn:Hfile.
    + unfold _sha256_of_file. rewrite sha256_loop_reads_all by lia.
      cbn [mbind option_bind]. rewrite app_nil_l.
      destruct (IH (files ++ [{| sf_path := Path_str (Path_of p);
                                 sf_rel := Path_name (Path_of p);
                                 sf_size := len content;
                                 sf_sha256 := sha256_hexdigest content |}])
                  (total_size + len content))
        as (new & -> & Hsum & Hpaths & Hall).
      exists ({| sf_path := Path_str (Path_of p); sf_rel := Path_name (Path_of p);
                 sf_size := len content;
                 sf_sha256 := sha256_hexdigest content |} :: new).
      rewrite <- app_assoc, <- cons_middle.
      split; [do 2 f_equal; cbn [sum_of_sizes foldr sf_size]; unfold sum_of_sizes; lia |].
      split.
      { unfold contents in *. cbn [map concat sum_of_sizes foldr sf_size sf_path].
        rewrite Hfile. cbn [default id]. rewrite len_app.
        unfold sum_of_sizes in Hsum. lia. }
      split.
      { rewrite filter_cons_True by (by rewrite Hfile). cbn [map sf_path].
        by rewrite Hpaths. }
      constructor; [| done]. exists content. cbn.
      repeat split; try done. apply Path_name_no_slash.
    + destruct (IH files total_size) as (new & -> & Hsum & Hpaths & Hall).
      exists new. split; [done |]. split; [done |]. split; [| done].
      rewrite filter_cons_False; [done |]. rewrite Hfile. by intros [? ?].
Qed.

(** X17: [_gather_files_for_send] tells the truth about the disk it reads: it
    lists the selected paths that are files, in the order of the selection
    and leaving out the others; each entry has the length and the SHA-256
    of the file's content and a name without a slash; and [total_size] is
    the number of bytes of all these files. *)
Theorem gathered_manifest_is_true (disk : gmap string bytes)
    (selected_paths : list string) :
  ∃ files,
    _gather_files_for_send disk selected_paths = Some (files, sum_of_sizes files) ∧
    sum_of_sizes files = len (contents disk files) ∧
    map sf_path files =
      filter (λ p, is_Some (disk !! p))
        (map (λ p, Path_str (Path_of p)) selected_paths) ∧
    Forall (λ f, ∃ content,
              disk !! sf_path f = Some content ∧
              sf_size f = len content ∧
              sf_sha256 f = sha256_hexdigest content ∧
              contains "/" (sf_rel f) = false) files.
Proof.
  destruct (gather_loop_spec disk selected_paths [] 0) as (new & Hrun & Hrest).
  exists new. by rewrite Z.add_0_l in Hrun.
Qed.

End GatherFacts.

(** ** The duplicate check before a send *)

Lemma last_n_last_n {A} (n m : nat) (l : list A) :
  (n ≤ m)%nat → last_n n (last_n m l) = last_n n l.
Proof.
  intros Hle. unfold last_n. rewrite length_drop, drop_drop. f_equal. lia.
Qed.

Lemma last_n_mono {A} (n m : nat) (l : list A) (x : A) :
  (n ≤ m)%nat → x ∈ last_n n l → x ∈ last_n m l.
Proof.
  intros Hle Hin. rewrite <- (last_n_last_n n m) in Hin by done.
  by apply last_n_subseteq in Hin.
Qed.

Section ResendFacts.
Import DuplicateManager SendRuns.
Variables (target_ip now : string).

(** A record among the last [m] of its key is among the last [m + 1] after
    one more [add_file_hash], whatever is added. *)
Lemma recent_after_add (s : store) (k : string) (e : DuplicateRecord) (m : nat)
    (path h peer : string) :
  (m < 1000)%nat → e ∈ last_n m (records s k) →
  e ∈ last_n (S m) (records (add_file_hash s path h peer now) k).
Proof.
  intros Hm Hin. destruct (decide (k = key_of path h)) as [-> | Hne].
  - rewrite add_file_hash_records, last_n_last_n by lia.
    rewrite last_n_snoc by lia. apply elem_of_app. left.
    by replace (S m - 1)%nat with m by lia.
  - rewrite add_file_hash_other by done. apply (last_n_mono m); [lia | done].
Qed.

Lemma recent_after_send (later : list send_file) (s : store) (k : string)
    (e : DuplicateRecord) (m : nat) :
  (m + length later ≤ 1000)%nat → e ∈ last_n m (records s k) →
  e ∈ last_n (m + length later) (records (record_sent target_ip now s later) k).
Proof.
  revert s m. induction later as [| g later IH]; intros s m Hm Hin; simpl in *.
  - by rewrite Nat.add_0_r.
  - replace (m + S (length later))%nat with (S m + length later)%nat by lia.
    apply IH; [lia |]. apply recent_after_add; [lia | done].
Qed.

Lemma sent_file_is_duplicate (hashes : store) (before after : list send_file)
    (f : send_file) :
  (length (before ++ f :: after) ≤ 1000)%nat →
  fst (is_duplicate (record_sent target_ip now hashes (before ++ f :: after))
         (sf_path f) (sf_sha256 f) target_ip) = true.
Proof.
  intros Hlen. rewrite length_app in Hlen. simpl in Hlen.
  unfold record_sent. rewrite foldl_app. cbn [foldl].
  fold (record_sent target_ip now hashes before).
  set (s1 := record_sent target_ip now hashes before).
  set (e := {| dr_path := sf_path f; dr_hash := sf_sha256 f; dr_peer := target_ip;
               dr_timestamp := now |}).
  assert (Hin : e ∈ last_n 1 (records
                  (add_file_hash s1 (sf_path f) (sf_sha256 f) target_ip now)
                  (key_of (sf_path f) (sf_sha256 f)))).
  { rewrite add_file_hash_records, last_n_last_n by lia.
    rewrite last_n_snoc by lia. apply elem_of_app. right. apply list_elem_of_here. }
  apply (recent_after_send after) in Hin; [| lia].
  apply last_n_subseteq in Hin.
  destruct (find_match_found _ (sf_sha256 f) target_ip e Hin eq_refl eq_refl)
    as (e' & Hfound & _).
  unfold is_duplicate.
  change (default [] (?m !! ?k)) with (records m k).
  fold (record_sent target_ip now
          (add_file_hash s1 (sf_path f) (sf_sha256 f) target_ip now) after).
  by rewrite Hfound.
Qed.

(** X18: [_check_send_duplicates] cancels nothing without asking: when no file
    is a duplicate for the target its answer is [False] and the user is
    not asked.  And after a send of up to 1000 files to a peer has run to
    its end, the same files sent to that peer again are all found as
    duplicates: the user is asked about every one of them, and the answer
    is the opposite of what the user says. *)
Theorem check_send_duplicates_asks (hashes : store) (askyesno : Z → bool)
    (files : list send_file) :
  (Forall (λ f, fst (is_duplicate hashes (sf_path f) (sf_sha256 f) target_ip) = false)
     files →
   _check_send_duplicates hashes askyesno files target_ip = false) ∧
  (files ≠ [] → (length files ≤ 1000)%nat →
   _check_send_duplicates (record_sent target_ip now hashes files) askyesno files
     target_ip = negb (askyesno (len files))).
Proof.
  split.
  - intros Hnone. unfold _check_send_duplicates.
    replace (filter _ files) with (@nil send_file); [done |].
    symmetry. induction Hnone as [| f files Hf _ IH]; [done |].
    rewrite filter_cons_False; [done |]. by rewrite Hf.
  - intros Hne Hlen. unfold _check_send_duplicates.
    assert (Hall : Forall (λ f, fst (is_duplicate
                     (record_sent target_ip now hashes files)
                     (sf_path f) (sf_sha256 f) target_ip) = true) files).
    { apply Forall_forall. intros f Hin.
      apply list_elem_of_split in Hin as (before & after & ->).
      by apply sent_file_is_duplicate. }
    generalize dependent (record_sent target_ip now hashes files). intros s Hall.
    replace (filter _ files) with files.
    + by destruct files.
    + clear Hne Hlen. induction Hall as [| f files Hf _ IH]; [done |].
      rewrite filter_cons_True by done. by f_equal.
Qed.

End ResendFacts.

(** ** The selection of files to send *)

Section SelectionFacts.
Import Selection.

Lemma select_loop_spec (files selected_paths : list string) (added duplicates : Z) :
  ∃ new skipped,
    select_loop files selected_paths added duplicates
      = (selected_paths ++ new, added + len new, duplicates + skipped) ∧
    len new + skipped = len files ∧ 0 ≤ skipped ∧
    (NoDup selected_paths → NoDup (selected_paths ++ new)) ∧
    (∀ p, p ∈ selected_paths ++ new ↔ p ∈ selected_paths ∨ p ∈ files).
Proof.
  revert selected_paths added duplicates.
  induction files as [| f files IH]; intros selected_paths added duplicates.
  - exists [], 0. cbn [select_loop]. rewrite app_nil_r, !Z.add_0_r.
    repeat split; try done.
    + by left.
    + intros [? | Hin]; [done | by apply elem_of_nil in Hin].
  - cbn [select_loop]. destruct (bool_decide (f ∈ selected_paths)) eqn:Hin.
    + apply bool_decide_eq_true in Hin.
      destruct (IH selected_paths added (duplicates + 1))
        as (new & skipped & -> & Hcount & Hpos & Hnodup & Hmem).
      exists new, (skipped + 1). split; [f_equal; lia |].
      split; [unfold len in *; cbn [length]; lia |]. split; [lia |].
      split; [done |].
      intros p. rewrite Hmem, elem_of_cons. split.
      * intros [? | ?]; [by left | right; by right].
      * intros [? | [-> | ?]]; [by left | by left | by right].
    + apply bool_decide_eq_false in Hin.
      destruct (IH (selected_paths ++ [f]) (added + 1) duplicates)
        as (new & skipped & -> & Hcount & Hpos & Hnodup & Hmem).
      exists (f :: new), skipped. rewrite <- app_assoc.
      change ([f] ++ new) with (f :: new).
      split; [f_equal; f_equal; unfold len; cbn [length]; lia |].
      split; [unfold len in *; cbn [length]; lia |]. split; [done |].
      split.
      * intros Hnd. rewrite (cons_middle f), app_assoc. apply Hnodup.
        apply NoDup_app. split; [done |]. split.
        -- intros p Hp Hpf. apply list_elem_of_singleton in Hpf. by subst p.
        -- apply NoDup_singleton.
      * intros p. rewrite (cons_middle f selected_paths new), app_assoc, Hmem.
        rewrite elem_of_app, list_elem_of_singleton, elem_of_cons. tauto.
Qed.

(** X19: [select_files] keeps the paths that were selected before, in their
    places, and appends the new ones; every path the dialog returned is
    selected afterwards; each of them counts either as added or as skipped;
    and the number added is the number by which the selection grew. *)
Theorem select_files_adds_new_paths (files selected_paths : list string) :
  ∃ new added_count duplicate_count,
    select_files files selected_paths
      = (selected_paths ++ new, added_count, duplicate_count) ∧
    added_count = len new ∧
    added_count + duplicate_count = len files ∧ 0 ≤ duplicate_count ∧
    (∀ p, p ∈ selected_paths ++ new ↔ p ∈ selected_paths ∨ p ∈ files).
Proof.
  destruct (select_loop_spec files selected_paths 0 0)
    as (new & skipped & Hrun & Hcount & Hpos & _ & Hmem).
  exists new, (len new), skipped. unfold select_files. rewrite Hrun.
  rewrite !Z.add_0_l. done.
Qed.

(** X20: Whatever the user selects and clears, in any order, no path is twice
    in the selection. *)
Theorem selection_has_no_repeats (actions : list action) :
  NoDup (foldl act [] actions).
Proof.
  assert (Hstep : ∀ selected a, NoDup selected → NoDup (act selected a)).
  { intros selected [files | folder walk |] Hnd; cbn [act].
    - unfold select_files.
      destruct (select_loop_spec files selected 0 0)
        as (new & skipped & -> & _ & _ & Hnodup & _). by apply Hnodup.
    - unfold select_folder. destruct (String.eqb folder ""); [done |].
      destruct (select_loop_spec walk selected 0 0)
        as (new & skipped & -> & _ & _ & Hnodup & _). by apply Hnodup.
    - apply NoDup_nil_2. }
  assert (Hall : ∀ selected, NoDup selected → NoDup (foldl act selected actions)).
  { induction actions as [| a actions IH]; intros selected Hnd; [done |].
    cbn [foldl]. by apply IH, Hstep. }
  apply Hall, NoDup_nil_2.
Qed.

End SelectionFacts.

(** ** The transfer queue *)

Section SchedulerFacts.
Context `{PyLib}.
Import Scheduler.

Lemma process_queue_bound (st : sched) :
  (length (current_transfers st) ≤ MAX_CONCURRENT_TRANSFERS)%nat →
  (length (current_transfers (_process_queue st)) ≤ MAX_CONCURRENT_TRANSFERS)%nat.
Proof.
  intros Hle. unfold _process_queue.
  destruct (transfer_queue st) as [| next rest]; [done |].
  destruct (MAX_CONCURRENT_TRANSFERS <=? length (current_transfers st))%nat eqn:Hfull;
    [done |].
  apply Nat.leb_gt in Hfull. cbn [current_transfers]. rewrite length_app. simpl. lia.
Qed.

Lemma handle_bound (st : sched) (ev : event) :
  (length (current_transfers st) ≤ MAX_CONCURRENT_TRANSFERS)%nat →
  (length (current_transfers (handle st ev)) ≤ MAX_CONCURRENT_TRANSFERS)%nat.
Proof.
  intros Hle. destruct ev as [target disk selected hashes ask | is_alive]; cbn [handle].
  - unfold start_transfer.
    destruct target as [[| c target] |]; try done.
    destruct (_gather_files_for_send disk selected) as [[[| f files] total] |]; try done.
    destruct (_check_send_duplicates _ _ _ _); [done |].
    by apply process_queue_bound.
  - destruct (scheduled_checks st) as [| n]; [done |].
    unfold _check_transfers. cbn [transfer_queue current_transfers started scheduled_checks].
    assert (Hfilter : (length (filter (λ t : nat * job, is_alive t.1 = true)
                                 (current_transfers st))
                       ≤ MAX_CONCURRENT_TRANSFERS)%nat).
    { etrans; [apply length_filter | done]. }
    destruct (negb (bool_decide (transfer_queue st = [])) && _).
    + by apply process_queue_bound.
    + by destruct (negb (bool_decide (transfer_queue st = [])) || _).
Qed.

(** X21: However the Start button is pressed and whenever the checks run, at
    most two sending threads are in [current_transfers]. *)
Theorem at_most_two_transfers (events : list event) :
  (length (current_transfers (foldl handle initial events)) ≤ 2)%nat.
Proof.
  assert (Hall : ∀ st, (length (current_transfers st) ≤ MAX_CONCURRENT_TRANSFERS)%nat →
             (length (current_transfers (foldl handle st events))
              ≤ MAX_CONCURRENT_TRANSFERS)%nat).
  { induction events as [| ev events IH]; intros st Hle; [done |].
    cbn [foldl]. by apply IH, handle_bound. }
  apply (Hall initial). simpl. unfold MAX_CONCURRENT_TRANSFERS. lia.
Qed.

Lemma process_queue_order (st : sched) :
  started (_process_queue st) ++ transfer_queue (_process_queue st)
  = started st ++ transfer_queue st.
Proof.
  unfold _process_queue. destruct (transfer_queue st) as [| next rest] eqn:Hq;
    [by rewrite Hq |].
  destruct (MAX_CONCURRENT_TRANSFERS <=? length (current_transfers st))%nat;
    [by rewrite Hq |].
  cbn [started transfer_queue]. by rewrite <- app_assoc.
Qed.

(** X22: No job is lost, repeated or overtaken: the jobs for which a thread was
    started, followed by the jobs that wait, are always the jobs that were
    accepted, in the order in which they were accepted.  A press of Start
    adds at most one job at the end, a check adds none. *)
Theorem jobs_start_in_order (st : sched) (ev : event) :
  ∃ new,
    started (handle st ev) ++ transfer_queue (handle st ev)
    = (started st ++ transfer_queue st) ++ new ∧
    (length new ≤ 1)%nat ∧
    (∀ is_alive, ev = CheckRuns is_alive → new = []).
Proof.
  destruct ev as [target disk selected hashes ask | is_alive]; cbn [handle].
  - unfold start_transfer.
    assert (Hsame : ∃ new : list job,
              started st ++ transfer_queue st = (started st ++ transfer_queue st) ++ new ∧
              (length new ≤ 1)%nat ∧
              (∀ is_alive, StartPressed target disk selected hashes ask
                           = CheckRuns is_alive → new = [])).
    { exists []. rewrite app_nil_r. split; [done |]. split; [simpl; lia | done]. }
    destruct target as [[| c target] |]; try done.
    destruct (_gather_files_for_send disk selected) as [[[| f files] total] |]; try done.
    destruct (_check_send_duplicates _ _ _ _); [done |].
    eexists [_]. rewrite process_queue_order. cbn [started transfer_queue].
    rewrite app_assoc. split; [done |]. split; [simpl; lia | done].
  - exists []. rewrite app_nil_r. split; [| split; [simpl; lia | done]].
    destruct (scheduled_checks st) as [| n]; [done |].
    unfold _check_transfers. cbn [transfer_queue current_transfers started scheduled_checks].
    destruct (negb (bool_decide (transfer_queue st = [])) && _).
    + by rewrite process_queue_order.
    + by destruct (negb (bool_decide (transfer_queue st = [])) || _).
Qed.

Lemma handle_polling (st : sched) (ev : event) :
  (transfer_queue st = [] ∧ current_transfers st = []) ∨
    (0 < scheduled_checks st)%nat →
  (transfer_queue (handle st ev) = [] ∧ current_transfers (handle st ev) = []) ∨
    (0 < scheduled_checks (handle st ev))%nat.
Proof.
  intros Hinv. destruct ev as [target disk selected hashes ask | is_alive]; cbn [handle].
  - unfold start_transfer.
    destruct target as [[| c target] |]; try done.
    destruct (_gather_files_for_send disk selected) as [[[| f files] total] |]; try done.
    destruct (_check_send_duplicates _ _ _ _); [done |].
    unfold _process_queue. cbn [transfer_queue current_transfers started scheduled_checks].
    destruct (transfer_queue st ++ [(String c target, f :: files, total)])
      as [| next rest] eqn:Hq; [by destruct (transfer_queue st) |].
    destruct (MAX_CONCURRENT_TRANSFERS <=? length (current_transfers st))%nat eqn:Hfull.
    + right. cbn [scheduled_checks]. destruct Hinv as [[_ Hnone] | ?]; [| done].
      rewrite Hnone in Hfull. done.
    + right. cbn [scheduled_checks]. lia.
  - destruct (scheduled_checks st) as [| n] eqn:Hs; [by rewrite Hs |].
    unfold _check_transfers. cbn [transfer_queue current_transfers started scheduled_checks].
    destruct (bool_decide (transfer_queue st = [])) eqn:Hq; cbn [negb andb orb].
    + destruct (bool_decide (filter _ (current_transfers st) = [])) eqn:Hc;
        cbn [negb].
      * left. cbn [transfer_queue current_transfers].
        apply bool_decide_eq_true in Hq, Hc. done.
      * right. cbn [scheduled_checks]. lia.
    + destruct (length (filter _ (current_transfers st)) <? MAX_CONCURRENT_TRANSFERS)%nat
        eqn:Hfree.
      * apply bool_decide_eq_false in Hq. apply Nat.ltb_lt in Hfree.
        unfold _process_queue. cbn [transfer_queue current_transfers].
        destruct (transfer_queue st) as [| next rest]; [done |].
        destruct (MAX_CONCURRENT_TRANSFERS <=? _)%nat eqn:Hfull;
          [apply Nat.leb_le in Hfull; lia |].
        right. cbn [scheduled_checks]. lia.
      * right. cbn [scheduled_checks]. lia.
Qed.

(** X23: The checks do not stop while there is work: in every state the main
    thread can reach, either no job waits and no thread is listed, or a
    call of [_check_transfers] is scheduled.  So a job that had to wait
    because two transfers were running is looked at again. *)
Theorem checks_keep_running (events : list event) :
  (transfer_queue (foldl handle initial events) = [] ∧
   current_transfers (foldl handle initial events) = []) ∨
  (0 < scheduled_checks (foldl handle initial events))%nat.
Proof.
  assert (Hall : ∀ st,
    (transfer_queue st = [] ∧ current_transfers st = []) ∨
      (0 < scheduled_checks st)%nat →
    (transfer_queue (foldl handle st events) = [] ∧
     current_transfers (foldl handle st events) = []) ∨
      (0 < scheduled_checks (foldl handle st events))%nat).
  { induction events as [| ev events IH]; intros st Hinv; [done |].
    cbn [foldl]. by apply IH, handle_polling. }
  apply Hall. by left.
Qed.

(** X24: A check that runs while a job waits and fewer than two of the listed
    threads are alive starts the job at the head of the queue. *)
Theorem check_starts_waiting_job (is_alive : nat → bool) (st : sched)
    (next : job) (rest : list job) :
  transfer_queue st = next :: rest →
  (length (filter (λ t : nat * job, is_alive t.1 = true) (current_transfers st)) < 2)%nat →
  let st' := _check_transfers is_alive st in
  transfer_queue st' = rest ∧
  started st' = started st ++ [next] ∧
  current_transfers st' =
    filter (λ t : nat * job, is_alive t.1 = true) (current_transfers st)
    ++ [(length (started st), next)].
Proof.
  intros Hq Hfree st'.
  assert (Hrun : st' =
    {| transfer_queue := rest;
       current_transfers :=
         filter (λ t : nat * job, is_alive t.1 = true) (current_transfers st)
         ++ [(length (started st), next)];
       started := started st ++ [next];
       scheduled_checks := S (scheduled_checks st) |}).
  { subst st'. unfold _check_transfers.
    cbn [transfer_queue current_transfers started scheduled_checks].
    rewrite Hq. rewrite bool_decide_eq_false_2 by done. cbn [negb andb].
    apply Nat.ltb_lt in Hfree as Hfree'. unfold MAX_CONCURRENT_TRANSFERS at 1.
    rewrite Hfree'. unfold _process_queue. cbn [transfer_queue current_transfers].
    destruct (MAX_CONCURRENT_TRANSFERS <=? _)%nat eqn:Hfull;
      [apply Nat.leb_le in Hfull; unfold MAX_CONCURRENT_TRANSFERS in Hfull; lia |].
    done. }
  by rewrite Hrun.
Qed.

End SchedulerFacts.

(** ** Discovery: the two sides together *)

Section Handshake.
Context `{PyLib}.
Import Discovery Broadcast.

Lemma listener_keeps_itself_out (local_ip device_name : string) (data : bytes)
    (addr : string * Z) (st : listener) :
  discovered_devices st !! local_ip = None →
  discovered_devices (udp_discovery_listener local_ip device_name data addr st)
    !! local_ip = None.
Proof.
  intros Hout. unfold udp_discovery_listener.
  destruct (startswith _ "GOODLUCK_DISCOVERY:").
  - destruct (payload _); [| done]. cbn [discovered_devices].
    destruct (String.eqb (fst addr) local_ip) eqn:Hown; cbn [negb]; [done |].
    apply String.eqb_neq in Hown. by rewrite lookup_insert_ne.
  - destruct (startswith _ "GOODLUCK_RESPONSE:"); [| done].
    destruct (payload _); [| done].
    destruct (String.eqb (fst addr) local_ip) eqn:Hown; cbn [negb]; [done |].
    apply String.eqb_neq in Hown. cbn [discovered_devices].
    by rewrite lookup_insert_ne.
Qed.

(** X25: The listener of v2.1 never lists its own address, whatever datagrams
    arrive and wherever they come from, and it sends at most one datagram
    for each one it receives. *)
Theorem listener_never_lists_itself (local_ip device_name : string)
    (datagrams : list (bytes * (string * Z))) (st : listener) :
  discovered_devices st !! local_ip = None →
  discovered_devices (listen local_ip device_name datagrams st) !! local_ip = None ∧
  (length (sent (listen local_ip device_name datagrams st))
   ≤ length (sent st) + length datagrams)%nat.
Proof.
  revert st. unfold listen.
  induction datagrams as [| d datagrams IH]; intros st Hout; [simpl; split; [done | lia] |].
  cbn [foldl].
  destruct (IH (udp_discovery_listener local_ip device_name d.1 d.2 st)) as [Hout' Hlen].
  { by apply listener_keeps_itself_out. }
  split; [done |]. etrans; [exact Hlen |]. cbn [length].
  assert (Hone : (length (sent (udp_discovery_listener local_ip device_name d.1 d.2 st))
                  ≤ S (length (sent st)))%nat).
  { unfold udp_discovery_listener.
    destruct (startswith _ "GOODLUCK_DISCOVERY:").
    - destruct (payload _); [| lia]. cbn [sent]. rewrite length_app. simpl. lia.
    - destruct (startswith _ "GOODLUCK_RESPONSE:"); [| lia].
      destruct (payload _); [| lia].
      destruct (negb _); cbn [sent]; lia. }
  lia.
Qed.

Lemma startswith_own_prefix (tag text : string) : startswith (tag +:+ text) tag = true.
Proof.
  unfold startswith. induction tag as [| c tag IH]; simpl; [by destruct text |].
  by destruct (Ascii.ascii_dec c c).
Qed.

Lemma announcement_tag (text : string) :
  startswith ("GOODLUCK_DISCOVERY:" +:+ text) "GOODLUCK_DISCOVERY:" = true ∧
  after_first_colon ("GOODLUCK_DISCOVERY:" +:+ text) = Some text.
Proof. split; [apply startswith_own_prefix | reflexivity]. Qed.

Lemma response_tag (text : string) :
  startswith ("GOODLUCK_RESPONSE:" +:+ text) "GOODLUCK_DISCOVERY:" = false ∧
  startswith ("GOODLUCK_RESPONSE:" +:+ text) "GOODLUCK_RESPONSE:" = true ∧
  after_first_colon ("GOODLUCK_RESPONSE:" +:+ text) = Some text.
Proof.
  assert (Hown := startswith_own_prefix "GOODLUCK_RESPONSE:" text).
  split; [by apply response_is_no_announcement |]. split; [done | reflexivity].
Qed.


End Handshake.

(** ** v2.1: the answers to the overwrite prompt *)

Section OverwritePrompt.
Context `{PyLib}.
Variable askyesnocancel : string → option bool.

Lemma v21_process_file_prompt (peer : string) (kvs : list (string * json))
    (rel : string) (loc : locals) (s : app) :
  dict_get kvs "rel" = Some (JStr rel) → rel ≠ "" →
  path_exists (Path_str (V21.save_path (download_path s) rel)) s = true →
  V21.process_file askyesnocancel peer None (JDict kvs) loc s =
    match askyesnocancel rel with
    | None => (Ok (Break, None, loc), set_is_listening false s)
    | Some false =>
        (Ok (Next, None, loc), set_recv_log (recv_log s ++ [LogSkipped rel]) s)
    | Some true =>
        (loc ← receive_and_verify (128 * 1024) peer rel
                 (Path_str (V21.save_path (download_path s) rel))
                 (dict_get_default kvs "size" (JInt 0)) (dict_get_none kvs "sha256") loc;
         mret (Next, Some true, loc)) s
    end.
Proof.
  intros Hrel Hne Hexists.
  unfold V21.process_file, mbind, M_bind, bind. simpl as_dict.
  unfold mret, M_ret, ret.
  rewrite (py_or_name kvs rel) by done. simpl as_str. unfold mret, M_ret, ret, get.
  rewrite Hexists. rewrite bool_decide_eq_true_2 by done. cbn [andb].
  destruct (askyesnocancel rel) as [[|] |]; try done.
Qed.

(** X27: v2.1: a file that the user declines to overwrite is skipped without its
    bytes being read, although the sender sends them.  The next file of the
    manifest is therefore filled from the bytes of the skipped one: with a
    declared size of at most the size of the skipped file it ends up
    holding the first bytes of the skipped file. *)
Theorem v21_skipped_file_is_not_drained (peer : string)
    (kvs1 kvs2 : list (string * json)) (rel1 rel2 expected2 : string)
    (content1 tail : bytes) (size2 : Z) (loc : locals) (s : app) :
  dict_get kvs1 "rel" = Some (JStr rel1) → rel1 ≠ "" →
  path_exists (Path_str (V21.save_path (download_path s) rel1)) s = true →
  askyesnocancel rel1 = Some false →
  dict_get kvs2 "rel" = Some (JStr rel2) → rel2 ≠ "" →
  dict_get kvs2 "size" = Some (JInt size2) → 0 ≤ size2 ≤ len content1 →
  dict_get kvs2 "sha256" = Some (JStr expected2) →
  path_exists (Path_str (V21.save_path (download_path s) rel2)) s = false →
  delivered (conn s) = content1 ++ tail →
  ∃ loc' s',
    V21.for_files askyesnocancel peer None [JDict kvs1; JDict kvs2] loc s
      = (Ok loc', s') ∧
    disk s' !! Path_str (V21.save_path (download_path s) rel2)
      = Some (take (Z.to_nat size2) content1) ∧
    delivered (conn s') = drop (Z.to_nat size2) content1 ++ tail.
Proof.
  intros Hrel1 Hne1 Hexists1 Hno Hrel2 Hne2 Hsize2 Hrange Hsha2 Hfresh2 Hdel.
  set (s1 := set_recv_log (recv_log s ++ [LogSkipped rel1]) s).
  assert (Hstep1 : V21.process_file askyesnocancel peer None (JDict kvs1) loc s
                   = (Ok (Next, None, loc), s1)).
  { rewrite (v21_process_file_prompt peer kvs1 rel1) by done. by rewrite Hno. }
  set (got := take (Z.to_nat size2) content1).
  assert (Hgot : len got = size2).
  { unfold got, len in *. rewrite length_take. lia. }
  destruct (v21_process_file_complete askyesnocancel peer None kvs2 rel2 expected2
              got (drop (Z.to_nat size2) content1 ++ tail) loc s1)
    as (ow' & loc' & s' & Hstep2 & Hdisk & Hconn & _ & _); try done.
  { by rewrite Hgot. }
  { change (conn s1) with (conn s). rewrite Hdel, app_assoc. unfold got.
    by rewrite take_drop. }
  { by left. }
  exists loc', s'. split; [| by split].
  cbn [V21.for_files]. unfold mbind at 1, M_bind, bind. rewrite Hstep1.
  unfold mbind at 1, M_bind, bind. rewrite Hstep2.
  by destruct ow' as [[|] |].
Qed.

(** X28: v2.1: Cancel at the overwrite prompt ends more than the loop over the
    files: the rest of the manifest is not looked at, nothing is read or
    written and the counters stay, and [is_listening] is cleared, which is
    the flag the accept loop of the listening thread tests and the flag by
    which the session then records itself as Cancelled. *)
Theorem v21_cancel_stops_listening (peer : string) (kvs : list (string * json))
    (rel : string) (rest : list json) (loc : locals) (s : app) :
  dict_get kvs "rel" = Some (JStr rel) → rel ≠ "" →
  path_exists (Path_str (V21.save_path (download_path s) rel)) s = true →
  askyesnocancel rel = None →
  V21.for_files askyesnocancel peer None (JDict kvs :: rest) loc s
    = (Ok loc, set_is_listening false s).
Proof.
  intros Hrel Hne Hexists Hcancel.
  cbn [V21.for_files]. unfold mbind at 1, M_bind, bind.
  rewrite (v21_process_file_prompt peer kvs rel) by done. by rewrite Hcancel.
Qed.

End OverwritePrompt.

(** ** The counters of a session *)

Section Counters.
Context `{PyLib}.

Lemma on_ok_bind {A B} (m : M app A) (k : A → M app B) (P : A → Prop) (Q : B → Prop) :
  on_ok m P → (∀ a, P a → on_ok (k a) Q) → on_ok (m ≫= k) Q.
Proof.
  intros Hm Hk s b s'. unfold mbind, M_bind, bind.
  destruct (m s) as [[a | e |] s1] eqn:Hrun; [| done | done].
  intros Hrest. eapply Hk; [| exact Hrest]. by eapply Hm.
Qed.

Lemma on_ok_ret {A} (a : A) (P : A → Prop) : P a → on_ok (mret a) P.
Proof. intros HP s a' s' [= <- <-]. done. Qed.

Lemma on_ok_any {A} (m : M app A) : on_ok m (λ _, True).
Proof. by intros s a s' _. Qed.

Lemma counted_refl loc : counted 0 loc loc.
Proof. unfold counted. lia. Qed.

Lemma counted_trans n m loc1 loc2 loc3 :
  counted n loc1 loc2 → counted m loc2 loc3 → counted (n + m) loc1 loc3.
Proof. unfold counted. lia. Qed.

Lemma receive_and_verify_counted limit peer rel path size expected loc :
  1 ≤ limit →
  on_ok (receive_and_verify limit peer rel path size expected loc)
    (λ loc', counted 1 loc loc' ∧ files_completed loc' = files_completed loc).
Proof.
  intros Hlimit. unfold receive_and_verify.
  eapply on_ok_bind; [apply on_ok_any | intros _ _].
  eapply on_ok_bind; [apply on_ok_any | intros file_size _].
  eapply on_ok_bind; [apply on_ok_any | intros _ _].
  eapply on_ok_bind; [apply on_ok_any | intros _ _].
  eapply (on_ok_bind _ _ (λ r, counted 0 loc r.2 ∧
                                files_completed r.2 = files_completed loc)).
  - intros s [hash_obj loc1] s1 Hrun.
    apply receive_file_takes in Hrun as (new & Hbytes & Hv & Hf); [| done].
    cbn [snd]. unfold counted, len in *. split; [lia | done].
  - intros [hash_obj loc1] [Hcount Hfiles]. cbn [snd] in *.
    unfold verify_file.
    eapply on_ok_bind; [apply on_ok_any | intros matched _].
    destruct matched.
    + eapply on_ok_bind; [apply on_ok_any | intros _ _].
      eapply on_ok_bind; [apply on_ok_any | intros _ _].
      apply on_ok_ret. cbn. unfold counted in *.
      cbn [verified_count bytes_completed]. split; [lia | done].
    + eapply on_ok_bind; [apply on_ok_any | intros _ _].
      apply on_ok_ret. unfold counted in *. split; [lia | done].
Qed.

Lemma v3_process_file_counted peer policy file_info loc :
  on_ok (V3.process_file peer policy file_info loc)
    (λ loc', counted 1 loc loc').
Proof.
  unfold V3.process_file.
  eapply on_ok_bind; [apply on_ok_any | intros kvs _].
  eapply on_ok_bind; [apply on_ok_any | intros rel _].
  eapply on_ok_bind; [apply on_ok_any | intros s0 _].
  match goal with |- on_ok (if ?c then _ else _) _ => destruct c end.
  - eapply on_ok_bind; [apply on_ok_any | intros _ _].
    apply on_ok_ret. unfold counted. lia.
  - eapply on_ok_bind; [by apply receive_and_verify_counted | intros loc1 [Hc _]].
    apply on_ok_ret. unfold counted in *. cbn [verified_count bytes_completed]. lia.
Qed.

Lemma v21_process_file_counted ask peer overwrite_all file_info loc :
  on_ok (V21.process_file ask peer overwrite_all file_info loc)
    (λ r, counted 1 loc r.2).
Proof.
  unfold V21.process_file.
  eapply on_ok_bind; [apply on_ok_any | intros kvs _].
  eapply on_ok_bind; [apply on_ok_any | intros rel _].
  eapply on_ok_bind; [apply on_ok_any | intros s0 _].
  set (path := Path_str (V21.save_path (download_path s0) rel)).
  assert (Hreceive : ∀ ow,
    on_ok (if path_exists path s0 && negb (default false ow)
           then append_recv_log (LogSkipped rel);; mret (Next, ow, loc)
           else
             loc ← receive_and_verify (128 * 1024) peer rel path
                      (dict_get_default kvs "size" (JInt 0))
                      (dict_get_none kvs "sha256") loc;
             mret (Next, ow, loc))
      (λ r : flow * option bool * locals, counted 1 loc r.2)).
  { intros ow.
    match goal with |- on_ok (if ?c then _ else _) _ => destruct c end.
    - eapply on_ok_bind; [apply on_ok_any | intros _ _].
      apply on_ok_ret. unfold counted. cbn [snd]. lia.
    - eapply on_ok_bind; [by apply receive_and_verify_counted | intros loc1 [Hc _]].
      by apply on_ok_ret. }
  match goal with |- on_ok (if ?c then _ else _) _ => destruct c end.
  - destruct (ask rel) as [[|] |]; [apply Hreceive | |].
    + eapply on_ok_bind; [apply on_ok_any | intros _ _].
      apply on_ok_ret. unfold counted. cbn [snd]. lia.
    + eapply on_ok_bind; [apply on_ok_any | intros _ _].
      apply on_ok_ret. unfold counted. cbn [snd]. lia.
  - apply Hreceive.
Qed.

Lemma v3_for_files_counted peer files loc :
  on_ok (V3.for_files peer files loc) (λ loc', counted (len files) loc loc').
Proof.
  revert loc. induction files as [| f files IH]; intros loc; cbn [V3.for_files].
  - apply on_ok_ret. apply counted_refl.
  - eapply on_ok_bind; [apply v3_process_file_counted | intros loc1 Hc1].
    intros s loc2 s' Hrun. apply IH in Hrun.
    replace (len (f :: files)) with (1 + len files)
      by (unfold len; cbn [length]; lia).
    by eapply counted_trans.
Qed.

Lemma v21_for_files_counted ask peer overwrite_all files loc :
  on_ok (V21.for_files ask peer overwrite_all files loc)
    (λ loc', counted (len files) loc loc').
Proof.
  revert overwrite_all loc.
  induction files as [| f files IH]; intros overwrite_all loc; cbn [V21.for_files].
  - apply on_ok_ret. apply counted_refl.
  - eapply on_ok_bind; [apply v21_process_file_counted |].
    intros [[fl ow] loc1] Hc1. cbn [snd] in Hc1.
    replace (len (f :: files)) with (1 + len files)
      by (unfold len; cbn [length]; lia).
    destruct fl.
    + intros s loc2 s' Hrun. apply IH in Hrun. by eapply counted_trans.
    + apply on_ok_ret. unfold counted in *. unfold len. lia.
Qed.

(** X29: Whatever the manifest holds and whatever arrives, the loop over the
    files of either revision counts at most one verified file for each
    entry and never lowers a counter: the number of verified files that
    goes into the history is between zero and the number of entries. *)
Theorem verified_count_is_bounded (askyesnocancel : string → option bool)
    (peer : string) (overwrite_all : option bool) (files : list json)
    (loc loc' : locals) (s s' : app) :
  V3.for_files peer files loc s = (Ok loc', s') ∨
  V21.for_files askyesnocancel peer overwrite_all files loc s = (Ok loc', s') →
  verified_count loc ≤ verified_count loc' ≤ verified_count loc + len files ∧
  bytes_completed loc ≤ bytes_completed loc'.
Proof.
  intros [Hrun | Hrun].
  - by apply v3_for_files_counted in Hrun.
  - by apply v21_for_files_counted in Hrun.
Qed.

End Counters.

(** ** The further properties at work on sample inputs *)

Section MoreInstances.
Import RefLib Samples MoreSamples.

Lemma is_duplicate_returns_oldest_witness :
  DuplicateManager.is_duplicate two_records "/home/bob/a.txt" "0090b109" "192.168.1.20"
  = (true, Some sent_to_bob).
Proof.
  apply (is_duplicate_returns_oldest two_records "/home/bob/a.txt" "0090b109"
           "192.168.1.20" [sent_to_alice] [] sent_to_bob).
  - vm_compute. reflexivity.
  - reflexivity.
  - reflexivity.
  - intros o Hin [_ Hpeer]. apply list_elem_of_singleton in Hin. subst o.
    discriminate Hpeer.
Defined.

Lemma evicted_record_is_forgotten_witness :
  DuplicateManager.is_duplicate full_key "a.txt" "0090b109" "192.168.1.30"
    = (true, Some sent_to_alice) ∧
  DuplicateManager.is_duplicate
    (DuplicateManager.add_file_hash full_key "/tmp/a.txt" "0090b109" "192.168.1.40"
       today)
    "a.txt" "0090b109" "192.168.1.30" = (false, None).
Proof.
  apply (evicted_record_is_forgotten full_key "a.txt" "0090b109" "192.168.1.30"
           sent_to_alice (replicate 999 sent_to_bob) "/tmp/a.txt" "192.168.1.40" today).
  - unfold DuplicateManager.get_duplicate_info, full_key.
    change (DuplicateManager.key_of "a.txt" "0090b109") with "0090b109_a.txt"%string.
    by rewrite lookup_singleton_eq.
  - apply length_replicate.
  - intros o Hin. apply elem_of_replicate in Hin as [-> _]. discriminate.
  - reflexivity.
  - discriminate.
  - reflexivity.
  - reflexivity.
Defined.


Lemma receive_all_exact_witness :
  let s := receiver [Packet (encode "abc"); Packet (encode "de")] in
  let s' := set_conn [Packet (encode "e")] s in
  len (encode "abcd") = 4 ∧
  incoming (conn s) = encode "abcd" ++ incoming (conn s') ∧
  s' = set_conn (conn s') s.
Proof.
  intros s s'. apply (receive_all_exact 4 (encode "abcd") s s').
  - lia.
  - left. vm_compute. reflexivity.
Defined.

Lemma receive_file_takes_at_most_size_witness :
  let s := receiver [Packet (encode "abc"); Packet (encode "de")] in
  ∃ hash_obj loc' s',
    receive_file 2 "/home/user/Downloads/a.txt" 4 no_counters s
      = (Ok (hash_obj, loc'), s') ∧
    len hash_obj ≤ Z.max 0 4 ∧
    incoming (conn s) = hash_obj ++ incoming (conn s') ∧
    default [] (disk s' !! "/home/user/Downloads/a.txt"%string)
      = default [] (disk s !! "/home/user/Downloads/a.txt"%string) ++ hash_obj ∧
    (∀ other, other ≠ "/home/user/Downloads/a.txt"%string →
              disk s' !! other = disk s !! other) ∧
    bytes_completed loc' = bytes_completed no_counters + len hash_obj.
Proof.
  intros s.
  assert (Hrun : ∃ hash_obj loc' s',
            receive_file 2 "/home/user/Downloads/a.txt" 4 no_counters s
            = (Ok (hash_obj, loc'), s'))
    by (eexists _, _, _; vm_compute; reflexivity).
  destruct Hrun as (hash_obj & loc' & s' & Hrun).
  exists hash_obj, loc', s'. split; [exact Hrun |].
  apply (receive_file_takes_at_most_size 2 _ 4 no_counters loc' hash_obj s s');
    [lia | exact Hrun].
Defined.


Lemma send_completes_witness :
  ∃ n, ∀ trace, (n ≤ length trace)%nat → Forall (λ fl, fl = SendRuns.clear) trace →
    Sender.send_run target today trace (SendRuns.start_of_send true_files sender_disk ∅)
    = SendRuns.end_of_send [] (SendRuns.contents sender_disk true_files)
        (len (SendRuns.contents sender_disk true_files)) sender_disk
        (SendRuns.record_sent target today ∅ true_files) StatusOK.
Proof.
  apply (send_completes target today true_files sender_disk ∅).
  repeat constructor; eexists; vm_compute; reflexivity.
Defined.

Lemma send_stops_at_missing_file_witness :
  ∃ n, ∀ trace, (n ≤ length trace)%nat → Forall (λ fl, fl = SendRuns.clear) trace →
    Sender.send_run target today trace
      (SendRuns.start_of_send (take 1 true_files ++ drop 1 true_files) disk_without_b ∅)
    = SendRuns.end_of_send (drop 1 true_files)
        (SendRuns.contents disk_without_b (take 1 true_files))
        (len (SendRuns.contents disk_without_b (take 1 true_files))) disk_without_b
        (SendRuns.record_sent target today ∅ (take 1 true_files)) StatusError.
Proof.
  apply (send_stops_at_missing_file target today (take 1 true_files) []
           {| sf_path := "/srv/b.txt"; sf_rel := "b.txt"; sf_size := 2;
              sf_sha256 := "00002968" |} disk_without_b ∅).
  - repeat constructor; eexists; vm_compute; reflexivity.
  - vm_compute. reflexivity.
Defined.

Lemma cancel_is_never_cleared_witness :
  Sender.send_run target today
    [SendRuns.press SendRuns.clear SendRuns.CancelButton;
     foldl SendRuns.press (SendRuns.press SendRuns.clear SendRuns.CancelButton)
       [SendRuns.PauseButton; SendRuns.ResumeButton]]
    (SendRuns.start_of_send true_files sender_disk ∅)
  = SendRuns.end_of_send true_files [] 0 sender_disk ∅ StatusCancelled.
Proof.
  apply (cancel_is_never_cleared target today SendRuns.clear).
  - repeat constructor.
    + by exists [].
    + by exists [SendRuns.PauseButton; SendRuns.ResumeButton].
  - simpl. lia.
Defined.

Lemma cancel_inside_file_still_records_witness :
  let st' := Sender.send_run target today [cancelled; cancelled; cancelled]
               sender_inside_file in
  Sender.pc st' = Sender.SendDone ∧
  Sender.send_status st' = Some StatusCancelled ∧
  Sender.wire st' = Sender.wire sender_inside_file ∧
  fst (DuplicateManager.is_duplicate (Sender.sender_hashes st')
         "/srv/a.txt" "0090b109" target) = true.
Proof.
  apply (cancel_inside_file_still_records target today sender_inside_file
           {| sf_path := "/srv/a.txt"; sf_rel := "a.txt"; sf_size := 4;
              sf_sha256 := "0090b109" |} [cancelled; cancelled; cancelled]).
  - reflexivity.
  - reflexivity.
  - by repeat constructor.
  - simpl. lia.
Defined.

Lemma true_files_are_honest : Forall (honest sender_disk) true_files.
Proof.
  repeat constructor.
  - exists (encode "abcd"). repeat split; try (vm_compute; reflexivity); discriminate.
  - exists (encode "xy"). repeat split; try (vm_compute; reflexivity); discriminate.
Defined.



Lemma sha256_of_file_is_digest_of_content_witness :
  _sha256_of_file (encode "abcd") 3 = Some (sha256_hexdigest (encode "abcd")).
Proof. apply (sha256_of_file_is_digest_of_content (encode "abcd") 3). lia. Defined.

Lemma check_starts_waiting_job_witness :
  let st' := Scheduler._check_transfers all_finished one_waiting in
  Scheduler.transfer_queue st' = [] ∧
  Scheduler.started st' =
    Scheduler.started one_waiting ++ [("192.168.1.20"%string, true_files, 6)] ∧
  Scheduler.current_transfers st' =
    filter (λ t : nat * Scheduler.job, all_finished t.1 = true)
      (Scheduler.current_transfers one_waiting)
    ++ [(length (Scheduler.started one_waiting),
         ("192.168.1.20"%string, true_files, 6))].
Proof.
  apply (check_starts_waiting_job all_finished one_waiting
           ("192.168.1.20"%string, true_files, 6) []).
  - reflexivity.
  - vm_compute. lia.
Defined.

Lemma listener_never_lists_itself_witness :
  let datagrams :=
    [(announcement_from_bob, ("192.168.1.10"%string, 5000));
     (response_from_bob, ("192.168.1.20"%string, 5000))] in
  Discovery.discovered_devices
    (Broadcast.listen "192.168.1.10" "Alice" datagrams quiet_listener)
    !! "192.168.1.10"%string = None ∧
  (length (Discovery.sent
             (Broadcast.listen "192.168.1.10" "Alice" datagrams quiet_listener))
   ≤ length (Discovery.sent quiet_listener) + length datagrams)%nat.
Proof.
  intros datagrams.
  apply (listener_never_lists_itself "192.168.1.10" "Alice" datagrams quiet_listener).
  reflexivity.
Defined.


Lemma v21_skipped_file_is_not_drained_witness :
  let s := receiver_with_a [Packet (encode "abcdxy")] in
  ∃ loc' s',
    V21.for_files always_no peer None [JDict a_txt_entry; JDict b_txt_entry]
      no_counters s = (Ok loc', s') ∧
    disk s' !! Path_str (V21.save_path (download_path s) "b.txt")
      = Some (take (Z.to_nat 2) (encode "abcd")) ∧
    delivered (conn s') = drop (Z.to_nat 2) (encode "abcd") ++ encode "xy".
Proof.
  intros s.
  apply (v21_skipped_file_is_not_drained always_no peer a_txt_entry b_txt_entry
           "a.txt" "b.txt" "00002968" (encode "abcd") (encode "xy") 2 no_counters s).
  - reflexivity.
  - discriminate.
  - vm_compute. reflexivity.
  - reflexivity.
  - reflexivity.
  - discriminate.
  - reflexivity.
  - split; vm_compute; discriminate.
  - reflexivity.
  - vm_compute. reflexivity.
  - vm_compute. reflexivity.
Defined.

Lemma v21_cancel_stops_listening_witness :
  let s := receiver_with_a [Packet (encode "abcdxy")] in
  V21.for_files always_cancel peer None [JDict a_txt_entry; JDict b_txt_entry]
    no_counters s
  = (Ok no_counters, set_is_listening false s).
Proof.
  intros s.
  apply (v21_cancel_stops_listening always_cancel peer a_txt_entry "a.txt"
           [JDict b_txt_entry] no_counters s).
  - reflexivity.
  - discriminate.
  - vm_compute. reflexivity.
  - reflexivity.
Defined.

Lemma verified_count_is_bounded_witness :
  let s := receiver [Packet (encode "abcdxy")] in
  ∃ loc' s',
    V3.for_files peer [JDict a_txt_entry; JDict b_txt_entry] no_counters s
      = (Ok loc', s') ∧
    verified_count no_counters ≤ verified_count loc'
      ≤ verified_count no_counters + len [JDict a_txt_entry; JDict b_txt_entry] ∧
    bytes_completed no_counters ≤ bytes_completed loc'.
Proof.
  intros s.
  assert (Hrun : ∃ loc' s',
            V3.for_files peer [JDict a_txt_entry; JDict b_txt_entry] no_counters s
            = (Ok loc', s'))
    by (eexists _, _; vm_compute; reflexivity).
  destruct Hrun as (loc' & s' & Hrun).
  exists loc', s'. split; [exact Hrun |].
  apply (verified_count_is_bounded always_yes peer None
           [JDict a_txt_entry; JDict b_txt_entry] no_counters loc' s s').
  left. exact Hrun.
Defined.

End MoreInstances.
